(** * ChatNoir retrieval core: chunker, cosine similarity, rank fusion,
      reranker and search orchestrator.

    A shallow embedding of
      - src/lib/storage/chat-chunker.ts        (modules [ChatChunker] and
        [ConversationHash])
      - src/knowledge/embeddings/reranker.ts   (module [Reranker])
      - src/app/api/rerank/route.ts            (module [RerankRoute])
      - the large-document operations bundled in src/lib/use-client-tools.ts
        (module [LargeDocuments]: cosineSimilarity, computeRRFScore,
        searchLargeDocuments, searchLargeDocument; module [DocumentStore]:
        extractPdfText, parsePdfWithClaude, indexLargeDocumentInBackground,
        deleteLargeDocument, loadDocumentContent, renameLargeDocument)

    Modelling conventions.
      - A JavaScript [number] that carries a score is a real number ([R]):
        finite and exact, so NaN, the infinities and the rounding error of
        IEEE doubles are outside this model; module [Binary64] gives
        [cosineSimilarity] a second time on binary64 numbers, where the
        rounding shows.  Counts and indices are [nat], the
        [topK]/[retrieveK] arguments of [Array.prototype.slice] are [Z].
      - A JavaScript string is a [string] of code units below 256.
      - [Map<string, V>] and [Record<string, unknown>] are [gmap string V].
      - A promise that may reject, and a call that may throw, is a value of
        [result]; the outcome of every request to the outside world (the
        chunk store, the embedding service, the reranking services) is read
        from an explicit environment record.
      - The object stores of the large-document database are [gmap]s
        keyed by [id], and an operation on them is a function of the
        state ([DocumentStore.Prog]).  The database opens, and its reads
        and deletions succeed; whether it grants the writes of an
        indexing, and whether the progress callback returns, is read
        from the environment.
      - A chunk the search reads carries the embedding its type
        declares, and the functions of "./lexical-search" return. *)

From Stdlib Require Import Floats.
From Stdlib Require Import Reals Lra Lia ZArith String Ascii List Permutation Sorted.
From Stdlib Require Import DecimalString HexadecimalString DecimalNat DecimalFacts.
From stdpp Require Import gmap strings list.

Open Scope string_scope.

(* ===================================================================== *)
(** ** JavaScript built-ins used by the sources                          *)
(* ===================================================================== *)

Module JS.

(** Outcome of a computation that may throw (of a promise that may
    reject): the value, or the message of the error. *)
Inductive result (A : Type) : Type :=
| Ok (a : A)
| Throw (msg : string).
Arguments Ok {A} a.
Arguments Throw {A} msg.

Definition bind {A B} (r : result A) (k : A -> result B) : result B :=
  match r with
  | Ok a => k a
  | Throw e => Throw e
  end.

(** [try { body } catch (error) { handler }] *)
Definition try_catch {A} (body : result A) (handler : string -> result A) : result A :=
  match body with
  | Ok a => Ok a
  | Throw e => handler e
  end.

(** White space of the regular-expression class [\s] and of
    [String.prototype.trim] among the code units below 256: TAB, LF, VT,
    FF, CR, SP and the no-break space U+00A0. *)
Definition is_whitespace (c : ascii) : bool :=
  let n := nat_of_ascii c in
  (n =? 9)%nat || (n =? 10)%nat || (n =? 11)%nat || (n =? 12)%nat
  || (n =? 13)%nat || (n =? 32)%nat || (n =? 160)%nat.

Definition newline : ascii := ascii_of_nat 10.

Fixpoint trimStart (s : string) : string :=
  match s with
  | EmptyString => EmptyString
  | String c s' => if is_whitespace c then trimStart s' else s
  end.

Fixpoint trimEnd (s : string) : string :=
  match s with
  | EmptyString => EmptyString
  | String c s' =>
      match trimEnd s' with
      | EmptyString => if is_whitespace c then EmptyString else String c EmptyString
      | t => String c t
      end
  end.

(** [s.trim()] *)
Definition trim (s : string) : string := trimEnd (trimStart s).

(** A property of an object literal whose type leaves it optional: left
    out, written with the value [undefined], or given a value. *)
Inductive Field (A : Type) : Type :=
| Absent
| Undefined
| Given (value : A).
Arguments Absent {A}.
Arguments Undefined {A}.
Arguments Given {A} value.

(** The property that [{ ...defaults, ...config }] has under a key, as
    read afterwards ([None] for [undefined]): every own property of
    [config] overwrites that of [defaults], one written with the value
    [undefined] included. *)
Definition spread {A} (default : option A) (given : Field A) : option A :=
  match given with
  | Absent => default
  | Undefined => None
  | Given value => Some value
  end.

(** A string is truthy when it is not empty. *)
Definition truthy (s : string) : bool :=
  match s with
  | EmptyString => false
  | String _ _ => true
  end.

(** ["A".repeat(n)] *)
Fixpoint repeat (s : string) (n : nat) : string :=
  match n with
  | O => EmptyString
  | S n' => s ++ repeat s n'
  end.

(** [parts.join(sep)] *)
Fixpoint join (sep : string) (parts : list string) : string :=
  match parts with
  | [] => EmptyString
  | [p] => p
  | p :: rest => p ++ sep ++ join sep rest
  end.

(** [l.slice(0, n)]: a negative end counts from the end of the array. *)
Definition slice0 {A} (l : list A) (n : Z) : list A :=
  if (n <? 0)%Z then firstn (Z.to_nat (Z.of_nat (length l) + n)) l
  else firstn (Z.to_nat n) l.

(** [Math.round(x)]: the integer nearest to [x], halves rounded up. *)
Definition round (x : R) : R := IZR (Int_part (x + / 2)).

Global Instance Rle_decision (x y : R) : Decision (x <= y)%R := Rle_dec x y.

(** [l.sort(cmp)].  Array.prototype.sort is stable; for a comparator
    that is consistent it returns the one stable arrangement in which
    [cmp a b <= 0] for every [a] placed before [b].  [insert] puts an
    element, which preceded all of [l] in the input, before the first
    element it does not have to follow. *)
Fixpoint insert {A} (cmp : A -> A -> R) (x : A) (l : list A) : list A :=
  match l with
  | [] => [x]
  | y :: l' =>
      if decide (cmp x y <= 0)%R then x :: y :: l' else y :: insert cmp x l'
  end.

Fixpoint sort {A} (cmp : A -> A -> R) (l : list A) : list A :=
  match l with
  | [] => []
  | x :: l' => insert cmp x (sort cmp l')
  end.

End JS.

(* ===================================================================== *)
(** ** src/lib/storage/chat-chunker.ts                                   *)
(* ===================================================================== *)

Module ChatChunker.
Import JS.

Record ChatChunk : Type := mkChatChunk {
  text : string;
  index : nat;
  messageRole : string;
  messageIndex : nat
}.

(** A part of a [UIMessage]; [part_text] is [None] when the part has no
    string [text] field. *)
Record MessagePart : Type := mkPart {
  part_type : string;
  part_text : option string
}.

(** The fields of a [UIMessage] the chunker reads; [content] is [None]
    when it is not a string, [parts] is [None] when it is missing. *)
Record UIMessage : Type := mkMessage {
  role : string;
  parts : option (list MessagePart);
  content : option string
}.

(** [Math.ceil(text.length / 4)] *)
Definition estimateTokens (text : string) : nat :=
  (String.length text + 3) / 4.

(** [text.split(/(?<=[.!?])\s+/)]: a separator is a maximal run of white
    space that starts right after one of [. ! ?].  [cur] is the piece
    being read, [prevPunct] tells whether the previous character ends a
    sentence, [inSep] whether a separator is being skipped. *)
Definition is_sentence_end (c : ascii) : bool :=
  (c =? ".")%char || (c =? "!")%char || (c =? "?")%char.

Fixpoint splitSentencesFrom (s cur : string) (prevPunct inSep : bool) : list string :=
  match s with
  | EmptyString => if inSep then [cur; ""] else [cur]
  | String c s' =>
      if inSep then
        if is_whitespace c then splitSentencesFrom s' cur false true
        else cur :: splitSentencesFrom s' (String c "") (is_sentence_end c) false
      else if is_whitespace c && prevPunct then splitSentencesFrom s' cur false true
      else splitSentencesFrom s' (cur ++ String c "") (is_sentence_end c) false
  end.

Definition nonEmpty (s : string) : bool := (0 <? String.length s)%nat.

Definition splitBySentences (text : string) : list string :=
  filter (fun s => nonEmpty s = true) (map trim (splitSentencesFrom text "" false false)).

(** [text.split(/\n\n+/)]: a separator is a maximal run of two or more
    line feeds.  [nl] counts the line feeds read since the last other
    character. *)
Fixpoint splitParagraphsFrom (s cur : string) (nl : nat) : list string :=
  match s with
  | EmptyString =>
      match nl with
      | O => [cur]
      | S O => [cur ++ String newline ""]
      | _ => [cur; ""]
      end
  | String c s' =>
      if (c =? newline)%char then splitParagraphsFrom s' cur (S nl)
      else
        match nl with
        | O => splitParagraphsFrom s' (cur ++ String c "") O
        | S O => splitParagraphsFrom s' (cur ++ String newline (String c "")) O
        | _ => cur :: splitParagraphsFrom s' (String c "") O
        end
  end.

Definition splitByParagraphs (text : string) : list string :=
  filter (fun p => nonEmpty p = true) (map trim (splitParagraphsFrom text "" O)).

Definition extractTextFromMessage (message : UIMessage) : string :=
  match parts message with
  | None | Some [] =>
      match content message with
      | Some c => c
      | None => ""
      end
  | Some ps =>
      let textParts :=
        omap (fun part =>
                if String.eqb (part_type part) "text" then part_text part else None) ps in
      join (String newline (String newline "")) textParts
  end.

Definition shouldIncludeMessage (message : UIMessage) : bool :=
  if negb (String.eqb (role message) "user") && negb (String.eqb (role message) "assistant")
  then false
  else if negb (truthy (trim (extractTextFromMessage message))) then false
  else true.

(** [chunks.push({ text, index: chunks.length, messageRole, messageIndex })] *)
Definition push (chunks : list ChatChunk) (t role : string) (mi : nat) : list ChatChunk :=
  chunks ++ [mkChatChunk t (length chunks) role mi].

(** [if (currentChunk.trim() && currentChunk !== rolePrefix) chunks.push(...)] *)
Definition saveChunk (chunks : list ChatChunk) (currentChunk rolePrefix role : string)
    (mi : nat) : list ChatChunk :=
  if truthy (trim currentChunk) && negb (String.eqb currentChunk rolePrefix)
  then push chunks (trim currentChunk) role mi
  else chunks.

(** The state of the two nested loops: the chunks pushed so far,
    [currentChunk] and [isFirstChunk]. *)
Definition LoopState : Type := (list ChatChunk * string * bool)%type.

(** Body of [for (const sentence of sentences)]. *)
Definition sentenceStep (rolePrefix role : string) (mi maxTokens : nat)
    (st : LoopState) (sentence : string) : LoopState :=
  let '(chunks, currentChunk, isFirstChunk) := st in
  let sentenceToAdd := if isFirstChunk then sentence else " " ++ sentence in
  let sentenceCombined := currentChunk ++ sentenceToAdd in
  if (estimateTokens sentenceCombined <=? maxTokens)%nat
  then (chunks, sentenceCombined, false)
  else (saveChunk chunks currentChunk rolePrefix role mi, rolePrefix ++ sentence, false).

(** Body of [for (const paragraph of paragraphs)]. *)
Definition paragraphStep (rolePrefix role : string) (mi maxTokens : nat)
    (st : LoopState) (paragraph : string) : LoopState :=
  let '(chunks, currentChunk, isFirstChunk) := st in
  let toAdd :=
    if isFirstChunk then paragraph
    else String newline (String newline paragraph) in
  let combined := currentChunk ++ toAdd in
  if (estimateTokens combined <=? maxTokens)%nat
  then (chunks, combined, false)
  else
    let chunks1 := saveChunk chunks currentChunk rolePrefix role mi in
    let paragraphWithPrefix := rolePrefix ++ paragraph in
    if (maxTokens <? estimateTokens paragraphWithPrefix)%nat
    then fold_left (sentenceStep rolePrefix role mi maxTokens)
                   (splitBySentences paragraph) (chunks1, rolePrefix, true)
    else (chunks1, paragraphWithPrefix, false).

(** Body of [for (const message of messages)]; the state is the chunk
    list and [messageIndex]. *)
Definition messageStep (maxTokens : nat) (st : list ChatChunk * nat) (message : UIMessage)
    : list ChatChunk * nat :=
  let '(chunks, mi) := st in
  if negb (shouldIncludeMessage message) then (chunks, mi)
  else
    let role := role message in
    let rawText := extractTextFromMessage message in
    let rolePrefix := if String.eqb role "user" then "[User]: " else "[Assistant]: " in
    let prefixedText := rolePrefix ++ rawText in
    if (estimateTokens prefixedText <=? maxTokens)%nat
    then (push chunks prefixedText role mi, S mi)
    else
      let '(chunks1, currentChunk, _) :=
        fold_left (paragraphStep rolePrefix role mi maxTokens)
                  (splitByParagraphs rawText) (chunks, rolePrefix, true) in
      (saveChunk chunks1 currentChunk rolePrefix role mi, S mi).

(** [chunks.forEach((chunk, i) => { chunk.index = i; })] *)
Definition reindex (chunks : list ChatChunk) : list ChatChunk :=
  imap (fun i chunk => mkChatChunk (text chunk) i (messageRole chunk) (messageIndex chunk))
       chunks.

Definition chunkChatMessages (messages : list UIMessage) (maxTokens : nat) : list ChatChunk :=
  reindex (fst (fold_left (messageStep maxTokens) messages ([], O))).

(** The default of the parameter [maxTokens]. *)
Definition defaultMaxTokens : nat := 500.

(** The message of scenario C: one user message whose only text part is
    ["A".repeat(n)]. *)
Definition userMessage (t : string) : UIMessage :=
  mkMessage "user" (Some [mkPart "text" (Some t)]) None.

(** [chunk.text] with the role marker removed, when it starts with one. *)
Definition stripRolePrefix (t : string) : string :=
  if String.prefix "[User]: " t then String.substring 8 (String.length t - 8) t
  else if String.prefix "[Assistant]: " t then String.substring 13 (String.length t - 13) t
  else t.

End ChatChunker.

(* ===================================================================== *)
(** ** src/knowledge/embeddings/reranker.ts                              *)
(* ===================================================================== *)

Module Reranker.
Import JS.

(** The values a [Record<string, unknown>] of metadata holds. *)
Inductive JsValue : Type :=
| JUndefined
| JBool (b : bool)
| JNumber (x : R)
| JString (s : string)
| JStrings (items : list string).

Record RerankDocument : Type := mkDoc {
  doc_id : string;
  doc_text : string;
  doc_originalScore : option R;
  doc_metadata : option (gmap string JsValue)
}.

Record RerankResult : Type := mkRes {
  res_id : string;
  res_text : string;
  relevanceScore : R;
  res_originalScore : option R;
  rank : nat;
  res_metadata : option (gmap string JsValue)
}.

(** The object [{ ...DEFAULT_CONFIG, ...config }] as [rerank] and the
    backends read it: each property is a value or [undefined] ([None]). *)
Record RerankerConfig : Type := mkConfig {
  backend : option string;
  cohereApiKey : option string;
  openaiApiKey : option string;
  cohereModel : option string;
  topK : option Z;
  threshold : option R
}.

(** The [Partial<RerankerConfig>] a caller passes: each property is left
    out, written with the value [undefined], or given. *)
Record PartialConfig : Type := mkPartial {
  p_backend : Field string;
  p_cohereApiKey : Field string;
  p_openaiApiKey : Field string;
  p_cohereModel : Field string;
  p_topK : Field Z;
  p_threshold : Field R
}.

Definition DEFAULT_CONFIG : RerankerConfig :=
  mkConfig (Some "none") None None (Some "rerank-v3.5") (Some 5%Z) (Some (2 / 10)%R).

(** [a ?? b] *)
Definition nullish {A} (a : option A) (b : A) : A := default b a.

(** [{ ...defaults, ...config }] *)
Definition mergeConfig (defaults : RerankerConfig) (config : PartialConfig) : RerankerConfig :=
  mkConfig (spread (backend defaults) (p_backend config))
           (spread (cohereApiKey defaults) (p_cohereApiKey config))
           (spread (openaiApiKey defaults) (p_openaiApiKey config))
           (spread (cohereModel defaults) (p_cohereModel config))
           (spread (topK defaults) (p_topK config))
           (spread (threshold defaults) (p_threshold config)).

(** *** The outside world *)

(** What [await fetch(...)] followed by [await response.json()] gives:
    the promise rejects (no network, a body that is not JSON), the
    response is not [ok] (with its [statusText] and the message of the
    error body, when it has one), or the decoded body. *)
Inductive Response (A : Type) : Type :=
| Rejected (msg : string)
| NotOk (statusText : string) (errorMessage : option string)
| Json (data : A).
Arguments Rejected {A} msg.
Arguments NotOk {A} statusText errorMessage.
Arguments Json {A} data.

(** An entry of [data.results] of the Cohere rerank API. *)
Record CohereResult : Type := mkCohere {
  co_index : nat;
  relevance_score : R
}.

(** A chat completion: [data.choices] ([None] when the body has no such
    field), each choice with an optional [message] with an optional
    [content]. *)
Record ChatMessage : Type := mkChatMessage { msg_content : option string }.
Record ChatChoice : Type := mkChoice { choice_message : option ChatMessage }.
Record ChatCompletion : Type := mkCompletion { choices : option (list ChatChoice) }.

(** [getApiKeys()] of "@/lib/api-keys" (not among the sources). *)
Record ApiKeys : Type := mkKeys {
  keys_cohereApiKey : option string;
  keys_openaiApiKey : option string
}.

Record Env : Type := mkEnv {
  (** [typeof window !== "undefined"] *)
  hasWindow : bool;
  getApiKeys : ApiKeys;
  (** POST https://api.cohere.com/v1/rerank with the key, [model],
      [query], [documents] and [top_n]. *)
  cohereRerank : string -> string -> string -> list string -> Z -> Response (list CohereResult);
  (** POST https://api.openai.com/v1/chat/completions; the first argument
      numbers the request among those of one [Promise.all], then the
      key, the query and the (truncated) document. *)
  openaiChat : nat -> string -> string -> string -> Response ChatCompletion;
  (** POST /api/rerank with the optional [x-openai-api-key] header, the
      query, the documents and [topK]; the body is [{ results }]. *)
  rerankApi : option string -> string -> list RerankDocument -> Z -> Response (list RerankResult)
}.

(** *** parseFloat *)

(** The value of [parseFloat]: NaN, an infinity, or a finite number. *)
Inductive ParsedNumber : Type :=
| PNaN
| PInfinity (negative : bool)
| PFinite (x : R).

Definition digitOf (c : ascii) : option Z :=
  let n := nat_of_ascii c in
  if (48 <=? n)%nat && (n <=? 57)%nat then Some (Z.of_nat (n - 48)) else None.

(** The longest prefix of decimal digits, most significant first, and
    the rest of the string. *)
Fixpoint takeDigits (s : string) : list Z * string :=
  match s with
  | EmptyString => ([], EmptyString)
  | String c s' =>
      match digitOf c with
      | Some d => let '(ds, rest) := takeDigits s' in (d :: ds, rest)
      | None => ([], s)
      end
  end.

Definition digitsValue (ds : list Z) : Z :=
  fold_left (fun acc d => (10 * acc + d)%Z) ds 0%Z.

(** An optional sign: whether it is a minus, and the rest. *)
Definition takeSign (s : string) : bool * string :=
  match s with
  | String "-" s' => (true, s')
  | String "+" s' => (false, s')
  | _ => (false, s)
  end.

(** The value of an [ExponentPart] at the head of [s]: [e] or [E], an
    optional sign and at least one digit; [0] when there is none. *)
Definition takeExponent (s : string) : Z :=
  match s with
  | String c s' =>
      if (c =? "e")%char || (c =? "E")%char then
        let '(neg, s1) := takeSign s' in
        match takeDigits s1 with
        | ([], _) => 0%Z
        | (ds, _) => if neg then (- digitsValue ds)%Z else digitsValue ds
        end
      else 0%Z
  | EmptyString => 0%Z
  end.

(** The decimal literal at the head of [s] as a mantissa and a power of
    ten: digits, an optional fraction, an optional exponent; [None] when
    there is no digit at all. *)
Definition takeDecimal (s : string) : option (Z * Z) :=
  let '(intDigits, r1) := takeDigits s in
  let '(fracDigits, r2) :=
    match r1 with
    | String "." r => takeDigits r
    | _ => ([], r1)
    end in
  match (intDigits ++ fracDigits)%list with
  | [] => None
  | ds => Some (digitsValue ds, (takeExponent r2 - Z.of_nat (length fracDigits))%Z)
  end.

(** [parseFloat(s)]: leading white space is skipped, then the longest
    prefix that is a [StrDecimalLiteral] is read; NaN when there is
    none. *)
Definition parseFloat (s : string) : ParsedNumber :=
  let '(neg, s1) := takeSign (trimStart s) in
  if String.prefix "Infinity" s1 then PInfinity neg
  else
    match takeDecimal s1 with
    | None => PNaN
    | Some (m, e) => PFinite (IZR (if neg then - m else m) * powerRZ 10 e)
    end.

(** *** The backends *)

(** [!!key]: a key that is present and not the empty string. *)
Definition truthyKey (k : option string) : option string :=
  match k with
  | Some s => if truthy s then Some s else None
  | None => None
  end.

Definition getCohereKey (env : Env) : option string :=
  if hasWindow env then keys_cohereApiKey (getApiKeys env) else None.

Definition getOpenAIKey (env : Env) : option string :=
  if hasWindow env then keys_openaiApiKey (getApiKeys env) else None.

(** [(doc.metadata as Record<string, unknown>)?.semanticScore] *)
Definition semanticScoreOf (metadata : option (gmap string JsValue)) : option JsValue :=
  match metadata with
  | Some m => m !! "semanticScore"
  | None => None
  end.

(** [typeof semanticScore === "number" ? semanticScore : (doc.originalScore ?? 0)]
    with [semanticScore = doc.metadata?.semanticScore]. *)
Definition displayScore (doc : RerankDocument) : R :=
  match semanticScoreOf (doc_metadata doc) with
  | Some (JNumber semanticScore) => semanticScore
  | _ => nullish (doc_originalScore doc) 0%R
  end.

(** The [documents.map((doc, index) => ...)] that [rerank] returns for
    the backend "none" and, written out a second time, in its [catch]. *)
Definition passThrough (documents : list RerankDocument) : list RerankResult :=
  imap (fun index doc =>
          mkRes (doc_id doc) (doc_text doc) (displayScore doc) (doc_originalScore doc)
                (index + 1) (doc_metadata doc))
       documents.

(** [results.map(f)] for a callback that may throw. *)
Fixpoint mapThrow {A B} (f : nat -> A -> result B) (index : nat) (l : list A)
    : result (list B) :=
  match l with
  | [] => Ok []
  | x :: l' =>
      bind (f index x) (fun y => bind (mapThrow f (S index) l') (fun ys => Ok (y :: ys)))
  end.

Definition rerankWithCohere (env : Env) (query : string) (documents : list RerankDocument)
    (config : RerankerConfig) : result (list RerankResult) :=
  match truthyKey (cohereApiKey config ∪ getCohereKey env) with
  | None =>
      Throw "Cohere API key is required for reranking. Add COHERE_API_KEY to your settings."
  | Some apiKey =>
      match cohereRerank env apiKey (nullish (cohereModel config) "rerank-v3.5") query
                         (map doc_text documents) (nullish (topK config) 5%Z) with
      | Rejected e => Throw e
      | NotOk statusText errorMessage =>
          Throw ("Cohere rerank failed: "
                   ++ nullish (truthyKey errorMessage) statusText)
      | Json data_results =>
          bind (mapThrow (fun rank result =>
                            match documents !! co_index result with
                            | None => Throw "TypeError: doc is undefined"
                            | Some doc =>
                                Ok (mkRes (doc_id doc) (doc_text doc) (relevance_score result)
                                          (doc_originalScore doc) (rank + 1) (doc_metadata doc))
                            end) 0 data_results)
               (fun results =>
                  Ok (filter (fun r => (nullish (threshold config) 0 <= relevanceScore r)%R)
                             results))
      end
  end.

(** The score [scoreWithGPT] makes of the [content] of the reply, after
    [.trim() ?? "0"]: [isNaN(score) ? 0 : Math.max(0, Math.min(1, score))]. *)
Definition scoreOfContent (scoreStr : string) : R :=
  match parseFloat scoreStr with
  | PNaN => 0
  | PInfinity negative => if negative then 0 else 1
  | PFinite score => Rmax 0 (Rmin 1 score)
  end.

(** [data.choices[0]?.message?.content] *)
Definition firstContent (cs : list ChatChoice) : option string :=
  match cs with
  | [] => None
  | c :: _ =>
      match choice_message c with
      | Some m => msg_content m
      | None => None
      end
  end.

Definition scoreWithGPT (env : Env) (request : nat) (query document apiKey : string)
    : result R :=
  let maxDocLength := 2000%nat in
  let truncatedDoc :=
    if (maxDocLength <? String.length document)%nat
    then String.substring 0 maxDocLength document ++ "..."
    else document in
  match openaiChat env request apiKey query truncatedDoc with
  | Rejected e => Throw e
  | NotOk statusText _ => Throw ("OpenAI API error: " ++ statusText)
  | Json data =>
      match choices data with
      | None => Throw "TypeError: data.choices is undefined"
      | Some cs =>
          let scoreStr :=
            match firstContent cs with
            | Some c => trim c
            | None => "0"
            end in
          Ok (scoreOfContent scoreStr)
      end
  end.

(** An element of [scoredDocs]. *)
Record Scored : Type := mkScored {
  sc_doc : RerankDocument;
  sc_score : R;
  sc_index : nat
}.

(** The [documents.map(async (doc, index) => ...)] of [rerankWithOpenAI],
    all promises awaited. *)
Definition scoreAll (env : Env) (query apiKey : string) (documents : list RerankDocument)
    : list Scored :=
  imap (fun index doc =>
          match scoreWithGPT env index query (doc_text doc) apiKey with
          | Ok score => mkScored doc score index
          | Throw _ => mkScored doc (nullish (doc_originalScore doc) 0%R) index
          end)
       documents.

Definition rerankWithOpenAI (env : Env) (query : string) (documents : list RerankDocument)
    (config : RerankerConfig) : result (list RerankResult) :=
  match truthyKey (openaiApiKey config ∪ getOpenAIKey env) with
  | None => Throw "OpenAI API key is required for reranking."
  | Some apiKey =>
      let scoredDocs := scoreAll env query apiKey documents in
      let sorted :=
        slice0 (sort (fun a b => (sc_score b - sc_score a)%R) scoredDocs)
               (nullish (topK config) 5%Z) in
      Ok (imap (fun rank item =>
                  mkRes (doc_id (sc_doc item)) (doc_text (sc_doc item)) (sc_score item)
                        (doc_originalScore (sc_doc item)) (rank + 1)
                        (doc_metadata (sc_doc item)))
               (filter (fun item => (nullish (threshold config) 0 <= sc_score item)%R) sorted))
  end.

Definition rerankWithAPI (env : Env) (query : string) (documents : list RerankDocument)
    (config : RerankerConfig) : result (list RerankResult) :=
  let keys := if hasWindow env then getApiKeys env else mkKeys None None in
  match rerankApi env (truthyKey (keys_openaiApiKey keys)) query documents
                  (nullish (topK config) 10%Z) with
  | Rejected e => Throw e
  | NotOk statusText error =>
      Throw ("Rerank API failed: " ++ nullish (truthyKey error) statusText)
  | Json data_results => Ok data_results
  end.

(** [finalConfig.backend === tag] *)
Definition is_backend (finalConfig : RerankerConfig) (tag : string) : bool :=
  match backend finalConfig with
  | Some b => String.eqb b tag
  | None => false
  end.

(** [`${finalConfig.backend}`] *)
Definition backendText (finalConfig : RerankerConfig) : string :=
  nullish (backend finalConfig) "undefined".

(** The [switch (finalConfig.backend)] inside the [try] of [rerank]. *)
Definition dispatch (env : Env) (query : string) (documents : list RerankDocument)
    (finalConfig : RerankerConfig) : result (list RerankResult) :=
  if is_backend finalConfig "cohere" then rerankWithCohere env query documents finalConfig
  else if is_backend finalConfig "openai" then rerankWithOpenAI env query documents finalConfig
  else if is_backend finalConfig "api" then rerankWithAPI env query documents finalConfig
  else Throw ("Unknown reranker backend: " ++ backendText finalConfig).

Definition rerank (env : Env) (query : string) (documents : list RerankDocument)
    (config : PartialConfig) : result (list RerankResult) :=
  let finalConfig := mergeConfig DEFAULT_CONFIG config in
  match documents with
  | [] => Ok []
  | _ =>
      if is_backend finalConfig "none" then Ok (passThrough documents)
      else try_catch (dispatch env query documents finalConfig)
                     (fun error => Ok (passThrough documents))
  end.

Record Availability : Type := mkAvail {
  av_cohere : bool;
  av_openai : bool;
  av_api : bool
}.

Definition isSome {A} (o : option A) : bool :=
  match o with Some _ => true | None => false end.

Definition isRerankingAvailable (env : Env) : Availability :=
  let keys := if hasWindow env then getApiKeys env else mkKeys None None in
  mkAvail (isSome (truthyKey (keys_cohereApiKey keys)))
          (isSome (truthyKey (keys_openaiApiKey keys)))
          (hasWindow env).

Definition getRecommendedReranker (env : Env) : string :=
  let available := isRerankingAvailable env in
  if av_cohere available then "cohere"
  else if av_api available then "api"
  else if av_openai available then "openai"
  else "none".

End Reranker.

(* ===================================================================== *)
(** ** Large-document operations, second unit of                        *)
(** ** src/lib/use-client-tools.ts                                       *)
(* ===================================================================== *)

Module LargeDocuments.
Import JS Reranker.

Global Instance Rge_decision (x y : R) : Decision (x >= y)%R := Rge_dec x y.
Global Instance Req_decision : EqDecision R := Req_dec_T.

(** The fields of the records of "./types" (not among the sources) that
    the search reads.  [chunkIndex] is a number the search only copies.
    [embedding] is the vector the type declares; the search reads it
    unchecked, so a chunk stored without one (for which
    [cosineSimilarity] throws) is outside this record. *)
Record LargeDocumentChunk : Type := mkChunk {
  id : string;
  documentId : string;
  chunkIndex : R;
  chunkText : string;
  headingPath : string;
  embedding : list R
}.

Record LargeDocumentMetadata : Type := mkDocument {
  document_id : string;
  filename : string
}.

(** A result of the lexical scorer of "./lexical-search" (not among the
    sources). *)
Record LargeDocLexicalResult : Type := mkLexical {
  chunk : LargeDocumentChunk;
  lexicalScore : R;
  matchedTerms : list string
}.

(** A search result.  The fields that the reranked path copies out of
    the metadata of a [RerankResult], by an unchecked cast, are kept as
    [JsValue]s; an optional field that is left out is [None]. *)
Record LargeDocumentSearchResult : Type := mkResult {
  r_documentId : JsValue;
  r_filename : string;
  r_chunkText : string;
  r_headingPath : JsValue;
  score : R;
  r_chunkIndex : JsValue;
  reranked : option bool;
  r_matchedTerms : option JsValue;
  r_queryType : option string
}.

Record LargeDocumentSearchOptions : Type := mkOptions {
  o_topK : option Z;
  o_threshold : option R;
  o_rerank : option bool;
  o_rerankerBackend : option string;
  o_retrieveK : option Z;
  o_includeBreakdown : option bool;
  o_rrfK : option R
}.

(** The second parameter of the search functions: a number (the legacy
    signature) or an options object. *)
Inductive TopKOrOptions : Type :=
| TopK (topK : Z)
| Options (options : LargeDocumentSearchOptions).

(** The outside world of a search: the reranker's, the chunk store, the
    embedding service, and the two functions of "./lexical-search". *)
Record Env : Type := mkEnv {
  rerankerEnv : Reranker.Env;
  (** [db.getAll("chunks")] and [db.getAll("documents")], after
      [getLargeDocumentsDb()] *)
  getAllChunks : result (list LargeDocumentChunk);
  getAllDocuments : result (list LargeDocumentMetadata);
  (** [db.getAllFromIndex("chunks", "by-document", documentId)] and
      [db.get("documents", documentId)] *)
  getChunksByDocument : string -> result (list LargeDocumentChunk);
  getDocument : string -> result (option LargeDocumentMetadata);
  embedQuery : string -> result (list R);
  largeDocLexicalSearch : string -> list LargeDocumentChunk -> list LargeDocLexicalResult;
  detectQueryType : string -> string
}.

(** [cosineSimilarity(a, b)].  The loop runs over the indices of [a];
    an index beyond the end of [b] reads as 0 here (in JavaScript it
    makes the result NaN). *)
Definition cosineSimilarity (a b : list R) : R :=
  let '(dot, normA, normB) :=
    fold_left
      (fun '(dot, normA, normB) i =>
         ((dot + nth i a 0 * nth i b 0)%R,
          (normA + nth i a 0 * nth i a 0)%R,
          (normB + nth i b 0 * nth i b 0)%R))
      (seq 0 (length a)) (0%R, 0%R, 0%R) in
  let denominator := (sqrt normA * sqrt normB)%R in
  if decide (denominator = 0%R) then 0%R else (dot / denominator)%R.

(** [computeRRFScore(semanticRank, lexicalRank, k = 60)] *)
Definition computeRRFScore (semanticRank lexicalRank : option nat) (k : option R) : R :=
  let k := nullish k 60%R in
  let score := 0%R in
  let score :=
    match semanticRank with
    | Some semanticRank => (score + 1 / (k + INR semanticRank))%R
    | None => score
    end in
  let score :=
    match lexicalRank with
    | Some lexicalRank => (score + 1 / (k + INR lexicalRank))%R
    | None => score
    end in
  score.

(** [items.forEach((item, index) => map.set(key(item), value(item, index)))]
    on a map that starts as [m], the first index being [index]. *)
Fixpoint setEach {A V} (key : A -> string) (value : A -> nat -> V) (items : list A)
    (index : nat) (m : gmap string V) : gmap string V :=
  match items with
  | [] => m
  | item :: rest => setEach key value rest (S index) (<[key item := value item index]> m)
  end.

(** [lexicalRanks] and [lexicalScoresMap] *)
Definition lexicalRanksOf (lexicalResults : list LargeDocLexicalResult) : gmap string nat :=
  setEach (fun result => id (chunk result)) (fun _ index => (index + 1)%nat) lexicalResults 0 ∅.

Definition lexicalScoresMapOf (lexicalResults : list LargeDocLexicalResult)
    : gmap string LargeDocLexicalResult :=
  setEach (fun result => id (chunk result)) (fun result _ => result) lexicalResults 0 ∅.

(** An element of [semanticScored]. *)
Record SemanticScored : Type := mkSemantic {
  s_chunk : LargeDocumentChunk;
  s_score : R
}.

(** [semanticScored], after [semanticScored.sort((a, b) => b.score - a.score)] *)
Definition semanticScoredOf (queryEmbedding : list R) (allChunks : list LargeDocumentChunk)
    : list SemanticScored :=
  sort (fun a b => (s_score b - s_score a)%R)
       (map (fun chunk => mkSemantic chunk (cosineSimilarity queryEmbedding (embedding chunk)))
            allChunks).

(** [semanticRanks] and [rawSemanticScores] *)
Definition semanticRanksOf (semanticScored : list SemanticScored) : gmap string nat :=
  setEach (fun item => id (s_chunk item)) (fun _ index => (index + 1)%nat) semanticScored 0 ∅.

Definition rawSemanticScoresOf (semanticScored : list SemanticScored) : gmap string R :=
  setEach (fun item => id (s_chunk item)) (fun item _ => s_score item) semanticScored 0 ∅.

(** An element of [combinedResults]. *)
Record Combined : Type := mkCombined {
  c_chunk : LargeDocumentChunk;
  rrfScore : R;
  semanticScore : R;
  c_lexicalScore : R;
  c_matchedTerms : list string
}.

(** Body of the loop [for (const chunk of allChunks)] that fills
    [combinedResults]. *)
Definition combineChunk (semanticRanks lexicalRanks : gmap string nat)
    (rawSemanticScores : gmap string R)
    (lexicalScoresMap : gmap string LargeDocLexicalResult)
    (rrfK : R) (chunk : LargeDocumentChunk) : Combined :=
  let id := id chunk in
  let semanticRank := semanticRanks !! id in
  let lexicalRank := lexicalRanks !! id in
  let semanticScore := nullish (rawSemanticScores !! id) 0%R in
  let lexicalResult := lexicalScoresMap !! id in
  let lexicalScore := nullish (lexicalScore <$> lexicalResult) 0%R in
  let matchedTerms := nullish (matchedTerms <$> lexicalResult) [] in
  let rrfScore := computeRRFScore semanticRank lexicalRank (Some rrfK) in
  mkCombined chunk rrfScore semanticScore lexicalScore matchedTerms.

(** [combinedResults] before it is sorted. *)
Definition combinedResultsOf (allChunks : list LargeDocumentChunk)
    (lexicalResults : list LargeDocLexicalResult) (queryEmbedding : list R) (rrfK : R)
    : list Combined :=
  let semanticScored := semanticScoredOf queryEmbedding allChunks in
  map (combineChunk (semanticRanksOf semanticScored) (lexicalRanksOf lexicalResults)
                    (rawSemanticScoresOf semanticScored) (lexicalScoresMapOf lexicalResults)
                    rrfK)
      allChunks.

(** [combinedResults] after [combinedResults.sort((a, b) => b.rrfScore - a.rrfScore)] *)
Definition fuse (allChunks : list LargeDocumentChunk)
    (lexicalResults : list LargeDocLexicalResult) (queryEmbedding : list R) (rrfK : R)
    : list Combined :=
  sort (fun a b => (rrfScore b - rrfScore a)%R)
       (combinedResultsOf allChunks lexicalResults queryEmbedding rrfK).

(** The options once the legacy signature is resolved:
    [typeof topKOrOptions === "number" ? { topK: topKOrOptions, threshold } : topKOrOptions],
    the parameters defaulting to [10] and [0.3]. *)
Definition resolveOptions (topKOrOptions : option TopKOrOptions) (threshold : option R)
    : LargeDocumentSearchOptions :=
  match nullish topKOrOptions (TopK 10) with
  | TopK topK =>
      mkOptions (Some topK) (Some (nullish threshold (3 / 10)%R)) None None None None None
  | Options options => options
  end.

(** The destructuring defaults. *)
Definition topKOf (o : LargeDocumentSearchOptions) : Z := nullish (o_topK o) 10%Z.
Definition minThresholdOf (o : LargeDocumentSearchOptions) : R :=
  nullish (o_threshold o) (3 / 10)%R.
Definition retrieveKOf (o : LargeDocumentSearchOptions) : Z := nullish (o_retrieveK o) 50%Z.
Definition includeBreakdownOf (o : LargeDocumentSearchOptions) : bool :=
  nullish (o_includeBreakdown o) false.
Definition rrfKOf (o : LargeDocumentSearchOptions) : R := nullish (o_rrfK o) 60%R.

(** [doc?.filename || "Unknown Document"] *)
Definition filenameOr (doc : option LargeDocumentMetadata) : string :=
  match doc with
  | Some d => if truthy (filename d) then filename d else "Unknown Document"
  | None => "Unknown Document"
  end.

(** [docMap], and [docMap.get(key)] for a key that need not be a string. *)
Definition docMapOf (allDocs : list LargeDocumentMetadata) : gmap string LargeDocumentMetadata :=
  setEach document_id (fun doc _ => doc) allDocs 0 ∅.

Definition docMapGet (docMap : gmap string LargeDocumentMetadata) (key : JsValue)
    : option LargeDocumentMetadata :=
  match key with
  | JString k => docMap !! k
  | _ => None
  end.

(** [includeBreakdown ? v : undefined] *)
Definition breakdown {A} (includeBreakdown : bool) (v : A) : option A :=
  if includeBreakdown then Some v else None.

(** [shouldRerank = enableRerank ?? (getRecommendedReranker() !== "none")] *)
Definition shouldRerankOf (env : Env) (o : LargeDocumentSearchOptions) : bool :=
  nullish (o_rerank o) (negb (String.eqb (getRecommendedReranker (rerankerEnv env)) "none")).

(** [filtered]: the first [candidateCount] fused results whose semantic
    score reaches the threshold. *)
Definition filteredOf (env : Env) (o : LargeDocumentSearchOptions) (combinedResults : list Combined)
    : list Combined :=
  let candidateCount := if shouldRerankOf env o then retrieveKOf o else topKOf o in
  let candidates := slice0 combinedResults candidateCount in
  filter (fun r => (semanticScore r >= minThresholdOf o)%R) candidates.

(** [meta.field] for [meta = r.metadata]; a field that is missing reads
    as [undefined]. *)
Definition field (meta : gmap string JsValue) (name : string) : JsValue :=
  nullish (meta !! name) JUndefined.

(** [Math.round(x * 100) / 100] *)
Definition round2 (x : R) : R := (round (x * 100) / 100)%R.

(** *** searchLargeDocuments *)

(** The [RerankDocument] made of a filtered result; [withDocumentId]
    tells whether the metadata carries [documentId] (it does in
    [searchLargeDocuments], not in [searchLargeDocument]). *)
Definition rerankDocOf (withDocumentId : bool) (r : Combined) : RerankDocument :=
  let base : gmap string JsValue :=
    {[ "chunkIndex" := JNumber (chunkIndex (c_chunk r));
       "headingPath" := JString (headingPath (c_chunk r));
       "semanticScore" := JNumber (semanticScore r);
       "lexicalScore" := JNumber (c_lexicalScore r);
       "matchedTerms" := JStrings (c_matchedTerms r) ]} in
  mkDoc (id (c_chunk r)) (chunkText (c_chunk r)) (Some (rrfScore r))
        (Some (if withDocumentId
               then <["documentId" := JString (documentId (c_chunk r))]> base
               else base)).

(** The callback of [reranked.map(...)]; reading a field of a missing
    [metadata] throws.  [documentIdOf] and [docOf] give the [documentId]
    and the document of the result from its metadata. *)
Definition rerankedResult (documentIdOf : gmap string JsValue -> JsValue)
    (docOf : gmap string JsValue -> option LargeDocumentMetadata)
    (includeBreakdown : bool) (queryType : string) (r : RerankResult)
    : result LargeDocumentSearchResult :=
  match res_metadata r with
  | None => Throw "TypeError: meta is undefined"
  | Some meta =>
      Ok (mkResult (documentIdOf meta) (filenameOr (docOf meta)) (res_text r)
                   (field meta "headingPath")
                   (round2 (relevanceScore r))
                   (field meta "chunkIndex")
                   (Some true)
                   (breakdown includeBreakdown (field meta "matchedTerms"))
                   (breakdown includeBreakdown queryType))
  end.

(** The callback of the final [map] over the fused results. *)
Definition fusedResult (documentIdOf : LargeDocumentChunk -> string)
    (docOf : LargeDocumentChunk -> option LargeDocumentMetadata)
    (includeBreakdown : bool) (queryType : string) (r : Combined)
    : LargeDocumentSearchResult :=
  mkResult (JString (documentIdOf (c_chunk r))) (filenameOr (docOf (c_chunk r)))
           (chunkText (c_chunk r)) (JString (headingPath (c_chunk r)))
           (round2 (semanticScore r))
           (JNumber (chunkIndex (c_chunk r)))
           (Some false)
           (breakdown includeBreakdown (JStrings (c_matchedTerms r)))
           (breakdown includeBreakdown queryType).

(** The callback of the [map] of the lexical-only fallback. *)
Definition lexicalResult (documentIdOf : LargeDocumentChunk -> string)
    (docOf : LargeDocumentChunk -> option LargeDocumentMetadata)
    (includeBreakdown : bool) (queryType : string) (r : LargeDocLexicalResult)
    : LargeDocumentSearchResult :=
  mkResult (JString (documentIdOf (chunk r))) (filenameOr (docOf (chunk r)))
           (chunkText (chunk r)) (JString (headingPath (chunk r)))
           (lexicalScore r)
           (JNumber (chunkIndex (chunk r)))
           None
           (breakdown includeBreakdown (JStrings (matchedTerms r)))
           (breakdown includeBreakdown queryType).

(** Everything after the query is embedded: fusion, candidates,
    threshold, reranking, results.  The two search functions differ in
    the four accessors only. *)
Definition searchEmbedded (env : Env) (query : string) (o : LargeDocumentSearchOptions)
    (chunks : list LargeDocumentChunk) (lexicalResults : list LargeDocLexicalResult)
    (queryEmbedding : list R) (queryType : string) (withDocumentId : bool)
    (metaDocumentId : gmap string JsValue -> JsValue)
    (metaDoc : gmap string JsValue -> option LargeDocumentMetadata)
    (chunkDocumentId : LargeDocumentChunk -> string)
    (chunkDoc : LargeDocumentChunk -> option LargeDocumentMetadata)
    : result (list LargeDocumentSearchResult) :=
  let combinedResults := fuse chunks lexicalResults queryEmbedding (rrfKOf o) in
  let shouldRerank := shouldRerankOf env o in
  let filtered := filteredOf env o combinedResults in
  match filtered with
  | [] => Ok []
  | _ =>
      let finalResults :=
        map (fusedResult chunkDocumentId chunkDoc (includeBreakdownOf o) queryType)
            (slice0 filtered (topKOf o)) in
      if shouldRerank && (1 <? length filtered)%nat then
        let rerankDocs := map (rerankDocOf withDocumentId) filtered in
        try_catch
          (bind (rerank (rerankerEnv env) query rerankDocs
                        (mkPartial
                           (Given (nullish (o_rerankerBackend o)
                                           (getRecommendedReranker (rerankerEnv env))))
                           Absent Absent Absent (Given (topKOf o)) Absent))
                (fun reranked =>
                   mapThrow (fun _ r => rerankedResult metaDocumentId metaDoc
                                          (includeBreakdownOf o) queryType r)
                            0 reranked))
          (fun error => Ok finalResults)
      else Ok finalResults
  end.

Definition searchLargeDocuments (env : Env) (query : string)
    (topKOrOptions : option TopKOrOptions) (threshold : option R)
    : result (list LargeDocumentSearchResult) :=
  let options := resolveOptions topKOrOptions threshold in
  bind (getAllChunks env) (fun allChunks =>
  match allChunks with
  | [] => Ok []
  | _ =>
      bind (getAllDocuments env) (fun allDocs =>
      let docMap := docMapOf allDocs in
      let queryType := detectQueryType env query in
      let lexicalResults := largeDocLexicalSearch env query allChunks in
      match embedQuery env query with
      | Throw error =>
          Ok (map (lexicalResult documentId (fun c => docMap !! documentId c)
                                 (includeBreakdownOf options) queryType)
                  (slice0 lexicalResults (topKOf options)))
      | Ok queryEmbedding =>
          searchEmbedded env query options allChunks lexicalResults queryEmbedding queryType
            true
            (fun meta => field meta "documentId")
            (fun meta => docMapGet docMap (field meta "documentId"))
            documentId
            (fun c => docMap !! documentId c)
      end)
  end).

(** *** searchLargeDocument *)

Definition searchLargeDocument (env : Env) (documentId query : string)
    (topKOrOptions : option TopKOrOptions) (threshold : option R)
    : result (list LargeDocumentSearchResult) :=
  let options := resolveOptions topKOrOptions threshold in
  bind (getChunksByDocument env documentId) (fun chunks =>
  match chunks with
  | [] => Ok []
  | _ =>
      bind (getDocument env documentId) (fun doc =>
      let queryType := detectQueryType env query in
      let lexicalResults := largeDocLexicalSearch env query chunks in
      match embedQuery env query with
      | Throw error =>
          Ok (map (lexicalResult (fun _ => documentId) (fun _ => doc)
                                 (includeBreakdownOf options) queryType)
                  (slice0 lexicalResults (topKOf options)))
      | Ok queryEmbedding =>
          searchEmbedded env query options chunks lexicalResults queryEmbedding queryType
            false
            (fun _ => JString documentId)
            (fun _ => doc)
            (fun _ => documentId)
            (fun _ => doc)
      end)
  end).

End LargeDocuments.

(* ===================================================================== *)
(** ** cosineSimilarity in double-precision arithmetic                   *)
(* ===================================================================== *)

(** The same function on IEEE 754 binary64 numbers, the numbers
    JavaScript computes with: every [+], [*], [/] and [Math.sqrt] rounds
    to the nearest double, and an index beyond the end of [b] reads
    [undefined], which makes the products NaN. *)
Module Binary64.

Definition cosineSimilarity (a b : list float) : float :=
  let '(dot, normA, normB) :=
    fold_left
      (fun '(dot, normA, normB) i =>
         ((dot + nth i a nan * nth i b nan)%float,
          (normA + nth i a nan * nth i a nan)%float,
          (normB + nth i b nan * nth i b nan)%float))
      (seq 0 (length a)) (0%float, 0%float, 0%float) in
  let denominator := (PrimFloat.sqrt normA * PrimFloat.sqrt normB)%float in
  if PrimFloat.eqb denominator 0%float then 0%float else (dot / denominator)%float.

End Binary64.

(* ===================================================================== *)
(** ** Properties the statements below are phrased with                  *)
(* ===================================================================== *)

Module Props.
Import JS ChatChunker Reranker LargeDocuments.

(** No character of [s] is white space. *)
Fixpoint unbroken (s : string) : bool :=
  match s with
  | EmptyString => true
  | String c s' => negb (JS.is_whitespace c) && unbroken s'
  end.

(** What scenario C expects of the chunks of a message with the given
    text: several chunks, each within the budget of [maxTokens]
    estimated tokens (four characters a token), that give the text back
    once the role markers are removed. *)
Definition splits_within_budget (cs : list ChatChunk) (original : string) (maxTokens : nat)
    : Prop :=
  (1 < length cs)%nat
  /\ Forall (fun c => (estimateTokens (text c) <= maxTokens)%nat
                      /\ (String.length (text c) <= 4 * maxTokens)%nat) cs
  /\ String.concat "" (map (fun c => stripRolePrefix (text c)) cs) = original.

(** The semantic score a document carries in its metadata, when it is
    a number. *)
Definition numericSemanticScore (doc : RerankDocument) : option R :=
  match doc_metadata doc with
  | Some m =>
      match m !! "semanticScore" with
      | Some (JNumber x) => Some x
      | _ => None
      end
  | None => None
  end.

(** [results] are the [documents] passed through: all of them, in input
    order, ranked by position (from 1) and scored by the numeric
    semantic score of the metadata, else by the original score, else 0. *)
Definition passes_through (documents : list RerankDocument) (results : list RerankResult)
    : Prop :=
  length results = length documents
  /\ forall (i : nat) (doc : RerankDocument),
      documents !! i = Some doc ->
      exists r, results !! i = Some r
        /\ res_id r = doc_id doc
        /\ res_text r = doc_text doc
        /\ res_originalScore r = doc_originalScore doc
        /\ res_metadata r = doc_metadata doc
        /\ rank r = S i
        /\ relevanceScore r =
             match numericSemanticScore doc, doc_originalScore doc with
             | Some semanticScore, _ => semanticScore
             | None, Some originalScore => originalScore
             | None, None => 0%R
             end.

(** A reply that does not parse as a number between 0 and 1. *)
Definition not_a_score (content : string) : Prop :=
  forall x, parseFloat content = PFinite x -> ~ (0 <= x <= 1)%R.

(** The chat completion whose first choice has the given content. *)
Definition reply (content : string) : ChatCompletion :=
  mkCompletion (Some [mkChoice (Some (mkChatMessage (Some content)))]).

(** A world without keys in which every chat request is answered with
    [reply (answer request)] and the other services are down. *)
Definition scriptedEnv (answer : nat -> string) : Reranker.Env :=
  Reranker.mkEnv false (mkKeys None None)
        (fun _ _ _ _ _ => Rejected "offline")
        (fun request _ _ _ => Json (reply (answer request)))
        (fun _ _ _ _ => Rejected "offline").

(** Three candidates: one with a numeric semantic score in its metadata,
    one with an original score only, one with neither. *)
Definition threeCandidates : list RerankDocument :=
  [ mkDoc "a" "alpha" (Some (1 / 61)%R) (Some {[ "semanticScore" := JNumber (8 / 10)%R ]});
    mkDoc "b" "beta" (Some (1 / 62)%R) (Some {[ "semanticScore" := JString "high" ]});
    mkDoc "c" "gamma" None None ].

(** The dot product of two vectors and the Euclidean norm. *)
Fixpoint dot (a b : list R) : R :=
  match a, b with
  | x :: a', y :: b' => (x * y + dot a' b')%R
  | _, _ => 0%R
  end.

Definition norm (a : list R) : R := sqrt (dot a a).

(** On doubles: the sum of the products of two vectors, every product
    and every sum rounded, added from the left as a loop does. *)
Definition sumOfProducts (a b : list float) : float :=
  fold_left (fun acc xy => (acc + fst xy * snd xy)%float) (combine a b) 0%float.

(** The comparator [(a, b) => key(b) - key(a)]: descending by [key]. *)
Definition descending {A} (key : A -> R) (a b : A) : R := (key b - key a)%R.



(** A small corpus: one document of two chunks. *)
Definition sieve : LargeDocumentChunk :=
  mkChunk "c1" "d1" 0 "The sieve of Eratosthenes finds primes" "Primes" [3; 4]%R.

Definition bubble : LargeDocumentChunk :=
  mkChunk "c2" "d1" 1 "Bubble sort is a sorting algorithm" "Sorting" [4; 3]%R.

(** A chunk whose embedding points away from the query [[3; 4]]. *)
Definition opposite : LargeDocumentChunk :=
  mkChunk "c3" "d1" 2 "Unrelated" "Misc" [-3; -4]%R.

Definition sampleChunks : list LargeDocumentChunk := [sieve; bubble].

Definition sampleDocument : LargeDocumentMetadata := mkDocument "d1" "algorithms.md".

(** A lexical scorer that finds the word "algorithm" in [bubble] for
    every query that is not empty. *)
Definition sampleLexicalSearch (query : string) (chunks : list LargeDocumentChunk)
    : list LargeDocLexicalResult :=
  omap (fun c =>
          if String.eqb (id c) "c2" && negb (String.eqb query "")
          then Some (mkLexical c (5 / 2)%R ["algorithm"])
          else None)
       chunks.

(** A world that stores [chunks], embeds queries as [embed] says, and
    has no reranking credential. *)
Definition sampleEnv (chunks : list LargeDocumentChunk) (embed : string -> result (list R))
    : LargeDocuments.Env :=
  LargeDocuments.mkEnv
    (scriptedEnv (fun _ => "0.5"))
    (Ok chunks)
    (Ok [sampleDocument])
    (fun documentId => Ok (filter (fun c => LargeDocuments.documentId c = documentId) chunks))
    (fun documentId => Ok (if String.eqb documentId "d1" then Some sampleDocument else None))
    embed
    sampleLexicalSearch
    (fun _ => "mixed").

(** The number of results a call asks for: the number passed in place
    of the options, else the [topK] of the options, and 10 when the
    call gives neither. *)
Definition askedTopK (topKOrOptions : option TopKOrOptions) : Z :=
  match topKOrOptions with
  | Some (TopK topK) => topK
  | Some (Options options) =>
      match o_topK options with
      | Some topK => topK
      | None => 10%Z
      end
  | None => 10%Z
  end.

(** One document of three chunks. *)
Definition threeChunks : list LargeDocumentChunk := [sieve; bubble; opposite].

(** A lexical scorer that finds every chunk it is given and ranks the
    last one first: the scores are the number of chunks, then one less,
    down to 1. *)
Definition rankedLexicalSearch (query : string) (chunks : list LargeDocumentChunk)
    : list LargeDocLexicalResult :=
  imap (fun i c => mkLexical c (IZR (Z.of_nat (length chunks - i))) ["algorithm"])
       (rev chunks).

(** A world that stores [chunks] and ranks them with
    [rankedLexicalSearch]; no query can be embedded. *)
Definition rankedEnv (chunks : list LargeDocumentChunk) : LargeDocuments.Env :=
  LargeDocuments.mkEnv
    (scriptedEnv (fun _ => "0.5"))
    (Ok chunks)
    (Ok [sampleDocument])
    (fun documentId => Ok (filter (fun c => LargeDocuments.documentId c = documentId) chunks))
    (fun documentId => Ok (if String.eqb documentId "d1" then Some sampleDocument else None))
    (fun _ => Throw "503")
    rankedLexicalSearch
    (fun _ => "mixed").

(** The options of a search with reranking forced through the backend
    "none" and one result asked for. *)
Definition oneResultReranked : LargeDocumentSearchOptions :=
  mkOptions (Some 1%Z) None (Some true) (Some "none") None None None.

(** The options of a search without reranking that accepts every
    cosine similarity. *)
Definition acceptAll : LargeDocumentSearchOptions :=
  mkOptions None (Some (-1)%R) (Some false) None None None None.

(** What the lexical-only fallback keeps of a lexical result. *)
Definition same_hit (l : LargeDocLexicalResult) (r : LargeDocumentSearchResult) : Prop :=
  score r = lexicalScore l
  /\ r_chunkText r = chunkText (chunk l)
  /\ r_headingPath r = JString (headingPath (chunk l))
  /\ r_chunkIndex r = JNumber (chunkIndex (chunk l))
  /\ reranked r = None.

End Props.

(* ===================================================================== *)
(** ** src/lib/storage/chat-chunker.ts: the conversation hash            *)
(* ===================================================================== *)

Module ConversationHash.
Import JS ChatChunker.

(** ToInt32: the 32-bit two's-complement integer a bit operator sees. *)
Definition toInt32 (z : Z) : Z := ((z + 2 ^ 31) mod 2 ^ 32 - 2 ^ 31)%Z.

(** [x << 5] *)
Definition shiftLeft5 (x : Z) : Z := toInt32 (Z.shiftl (toInt32 x) 5).

(** [x & y] *)
Definition bitAnd (x y : Z) : Z := Z.land (toInt32 x) (toInt32 y).

(** [s.charCodeAt(i)] for every [i], in order. *)
Fixpoint charCodes (s : string) : list Z :=
  match s with
  | EmptyString => []
  | String c s' => Z.of_nat (nat_of_ascii c) :: charCodes s'
  end.

(** The string the hash is taken of: the included messages as
    [`${m.role}:${extractTextFromMessage(m)}`], joined by ["|"]. *)
Definition relevantContent (messages : list UIMessage) : string :=
  join "|" (map (fun m => role m ++ ":" ++ extractTextFromMessage m)
                (List.filter shouldIncludeMessage messages)).

(** Body of the loop: [hash = ((hash << 5) - hash) + char; hash = hash & hash]. *)
Definition hashStep (hash char : Z) : Z :=
  let hash := (shiftLeft5 hash - hash + char)%Z in
  bitAnd hash hash.

(** The value of [hash] after the loop. *)
Definition hashValue (relevantContent : string) : Z :=
  fold_left hashStep (charCodes relevantContent) 0%Z.

(** [n.toString(16)] for an integer: lower-case digits, a minus sign
    for a negative number. *)
Definition toString16 (n : Z) : string :=
  HexadecimalString.NilZero.string_of_int (Z.to_hex_int n).

Definition computeConversationContentHash (messages : list UIMessage) : string :=
  toString16 (hashValue (relevantContent messages)).

End ConversationHash.
(* ===================================================================== *)
(** ** src/app/api/rerank/route.ts                                       *)
(* ===================================================================== *)

Module RerankRoute.
Import JS Reranker.

(** The body of the request as [req.json()] decodes it; a field that is
    missing is [None]. *)
Record RerankRequest : Type := mkRequest {
  req_query : option string;
  req_documents : option (list RerankDocument);
  req_topK : option Z
}.

(** What the handler returns: [NextResponse.json({ error }, { status })]
    or [NextResponse.json({ results })], of status 200. *)
Inductive NextResponse : Type :=
| JsonError (error : string) (status : nat)
| JsonResults (results : list RerankResult).

(** The world of the server: [getAuthContext] and [resolveApiKey] of
    "@/lib/auth-helper" (not among the sources), the variable
    [process.env.OPENAI_API_KEY] and the chat completions of OpenAI for
    the numbered request of one [Promise.all], the key, the query and
    the (truncated) document. *)
Record Env : Type := mkEnv {
  getAuthContext : result bool;
  resolveApiKey : bool -> option string -> option string -> option string;
  envOpenAIKey : option string;
  fetchChatCompletion : nat -> string -> string -> string -> Response ChatCompletion
}.

(** The route has its own copy of [scoreWithGPT]. *)
Definition scoreWithGPT (env : Env) (request : nat) (query document apiKey : string)
    : result R :=
  let maxDocLength := 2000%nat in
  let truncatedDoc :=
    if (maxDocLength <? String.length document)%nat
    then String.substring 0 maxDocLength document ++ "..."
    else document in
  match fetchChatCompletion env request apiKey query truncatedDoc with
  | Rejected e => Throw e
  | NotOk statusText _ => Throw ("OpenAI API error: " ++ statusText)
  | Json data =>
      match choices data with
      | None => Throw "TypeError: data.choices is undefined"
      | Some cs =>
          let scoreStr :=
            match firstContent cs with
            | Some c => trim c
            | None => "0"
            end in
          Ok (scoreOfContent scoreStr)
      end
  end.

(** The [documents.map(async (doc, index) => ...)] of the handler, all
    promises awaited: a document whose scoring failed gets the numeric
    semantic score of its metadata, else its original score, else 0. *)
Definition scoreAll (env : Env) (query apiKey : string) (documents : list RerankDocument)
    : list Scored :=
  imap (fun index doc =>
          match scoreWithGPT env index query (doc_text doc) apiKey with
          | Ok score => mkScored doc score index
          | Throw _ =>
              let fallbackScore :=
                match semanticScoreOf (doc_metadata doc) with
                | Some (JNumber semanticScore) => semanticScore
                | _ => nullish (doc_originalScore doc) 0%R
                end in
              mkScored doc fallbackScore index
          end)
       documents.

(** The body of the [try] of [POST]; [userKeyHeader] is
    [req.headers.get("x-openai-api-key")] and [body] what [req.json()]
    resolves with. *)
Definition handle (env : Env) (userKeyHeader : option string) (body : result RerankRequest)
    : result NextResponse :=
  bind (getAuthContext env) (fun isOwner =>
    let userKey := truthyKey userKeyHeader in
    match truthyKey (resolveApiKey env isOwner userKey (envOpenAIKey env)) with
    | None => Ok (JsonError "OpenAI API key required for reranking" 401)
    | Some apiKey =>
        bind body (fun body =>
          let topK := nullish (req_topK body) 10%Z in
          match truthyKey (req_query body), req_documents body with
          | Some query, Some ((_ :: _) as documents) =>
              let scoredDocs := scoreAll env query apiKey documents in
              let sorted :=
                slice0 (sort (fun a b => (sc_score b - sc_score a)%R) scoredDocs) topK in
              let threshold := (15 / 100)%R in
              let results :=
                imap (fun rank item =>
                        mkRes (doc_id (sc_doc item)) (doc_text (sc_doc item)) (sc_score item)
                              (doc_originalScore (sc_doc item)) (rank + 1)
                              (doc_metadata (sc_doc item)))
                     (filter (fun item => (threshold <= sc_score item)%R) sorted) in
              Ok (JsonResults results)
          | _, _ => Ok (JsonError "Query and documents are required" 400)
          end)
    end).

Definition POST (env : Env) (userKeyHeader : option string) (body : result RerankRequest)
    : NextResponse :=
  match handle env userKeyHeader body with
  | Ok response => response
  | Throw _ => JsonError "Reranking failed" 500
  end.

End RerankRoute.
(* ===================================================================== *)
(** ** Indexing and managing large documents, second unit of            *)
(** ** src/lib/use-client-tools.ts                                       *)
(* ===================================================================== *)

Module DocumentStore.
Import JS.

(** The fields of [LargeDocumentMetadata] and [LargeDocumentChunk]
    ("./types", not among the sources) that the operations set or read;
    the time stamps ([uploadedAt], [indexedAt], [updatedAt]) are left
    out.  [c_embedding] is [embeddings[j]], [None] when the embedding
    service answered with fewer vectors than texts. *)
Record DocumentRecord : Type := mkDocumentRecord {
  m_id : string;
  m_filename : string;
  m_mimeType : string;
  m_fileSize : nat;
  m_chunkCount : nat;
  m_description : option string;
  m_status : string;
  m_errorMessage : option string
}.

Record ChunkRecord : Type := mkChunkRecord {
  c_id : string;
  c_documentId : string;
  c_chunkIndex : nat;
  c_chunkText : string;
  c_contentHash : string;
  c_headingPath : string;
  c_embedding : option (list R)
}.

(** A chunk of [chunkMarkdown] and its options ("../embeddings/chunker",
    not among the sources). *)
Record MarkdownChunk : Type := mkMarkdownChunk {
  mc_text : string;
  mc_headingPath : string
}.

Record ChunkOptions : Type := mkChunkOptions {
  maxTokens : nat;
  overlapTokens : nat;
  minTokens : nat
}.

Definition DEFAULT_CHUNK_OPTIONS : ChunkOptions := mkChunkOptions 512 75 50.

Record IndexingProgress : Type := mkProgress {
  current : R;
  total : R;
  status : string;
  message : string
}.

Record File : Type := mkFile {
  file_name : string;
  file_type : string;
  file_size : nat
}.

(** The answer of "/api/parse-pdf": the request fails, the response is
    not [ok] (with the [error] of its body, when the body is JSON), or
    it is [ok] (with the [text] of its body, when there is one). *)
Inductive ParseResponse : Type :=
| ParseRejected (msg : string)
| ParseNotOk (body : result (option string))
| ParseOk (body : result string).

(** The outside world of the operations: the content of a file, the
    pages of a PDF as PDF.js reads them (the [str] of every item of
    every page), the PDF endpoint, the chunker, the embedding service,
    the bytes of the SHA-256 digest, the two stores of "./idb" that
    hold the original file and the cached projection, and the order in
    which an index of the database lists the records it holds; then
    what becomes of the writes of an indexing: whether the database
    grants [db.put("documents", m)], whether the transaction that puts
    the given chunk records commits, and whether the callback
    [onProgress] returns or throws. *)
Record Env : Type := mkEnv {
  fileText : File -> result string;
  pdfPages : File -> result (list (list (option string)));
  parsePdfApi : File -> ParseResponse;
  chunkMarkdown : string -> ChunkOptions -> list MarkdownChunk;
  embedTexts : list string -> result (list (list R));
  digest : string -> list Z;
  deleteDocumentFile : string -> result unit;
  removeDocumentUmapCache : string -> result unit;
  listed : list ChunkRecord -> list ChunkRecord;
  putDocumentRequest : DocumentRecord -> result unit;
  chunkTransaction : list ChunkRecord -> result unit;
  progressCallback : IndexingProgress -> result unit
}.

(** The two object stores of the database, keyed by [id]. *)
Record Db : Type := mkDb {
  documents : gmap string DocumentRecord;
  chunks : gmap string ChunkRecord
}.

(** A computation that reads and writes the database, reports progress
    and may throw: it returns its outcome, the database and the
    progress reported so far. *)
Definition Prog (A : Type) : Type :=
  Db -> list IndexingProgress -> result A * Db * list IndexingProgress.

Definition ret {A} (a : A) : Prog A := fun db log => (Ok a, db, log).

Definition throw {A} (e : string) : Prog A := fun db log => (Throw e, db, log).

Definition lift {A} (r : result A) : Prog A := fun db log => (r, db, log).

Definition bindP {A B} (m : Prog A) (k : A -> Prog B) : Prog B :=
  fun db log =>
    match m db log with
    | (Ok a, db', log') => k a db' log'
    | (Throw e, db', log') => (Throw e, db', log')
    end.

(** [try { body } catch (error) { handler }] *)
Definition tryCatch {A} (body : Prog A) (handler : string -> Prog A) : Prog A :=
  fun db log =>
    match body db log with
    | (Ok a, db', log') => (Ok a, db', log')
    | (Throw e, db', log') => handler e db' log'
    end.

Fixpoint foldP {A B} (f : B -> A -> Prog B) (l : list A) (b : B) : Prog B :=
  match l with
  | [] => ret b
  | x :: l' => bindP (f b x) (foldP f l')
  end.

(** [onProgress?.(p)]: the callback is given [p], which is recorded,
    and returns or throws. *)
Definition onProgress (env : Env) (p : IndexingProgress) : Prog unit :=
  fun db log => (progressCallback env p, db, (log ++ [p])%list).

(** [db.get("documents", id)], [db.put("documents", m)] (which writes
    when the database grants it), [store.put(record)] inside a
    transaction, and the two deletions. *)
Definition getDocument (documentId : string) : Prog (option DocumentRecord) :=
  fun db log => (Ok (documents db !! documentId), db, log).

Definition putDocument (env : Env) (m : DocumentRecord) : Prog unit :=
  fun db log =>
    match putDocumentRequest env m with
    | Ok _ => (Ok tt, mkDb (<[m_id m := m]> (documents db)) (chunks db), log)
    | Throw e => (Throw e, db, log)
    end.

Definition putChunk (record : ChunkRecord) : Prog unit :=
  fun db log => (Ok tt, mkDb (documents db) (<[c_id record := record]> (chunks db)), log).

(** [const tx = db.transaction("chunks", "readwrite");
     for (const record of records) await tx.store.put(record);
     await tx.done]: the puts take effect together, when the
    transaction commits; when it fails none of them does. *)
Definition putChunks (env : Env) (records : list ChunkRecord) : Prog unit :=
  fun db log =>
    match chunkTransaction env records with
    | Ok _ => foldP (fun _ record => putChunk record) records tt db log
    | Throw e => (Throw e, db, log)
    end.

Definition deleteChunk (id : string) : Prog unit :=
  fun db log => (Ok tt, mkDb (documents db) (delete id (chunks db)), log).

Definition deleteDocument (documentId : string) : Prog unit :=
  fun db log => (Ok tt, mkDb (delete documentId (documents db)) (chunks db), log).

(** [db.getAllFromIndex("chunks", "by-document", documentId)]: the
    chunks of the document, in the order of the index. *)
Definition chunksOfDocument (env : Env) (db : Db) (documentId : string) : list ChunkRecord :=
  listed env
    (filter (fun c => c_documentId c = documentId) (map snd (map_to_list (chunks db)))).

Definition getChunksOfDocument (env : Env) (documentId : string) : Prog (list ChunkRecord) :=
  fun db log => (Ok (chunksOfDocument env db documentId), db, log).

(** [`${n}`] for a count. *)
Definition natToString (n : nat) : string :=
  DecimalString.NilZero.string_of_uint (Nat.to_uint n).

(** [b.toString(16).padStart(2, "0")] *)
Definition hex2 (b : Z) : string :=
  let digits := HexadecimalString.NilZero.string_of_int (Z.to_hex_int b) in
  if (String.length digits <? 2)%nat then "0" ++ digits else digits.

(** [sha256(text)]: the digest in hexadecimal. *)
Definition sha256 (env : Env) (text : string) : string :=
  join "" (map hex2 (digest env text)).

(** *** PDF extraction *)

Definition extractPdfText (env : Env) (file : File) : option (string * nat) :=
  match pdfPages env file with
  | Throw _ => None
  | Ok pages =>
      let numPages := length pages in
      let pageTexts :=
        map (fun items =>
               join " " (map (fun str => match str with
                                         | Some s => if truthy s then s else ""
                                         | None => ""
                                         end) items))
            pages in
      let fullText := join (String newline (String newline "")) pageTexts in
      let minChars :=
        if (1 <? numPages)%nat then Nat.min 100 (numPages * 50) else 50%nat in
      if (String.length (trim fullText) <? minChars)%nat then None
      else Some (fullText, numPages)
  end.

Definition parsePdfWithClaude (env : Env) (file : File) : result string :=
  match parsePdfApi env file with
  | ParseRejected e => Throw e
  | ParseNotOk body =>
      bind body (fun error =>
        Throw (match error with
               | Some e => if truthy e then e else "PDF parsing with AI failed"
               | None => "PDF parsing with AI failed"
               end))
  | ParseOk body => body
  end.

(** *** indexLargeDocumentInBackground *)

Definition BATCH_SIZE : nat := 20.

(** The values [i] of [for (let i = 0; i < n; i += BATCH_SIZE)]. *)
Definition batchStarts (n : nat) : list nat :=
  map (fun b => (b * BATCH_SIZE)%nat) (seq 0 ((n + BATCH_SIZE - 1) / BATCH_SIZE)).

(** [content]: the text of the file, of a PDF by PDF.js or else by the
    endpoint. *)
Definition readContent (env : Env) (file : File) (mimeType : string) : Prog string :=
  if String.eqb mimeType "application/pdf" then
    bindP (onProgress env (mkProgress 0 5 "pdf-extraction" "Extracting text from PDF..."))
          (fun _ =>
    match extractPdfText env file with
    | Some (text, _) => ret text
    | None =>
        bindP (onProgress env (mkProgress (5 / 10) 5 "ai-extraction"
                                      "Using AI to extract text from scanned PDF..."))
              (fun _ => lift (parsePdfWithClaude env file))
    end)
  else lift (fileText env file).

(** The records of one batch, [for (let j = 0; j < batch.length; j++)]. *)
Definition batchRecords (env : Env) (documentId : string) (i : nat)
    (batch : list MarkdownChunk) (embeddings : list (list R)) : list ChunkRecord :=
  imap (fun j chunk =>
          let chunkIndex := (i + j)%nat in
          mkChunkRecord (documentId ++ "#" ++ natToString chunkIndex) documentId chunkIndex
                        (mc_text chunk) (sha256 env (mc_text chunk)) (mc_headingPath chunk)
                        (embeddings !! j))
       batch.

(** Body of the loop over the batches. *)
Definition embedBatch (env : Env) (documentId : string) (chunks : list MarkdownChunk)
    (allChunkRecords : list ChunkRecord) (i : nat) : Prog (list ChunkRecord) :=
  let batch := take BATCH_SIZE (drop i chunks) in
  let batchTexts := map mc_text batch in
  bindP (lift (embedTexts env batchTexts)) (fun embeddings =>
  let allChunkRecords :=
    (allChunkRecords ++ batchRecords env documentId i batch embeddings)%list in
  let progress :=
    Rmin (2 + (INR (i + BATCH_SIZE) / INR (length chunks)) * 2) 4 in
  bindP (onProgress env
           (mkProgress progress 5 "embedding"
              ("Embedded " ++ natToString (Nat.min (i + BATCH_SIZE) (length chunks))
                 ++ " of " ++ natToString (length chunks) ++ " chunks...")))
        (fun _ => ret allChunkRecords)).

(** The [try] block assigns to the fields of the object [metadata],
    and the [catch] block reads the object as the failure left it: a
    computation of the two blocks carries the object beside the
    database and the progress. *)
Definition Block (A : Type) : Type :=
  DocumentRecord -> Db -> list IndexingProgress
  -> result A * DocumentRecord * Db * list IndexingProgress.

Definition run {A} (m : Prog A) : Block A :=
  fun metadata db log =>
    match m db log with
    | (r, db', log') => (r, metadata, db', log')
    end.

Definition bindB {A B} (m : Block A) (k : A -> Block B) : Block B :=
  fun metadata db log =>
    match m metadata db log with
    | (Ok a, metadata', db', log') => k a metadata' db' log'
    | (Throw e, metadata', db', log') => (Throw e, metadata', db', log')
    end.

(** [try { body } catch (error) { handler }] *)
Definition tryCatchB {A} (body : Block A) (handler : string -> Block A) : Block A :=
  fun metadata db log =>
    match body metadata db log with
    | (Ok a, metadata', db', log') => (Ok a, metadata', db', log')
    | (Throw e, metadata', db', log') => handler e metadata' db' log'
    end.

(** [metadata.field = value], and the value of [metadata]. *)
Definition assign (f : DocumentRecord -> DocumentRecord) : Block unit :=
  fun metadata db log => (Ok tt, f metadata, db, log).

Definition readMetadata : Block DocumentRecord :=
  fun metadata db log => (Ok metadata, metadata, db, log).

(** The blocks run on the object that [db.get] returned. *)
Definition withMetadata {A} (metadata : DocumentRecord) (m : Block A) : Prog A :=
  fun db log =>
    match m metadata db log with
    | (r, _, db', log') => (r, db', log')
    end.

Definition setStatus (status : string) (m : DocumentRecord) : DocumentRecord :=
  mkDocumentRecord (m_id m) (m_filename m) (m_mimeType m) (m_fileSize m) (m_chunkCount m)
                   (m_description m) status (m_errorMessage m).

Definition setChunkCount (chunkCount : nat) (m : DocumentRecord) : DocumentRecord :=
  mkDocumentRecord (m_id m) (m_filename m) (m_mimeType m) (m_fileSize m) chunkCount
                   (m_description m) (m_status m) (m_errorMessage m).

Definition setErrorMessage (errorMessage : string) (m : DocumentRecord) : DocumentRecord :=
  mkDocumentRecord (m_id m) (m_filename m) (m_mimeType m) (m_fileSize m) (m_chunkCount m)
                   (m_description m) (m_status m) (Some errorMessage).

(** [await db.put("documents", metadata)] *)
Definition putMetadata (env : Env) : Block unit :=
  bindB readMetadata (fun metadata => run (putDocument env metadata)).

(** The [try] block of [indexLargeDocumentInBackground]. *)
Definition indexingTry (env : Env) (documentId : string) (file : File) (mimeType : string)
    : Block DocumentRecord :=
  bindB (assign (setStatus "indexing")) (fun _ =>
  bindB (putMetadata env) (fun _ =>
  bindB (run (onProgress env (mkProgress 0 5 "parsing" "Parsing document..."))) (fun _ =>
  bindB (run (readContent env file mimeType)) (fun content =>
  bindB (run (onProgress env (mkProgress 1 5 "chunking" "Splitting into chunks...")))
        (fun _ =>
  let chunks := chunkMarkdown env content DEFAULT_CHUNK_OPTIONS in
  match chunks with
  | [] => run (throw "Document produced no chunks. It may be empty.")
  | _ =>
      bindB (run (onProgress env
                    (mkProgress 2 5 "embedding"
                       ("Embedding " ++ natToString (length chunks) ++ " chunks..."))))
            (fun _ =>
      bindB (run (foldP (embedBatch env documentId chunks) (batchStarts (length chunks)) []))
            (fun allChunkRecords =>
      bindB (run (putChunks env allChunkRecords)) (fun _ =>
      bindB (assign (setChunkCount (length allChunkRecords))) (fun _ =>
      bindB (assign (setStatus "ready")) (fun _ =>
      bindB (putMetadata env) (fun _ =>
      bindB (run (onProgress env
                    (mkProgress 5 5 "complete"
                       ("Indexed " ++ natToString (length allChunkRecords)
                          ++ " chunks successfully"))))
            (fun _ => readMetadata)))))))
  end))))).

(** Its [catch] block. *)
Definition indexingCatch (env : Env) (error : string) : Block DocumentRecord :=
  bindB (assign (setStatus "error")) (fun _ =>
  bindB (assign (setErrorMessage error)) (fun _ =>
  bindB (putMetadata env) (fun _ =>
  bindB (run (onProgress env (mkProgress 0 5 "error" error))) (fun _ =>
  run (throw error))))).

Definition indexLargeDocumentInBackground (env : Env) (documentId : string) (file : File)
    : Prog DocumentRecord :=
  let mimeType := if truthy (file_type file) then file_type file else "text/plain" in
  bindP (getDocument documentId) (fun metadata =>
  match metadata with
  | None => throw ("Document " ++ documentId ++ " not found for indexing")
  | Some metadata =>
      withMetadata metadata
        (tryCatchB (indexingTry env documentId file mimeType) (indexingCatch env))
  end).

(** *** Managing stored documents *)

Definition deleteLargeDocument (env : Env) (documentId : string) : Prog unit :=
  bindP (getChunksOfDocument env documentId) (fun chunks =>
  bindP (foldP (fun _ chunk => deleteChunk (c_id chunk)) chunks tt) (fun _ =>
  bindP (deleteDocument documentId) (fun _ =>
  bindP (lift (deleteDocumentFile env documentId)) (fun _ =>
  lift (removeDocumentUmapCache env documentId))))).

(** [loadDocumentContent]: the chunk texts by ascending [chunkIndex],
    joined by an empty line. *)
Definition loadDocumentContent (env : Env) (documentId : string) : Prog string :=
  bindP (getChunksOfDocument env documentId) (fun chunks =>
  let chunks :=
    sort (fun a b => (INR (c_chunkIndex a) - INR (c_chunkIndex b))%R) chunks in
  ret (join (String newline (String newline "")) (map c_chunkText chunks))).

Definition renameLargeDocument (env : Env) (documentId newFilename : string)
    : Prog (option DocumentRecord) :=
  bindP (getDocument documentId) (fun doc =>
  match doc with
  | None => ret None
  | Some doc =>
      let doc :=
        mkDocumentRecord (m_id doc) (trim newFilename) (m_mimeType doc) (m_fileSize doc)
                         (m_chunkCount doc) (m_description doc) (m_status doc)
                         (m_errorMessage doc) in
      bindP (putDocument env doc) (fun _ => ret (Some doc))
  end).

End DocumentStore.

(* ===================================================================== *)
(** ** Further properties the statements below are phrased with          *)
(* ===================================================================== *)

Module MoreProps.
Import JS ChatChunker Reranker LargeDocuments.

(** The role marker [chunkChatMessages] puts in front of the chunks of a
    message. *)
Definition rolePrefixOf (role : string) : string :=
  if String.eqb role "user" then "[User]: " else "[Assistant]: ".

(** Some character of [s] is not white space. *)
Fixpoint has_ink (s : string) : bool :=
  match s with
  | EmptyString => false
  | String c s' => negb (is_whitespace c) || has_ink s'
  end.

(** The sentences of the paragraphs of the text of a message, and those
    of all the messages of a conversation that are chunked. *)
Definition sentencesOfMessage (m : UIMessage) : list string :=
  flat_map splitBySentences (splitByParagraphs (extractTextFromMessage m)).

Definition sentencesOf (messages : list UIMessage) : list string :=
  flat_map sentencesOfMessage (List.filter shouldIncludeMessage messages).

(** The polynomial hash of base 31 (Java's [String.hashCode]) before it
    is reduced to 32 bits. *)
Definition poly31 (codes : list Z) : Z :=
  fold_left (fun h c => (31 * h + c)%Z) codes 0%Z.

(** What every emitted chunk text satisfies: it belongs to a user or an
    assistant message, it is the role marker followed by text that
    shows ink, and it is within the budget unless it is the marker
    followed by one single sentence of [S]. *)
Definition text_ok (maxTokens : nat) (S : list string) (role t : string) : Prop :=
  (role = "user" \/ role = "assistant")
  /\ (exists rest, t = rolePrefixOf role ++ rest /\ has_ink rest = true)
  /\ ((estimateTokens t <= maxTokens)%nat
      \/ exists s, s ∈ S /\ t = rolePrefixOf role ++ s).

Definition chunk_ok (maxTokens : nat) (S : list string) (c : ChatChunk) : Prop :=
  text_ok maxTokens S (messageRole c) (text c).

(** The invariant of the chunk list while the messages before number
    [bound] are processed. *)
Definition chunks_inv (maxTokens : nat) (S : list string) (bound : nat)
    (chunks : list ChatChunk) : Prop :=
  Forall (chunk_ok maxTokens S) chunks
  /\ Forall (fun c => (messageIndex c < bound)%nat) chunks
  /\ StronglySorted (fun a b => (messageIndex a <= messageIndex b)%nat) chunks
  /\ (forall (i : nat) (c : ChatChunk), chunks !! i = Some c -> index c = i).

(** The invariant of [currentChunk] in the two inner loops. *)
Definition current_ok (maxTokens : nat) (S : list string) (role currentChunk : string)
    : Prop :=
  exists body,
    currentChunk = rolePrefixOf role ++ body
    /\ (body = ""
        \/ (has_ink body = true
            /\ ((estimateTokens currentChunk <= maxTokens)%nat \/ body ∈ S))).

(** The invariant of the state of the two inner loops. *)
Definition loop_inv (maxTokens : nat) (S : list string) (mi : nat) (role : string)
    (st : LoopState) : Prop :=
  chunks_inv maxTokens S (Datatypes.S mi) (fst (fst st))
  /\ current_ok maxTokens S role (snd (fst st)).

(** The chunk of a message that fits the budget with its role marker. *)
Definition wholeChunk (position : nat) (m : UIMessage) : ChatChunk :=
  mkChatChunk (rolePrefixOf (role m) ++ extractTextFromMessage m) position (role m) position.

(** [r] is the document [d] with a score and a rank. *)
Definition result_of (d : RerankDocument) (r : RerankResult) : Prop :=
  res_id r = doc_id d /\ res_text r = doc_text d
  /\ res_originalScore r = doc_originalScore d /\ res_metadata r = doc_metadata d.

(** [results] is a ranking of some of the [documents]: ordered by
    descending score, ranked 1, 2, ... without a gap, every score at
    least [threshold], at most [topK] results (for a [topK] that is not
    negative), and no document taken more often than it is given. *)
Definition ranking_of (documents : list RerankDocument) (topK : Z) (threshold : R)
    (results : list RerankResult) : Prop :=
  StronglySorted (fun a b => (relevanceScore b <= relevanceScore a)%R) results
  /\ (forall (i : nat) (r : RerankResult), results !! i = Some r -> rank r = Datatypes.S i)
  /\ Forall (fun r => (threshold <= relevanceScore r)%R) results
  /\ ((0 <= topK)%Z -> (length results <= Z.to_nat topK)%nat)
  /\ exists docs, docs ⊆+ documents /\ Forall2 result_of docs results.

(** The [documents], numbered from 0, each with the score [score] gives
    it. *)
Definition scoredWith (score : nat -> RerankDocument -> R) (documents : list RerankDocument)
    : list Scored :=
  imap (fun index doc => mkScored doc (score index doc) index) documents.

(** [results] are the best of the scored documents: these in the one
    order that is descending by score and leaves the documents of one
    score as they were given (a stable sort), cut to the first [topK]
    ([slice(0, topK)]), then without those scored under [threshold];
    every result is its document with the score it was given, and the
    ranks count from 1. *)
Definition best_of (scored : list Scored) (topK : Z) (threshold : R)
    (results : list RerankResult) : Prop :=
  exists sorted : list Scored,
    sorted ≡ₚ scored
    /\ StronglySorted (fun a b => (sc_score b <= sc_score a)%R) sorted
    /\ (forall v : R,
          filter (fun s => sc_score s = v) sorted = filter (fun s => sc_score s = v) scored)
    /\ Forall2 (fun s r => result_of (sc_doc s) r /\ relevanceScore r = sc_score s)
               (filter (fun s => (threshold <= sc_score s)%R) (slice0 sorted topK)) results
    /\ (forall (i : nat) (r : RerankResult), results !! i = Some r -> rank r = Datatypes.S i).

(** The score a document gets from the backend "openai": what the
    scorer made of it, and its original score, else 0, when the scoring
    failed. *)
Definition clientScore (env : Reranker.Env) (query apiKey : string) (index : nat)
    (doc : RerankDocument) : R :=
  match Reranker.scoreWithGPT env index query (doc_text doc) apiKey with
  | Ok score => score
  | Throw _ =>
      match doc_originalScore doc with
      | Some originalScore => originalScore
      | None => 0%R
      end
  end.

(** The score a document gets from the route: what the scorer made of
    it, and when the scoring failed the numeric semantic score of its
    metadata, else its original score, else 0. *)
Definition routeScore (server : RerankRoute.Env) (query apiKey : string) (index : nat)
    (doc : RerankDocument) : R :=
  match RerankRoute.scoreWithGPT server index query (doc_text doc) apiKey with
  | Ok score => score
  | Throw _ =>
      match Props.numericSemanticScore doc, doc_originalScore doc with
      | Some semanticScore, _ => semanticScore
      | None, Some originalScore => originalScore
      | None, None => 0%R
      end
  end.

(** The number of results and the lowest score the backend "openai"
    works with, by what the configuration says of [topK] and
    [threshold]: the default of [rerank] (5, 0.2) when the property is
    left out, the fall-back of the backend (5, 0) when it is written
    with the value [undefined]. *)
Definition openaiTopK (topK : Field Z) : Z :=
  match topK with
  | Absent => 5%Z
  | Undefined => 5%Z
  | Given topK => topK
  end.

Definition openaiThreshold (threshold : Field R) : R :=
  match threshold with
  | Absent => (2 / 10)%R
  | Undefined => 0%R
  | Given threshold => threshold
  end.

(** The [topK] the backend "api" sends to the route: the default of
    [rerank] (5) when the property is left out, the fall-back of the
    backend (10) when it is written with the value [undefined]. *)
Definition apiTopK (topK : Field Z) : Z :=
  match topK with
  | Absent => 5%Z
  | Undefined => 10%Z
  | Given topK => topK
  end.

(** The reranking service a client sees when "/api/rerank" is answered
    by the route of [server]: the request carries the query, the
    documents and [topK]; a response of status 200 is [ok], and the
    other ones carry their [error] ([statusText] names the status). *)
Definition served (server : RerankRoute.Env) (statusText : nat -> string)
    (userKey : option string) (query : string) (documents : list RerankDocument) (topK : Z)
    : Response (list RerankResult) :=
  match RerankRoute.POST server userKey
          (Ok (RerankRoute.mkRequest (Some query) (Some documents) (Some topK))) with
  | RerankRoute.JsonResults results => Json results
  | RerankRoute.JsonError error status => NotOk (statusText status) (Some error)
  end.

(** A server whose owner is signed in, with a key in its environment,
    where every chat request is answered with [reply (answer request)];
    and a browser without stored keys that reaches this server. *)
Definition sampleServer (answer : nat -> string) : RerankRoute.Env :=
  RerankRoute.mkEnv (Ok true)
    (fun isOwner userKey envKey => if isOwner then envKey else userKey)
    (Some "sk-env")
    (fun request _ _ _ => Json (Props.reply (answer request))).

Definition sampleClient (answer : nat -> string) : Reranker.Env :=
  Reranker.mkEnv true (mkKeys None None)
    (fun _ _ _ _ _ => Rejected "offline")
    (fun _ _ _ _ => Rejected "offline")
    (served (sampleServer answer) (fun _ => "error")).

(** A server like [sampleServer] whose chat requests number 0 and 1
    fail, and a browser without stored keys whose chat request number 1
    fails. *)
Definition flakyServer (answer : nat -> string) : RerankRoute.Env :=
  RerankRoute.mkEnv (Ok true)
    (fun isOwner userKey envKey => if isOwner then envKey else userKey)
    (Some "sk-env")
    (fun request _ _ _ =>
       if (request <? 2)%nat then Rejected "timeout" else Json (Props.reply (answer request))).

Definition flakyClient (answer : nat -> string) : Reranker.Env :=
  Reranker.mkEnv true (mkKeys None None)
    (fun _ _ _ _ _ => Rejected "offline")
    (fun request _ _ _ =>
       if (request =? 1)%nat then Rejected "timeout" else Json (Props.reply (answer request)))
    (fun _ _ _ _ => Rejected "offline").

(** A world that stores [chunks], embeds every query as [[3; 4]], and
    reranks in the world [reranker]. *)
Definition rerankingEnv (reranker : Reranker.Env) (chunks : list LargeDocumentChunk)
    : LargeDocuments.Env :=
  LargeDocuments.mkEnv
    reranker
    (Ok chunks)
    (Ok [Props.sampleDocument])
    (fun documentId => Ok (filter (fun c => LargeDocuments.documentId c = documentId) chunks))
    (fun documentId =>
       Ok (if String.eqb documentId "d1" then Some Props.sampleDocument else None))
    (fun _ => Ok [3; 4]%R)
    Props.sampleLexicalSearch
    (fun _ => "mixed").

(** A browser with a stored OpenAI key, every chat request answered
    with [reply (answer request)]. *)
Definition keyedClient (answer : nat -> string) : Reranker.Env :=
  Reranker.mkEnv true (mkKeys None (Some "sk-user"))
    (fun _ _ _ _ _ => Rejected "offline")
    (fun request _ _ _ => Json (Props.reply (answer request)))
    (fun _ _ _ _ => Rejected "offline").


(** The options of a search that accepts every cosine similarity and
    asks for one result, reranked by the given backend. *)
Definition oneResultBy (backend : string) : LargeDocumentSearchOptions :=
  mkOptions (Some 1%Z) (Some (-1)%R) (Some true) (Some backend) None None None.

(** The text [indexLargeDocumentInBackground] chunks: of a PDF what
    PDF.js extracts, else what the endpoint answers; of any other file
    its content. *)
Definition contentOf (env : DocumentStore.Env) (file : DocumentStore.File) : result string :=
  let mimeType :=
    if truthy (DocumentStore.file_type file) then DocumentStore.file_type file
    else "text/plain" in
  if String.eqb mimeType "application/pdf" then
    match DocumentStore.extractPdfText env file with
    | Some (text, _) => Ok text
    | None => DocumentStore.parsePdfWithClaude env file
    end
  else DocumentStore.fileText env file.

(** The metadata of a document with a new status, chunk count and
    error message. *)
Definition marked (metadata : DocumentStore.DocumentRecord) (status : string)
    (chunkCount : nat) (errorMessage : option string) : DocumentStore.DocumentRecord :=
  DocumentStore.mkDocumentRecord
    (DocumentStore.m_id metadata) (DocumentStore.m_filename metadata)
    (DocumentStore.m_mimeType metadata) (DocumentStore.m_fileSize metadata)
    chunkCount (DocumentStore.m_description metadata) status errorMessage.

(** The chunk store after the records are put, one after the other. *)
Definition putAll (records : list DocumentStore.ChunkRecord)
    (chunks : gmap string DocumentStore.ChunkRecord) : gmap string DocumentStore.ChunkRecord :=
  fold_left (fun m r => <[DocumentStore.c_id r := r]> m) records chunks.

(** The key of chunk number [k] of a document. *)
Definition chunkKey (documentId : string) (k : nat) : string :=
  documentId ++ "#" ++ DocumentStore.natToString k.

(** [r] is the record of chunk number [k] of the document. *)
Definition record_of (documentId : string) (k : nat) (c : DocumentStore.MarkdownChunk)
    (r : DocumentStore.ChunkRecord) : Prop :=
  DocumentStore.c_id r = chunkKey documentId k
  /\ DocumentStore.c_documentId r = documentId
  /\ DocumentStore.c_chunkIndex r = k
  /\ DocumentStore.c_chunkText r = DocumentStore.mc_text c
  /\ DocumentStore.c_headingPath r = DocumentStore.mc_headingPath c.

(** Every chunk is stored under its [id]. *)
Definition well_keyed (db : DocumentStore.Db) : Prop :=
  forall key r, DocumentStore.chunks db !! key = Some r -> DocumentStore.c_id r = key.

(** The store holds no chunk of the document, and none under one of its
    keys. *)
Definition holds_no_chunk_of (db : DocumentStore.Db) (documentId : string) : Prop :=
  forall key r,
    DocumentStore.chunks db !! key = Some r ->
    DocumentStore.c_documentId r <> documentId /\ forall k, key <> chunkKey documentId k.

(** The text of the pages of a PDF as [extractPdfText] joins them. *)
Definition pdfFullText (pages : list (list (option string))) : string :=
  join (String newline (String newline ""))
       (map (fun items => join " " (map (fun str => default "" str) items)) pages).

(** A world in which every file reads as "content", the chunker cuts
    every content into the given texts, the embedding service answers
    as [embed] says, an index lists its records last to first and
    every write goes through; a stored document, and a store that holds
    it and a chunk of another document. *)
Definition sampleStoreEnv (texts : list string)
    (embed : list string -> result (list (list R))) : DocumentStore.Env :=
  DocumentStore.mkEnv
    (fun _ => Ok "content")
    (fun _ => Throw "not a PDF")
    (fun _ => DocumentStore.ParseRejected "offline")
    (fun _ _ => map (fun t => DocumentStore.mkMarkdownChunk t "") texts)
    embed
    (fun _ => [])
    (fun _ => Ok tt)
    (fun _ => Ok tt)
    (fun records => rev records)
    (fun _ => Ok tt)
    (fun _ => Ok tt)
    (fun _ => Ok tt).

(** The same world, in which the database refuses to write the metadata
    of a document that is "ready". *)
Definition fullStoreEnv (texts : list string)
    (embed : list string -> result (list (list R))) : DocumentStore.Env :=
  DocumentStore.mkEnv
    (fun _ => Ok "content")
    (fun _ => Throw "not a PDF")
    (fun _ => DocumentStore.ParseRejected "offline")
    (fun _ _ => map (fun t => DocumentStore.mkMarkdownChunk t "") texts)
    embed
    (fun _ => [])
    (fun _ => Ok tt)
    (fun _ => Ok tt)
    (fun records => rev records)
    (fun m => if String.eqb (DocumentStore.m_status m) "ready"
              then Throw "QuotaExceededError" else Ok tt)
    (fun _ => Ok tt)
    (fun _ => Ok tt).

(** The writes of an indexing go through: the database grants every
    write of metadata, the transaction of the chunks commits, and the
    progress callback returns. *)
Definition writes_go_through (env : DocumentStore.Env) : Prop :=
  (forall m, DocumentStore.putDocumentRequest env m = Ok tt)
  /\ (forall records, DocumentStore.chunkTransaction env records = Ok tt)
  /\ (forall p, DocumentStore.progressCallback env p = Ok tt).

Definition sampleStored : DocumentStore.DocumentRecord :=
  DocumentStore.mkDocumentRecord "d1" "notes.md" "text/markdown" 42 0 None "uploading" None.

Definition otherChunk : DocumentStore.ChunkRecord :=
  DocumentStore.mkChunkRecord "d0#0" "d0" 0 "Earlier upload" "" "" None.

Definition sampleDb : DocumentStore.Db :=
  DocumentStore.mkDb {[ "d1" := sampleStored ]} {[ "d0#0" := otherChunk ]}.

Definition sampleFile : DocumentStore.File :=
  DocumentStore.mkFile "notes.md" "text/markdown" 42.

(** The characters of [s] that are not white space, in order. *)
Fixpoint ink (s : string) : string :=
  match s with
  | EmptyString => EmptyString
  | String c s' => if is_whitespace c then ink s' else String c (ink s')
  end.

Definition inkOfAll (pieces : list string) : string :=
  fold_right (fun piece rest => ink piece ++ rest) "" pieces.

(** The visible characters of the chunks of a list, role markers
    removed. *)
Definition inkOfChunks (chunks : list ChatChunk) : string :=
  inkOfAll (map (fun c => stripRolePrefix (text c)) chunks).

(** The chunks made of the chunked message of number [k]. *)
Definition chunksOfMessage (k : nat) (chunks : list ChatChunk) : list ChatChunk :=
  filter (fun c => messageIndex c = k) chunks.

(** The state of the inner loops, for the visible characters: since the
    loops started from [chunks0], the chunks [added] belong to message
    [mi], and they and the body of [currentChunk] hold the visible
    characters [seen]. *)
Definition ink_inv (chunks0 : list ChatChunk) (mi : nat) (role : string)
    (seen : string) (st : LoopState) : Prop :=
  exists added body,
    fst (fst st) = (chunks0 ++ added)%list
    /\ Forall (fun c => messageIndex c = mi) added
    /\ snd (fst st) = rolePrefixOf role ++ body
    /\ (body = "" \/ has_ink body = true)
    /\ inkOfChunks added ++ ink body = seen.

End MoreProps.

(* ===================================================================== *)
(** ** The chunker on a text without boundaries                          *)
(* ===================================================================== *)

Section UnbrokenText.
Import JS ChatChunker Props.

Lemma app_cons x (a b : string) : String x a ++ b = String x (a ++ b).
Proof. reflexivity. Qed.

Lemma app_nil (b : string) : "" ++ b = b.
Proof. reflexivity. Qed.

Lemma string_app_assoc (a b c : string) : (a ++ b) ++ c = a ++ (b ++ c).
Proof.
  induction a as [|x a IH]; rewrite ?app_nil, ?app_cons; [reflexivity | now rewrite IH].
Qed.

Lemma string_app_empty_r (a : string) : a ++ "" = a.
Proof.
  induction a as [|x a IH]; rewrite ?app_nil, ?app_cons; [reflexivity | now rewrite IH].
Qed.

Lemma string_length_app (a b : string) :
  String.length (a ++ b) = (String.length a + String.length b)%nat.
Proof.
  induction a as [|x a IH]; rewrite ?app_nil, ?app_cons; simpl;
    [reflexivity | now rewrite IH].
Qed.

Lemma newline_is_whitespace c : (c =? newline)%char = true -> is_whitespace c = true.
Proof. intros H. apply Ascii.eqb_eq in H. subst c. reflexivity. Qed.

Lemma not_whitespace_not_newline c :
  is_whitespace c = false -> (c =? newline)%char = false.
Proof.
  intros H. destruct (c =? newline)%char eqn:E; [|reflexivity].
  apply newline_is_whitespace in E. congruence.
Qed.

Lemma trimStart_unbroken s : unbroken s = true -> trimStart s = s.
Proof.
  destruct s as [|c s]; simpl; [reflexivity|].
  intros H. apply andb_prop in H as [H _].
  apply negb_true_iff in H. now rewrite H.
Qed.

Lemma trimEnd_unbroken s : unbroken s = true -> trimEnd s = s.
Proof.
  induction s as [|c s IH]; simpl; [reflexivity|].
  intros H. apply andb_prop in H as [Hc Hs].
  apply negb_true_iff in Hc. rewrite (IH Hs), Hc. now destruct s.
Qed.

Lemma trim_unbroken s : unbroken s = true -> trim s = s.
Proof.
  intros H. unfold trim. rewrite (trimStart_unbroken _ H). now apply trimEnd_unbroken.
Qed.

(** Trailing text without white space protects everything before it. *)
Lemma trimEnd_app_unbroken p s :
  unbroken s = true -> s <> "" -> trimEnd (p ++ s) = p ++ s.
Proof.
  intros Hs Hne. induction p as [|c p IH]; rewrite ?app_nil, ?app_cons; simpl.
  - now apply trimEnd_unbroken.
  - rewrite IH. destruct (p ++ s) eqn:E; [|reflexivity].
    destruct p; rewrite ?app_nil, ?app_cons in E; [congruence | discriminate].
Qed.

Lemma splitParagraphsFrom_unbroken s cur :
  unbroken s = true -> splitParagraphsFrom s cur 0 = [cur ++ s].
Proof.
  revert cur. induction s as [|c s IH]; intros cur H; simpl.
  - now rewrite string_app_empty_r.
  - simpl in H. apply andb_prop in H as [Hc Hs]. apply negb_true_iff in Hc.
    rewrite (not_whitespace_not_newline _ Hc), (IH _ Hs), string_app_assoc.
    now rewrite app_cons, app_nil.
Qed.

Lemma splitSentencesFrom_unbroken s cur p :
  unbroken s = true -> splitSentencesFrom s cur p false = [cur ++ s].
Proof.
  revert cur p. induction s as [|c s IH]; intros cur p H; simpl.
  - now rewrite string_app_empty_r.
  - simpl in H. apply andb_prop in H as [Hc Hs]. apply negb_true_iff in Hc.
    rewrite Hc. simpl. rewrite (IH _ _ Hs), string_app_assoc.
    now rewrite app_cons, app_nil.
Qed.

Lemma nonEmpty_true s : s <> "" -> nonEmpty s = true.
Proof. destruct s; [congruence | reflexivity]. Qed.

Lemma splitByParagraphs_unbroken s :
  unbroken s = true -> s <> "" -> splitByParagraphs s = [s].
Proof.
  intros H Hne. unfold splitByParagraphs.
  rewrite (splitParagraphsFrom_unbroken _ _ H), app_nil. cbn [map].
  rewrite (trim_unbroken _ H). cbn [filter list_filter].
  rewrite decide_True by now apply nonEmpty_true. reflexivity.
Qed.

Lemma splitBySentences_unbroken s :
  unbroken s = true -> s <> "" -> splitBySentences s = [s].
Proof.
  intros H Hne. unfold splitBySentences.
  rewrite (splitSentencesFrom_unbroken _ _ _ H), app_nil. cbn [map].
  rewrite (trim_unbroken _ H). cbn [filter list_filter].
  rewrite decide_True by now apply nonEmpty_true. reflexivity.
Qed.

Lemma eqb_app_self_false p s : s <> "" -> String.eqb (p ++ s) p = false.
Proof.
  intros Hne. apply String.eqb_neq. intros E.
  assert (L : String.length (p ++ s) = String.length p) by now rewrite E.
  rewrite string_length_app in L. destruct s; [congruence | simpl in L; lia].
Qed.

Lemma substring_all s : String.substring 0 (String.length s) s = s.
Proof. induction s as [|c s IH]; simpl; [reflexivity | now rewrite IH]. Qed.

Lemma stripRolePrefix_user s : stripRolePrefix ("[User]: " ++ s) = s.
Proof.
  unfold stripRolePrefix. simpl. rewrite !app_nil.
  replace (String.prefix "" s) with true by now destruct s.
  rewrite Nat.sub_0_r. apply substring_all.
Qed.

(** A user message whose text has no white space and does not fit the
    budget with its role marker is emitted whole, as one chunk: neither
    the paragraph nor the sentence splitter finds a boundary, and the
    chunker never cuts inside a sentence. *)
Lemma chunk_unbroken_over_budget (t : string) (maxTokens : nat) :
  unbroken t = true -> t <> "" ->
  (maxTokens < estimateTokens ("[User]: " ++ t))%nat ->
  chunkChatMessages [userMessage t] maxTokens
  = [mkChatChunk ("[User]: " ++ t) 0 "user" 0].
Proof.
  intros Hu Hne Hover.
  assert (Htrim : trim ("[User]: " ++ t) = "[User]: " ++ t).
  { unfold trim. change (trimStart ("[User]: " ++ t)) with ("[User]: " ++ t).
    now apply trimEnd_app_unbroken. }
  assert (Hbig : (estimateTokens ("[User]: " ++ t) <=? maxTokens)%nat = false)
    by (apply Nat.leb_gt; exact Hover).
  assert (Hbig' : (maxTokens <? estimateTokens ("[User]: " ++ t))%nat = true)
    by (apply Nat.ltb_lt; exact Hover).
  unfold chunkChatMessages. cbn [fold_left]. unfold messageStep.
  assert (Hinc : shouldIncludeMessage (userMessage t) = true).
  { unfold shouldIncludeMessage.
    change (extractTextFromMessage (userMessage t)) with t.
    rewrite (trim_unbroken _ Hu). destruct t; [congruence | reflexivity]. }
  rewrite Hinc. cbn [negb].
  change (extractTextFromMessage (userMessage t)) with t.
  change (role (userMessage t)) with "user".
  change (String.eqb "user" "user") with true. cbv iota.
  rewrite Hbig, (splitByParagraphs_unbroken _ Hu Hne).
  cbn [fold_left]. unfold paragraphStep.
  rewrite Hbig, Hbig', (splitBySentences_unbroken _ Hu Hne).
  cbn [fold_left]. unfold sentenceStep. rewrite Hbig.
  unfold saveChunk at 1 2.
  change (String.eqb "[User]: " "[User]: ") with true.
  rewrite !andb_false_r.
  unfold saveChunk. rewrite Htrim, (eqb_app_self_false _ _ Hne).
  replace (truthy ("[User]: " ++ t)) with true by reflexivity.
  reflexivity.
Qed.

End UnbrokenText.

Section ScenarioC.
Import JS ChatChunker Props.

Lemma repeat_A_succ n : JS.repeat "A" (S n) = String "A" (JS.repeat "A" n).
Proof. reflexivity. Qed.

Lemma repeat_A_unbroken n : unbroken (JS.repeat "A" n) = true.
Proof. induction n; [reflexivity | rewrite repeat_A_succ; exact IHn]. Qed.

Lemma repeat_length n : String.length (JS.repeat "A" n) = n.
Proof. induction n; [reflexivity | rewrite repeat_A_succ; simpl; now rewrite IHn]. Qed.

(** C4, as the claim states it, fails: the 3000 A's come back as ONE
    chunk, so there is no split into several chunks (and that chunk is
    over the budget). *)
Lemma C4_scenario_C_not_split :
  ~ splits_within_budget
      (chunkChatMessages [userMessage (JS.repeat "A" 3000)] 500)
      (JS.repeat "A" 3000) 500.
Proof.
  intros [Hlen _].
  rewrite chunk_unbroken_over_budget in Hlen.
  - simpl in Hlen. lia.
  - apply repeat_A_unbroken.
  - discriminate.
  - unfold estimateTokens. rewrite string_length_app, repeat_length.
    vm_compute. lia.
Qed.

(** C4 (amended): chunking the single user message ["A".repeat(3000)]
    with [maxTokens = 500] gives exactly one chunk, the role marker
    followed by the 3000 A's (3008 characters, 752 estimated tokens);
    removing the role marker gives the message text back. *)
Theorem C4_scenario_C_single_chunk :
  let original := JS.repeat "A" 3000 in
  let cs := chunkChatMessages [userMessage original] 500 in
  cs = [mkChatChunk ("[User]: " ++ original) 0 "user" 0]
  /\ map (fun c => String.length (text c)) cs = [3008%nat]
  /\ map (fun c => estimateTokens (text c)) cs = [752%nat]
  /\ String.concat "" (map (fun c => stripRolePrefix (text c)) cs) = original.
Proof.
  cbv zeta.
  assert (E : chunkChatMessages [userMessage (JS.repeat "A" 3000)] 500
              = [mkChatChunk ("[User]: " ++ JS.repeat "A" 3000) 0 "user" 0])
    by (vm_compute; reflexivity).
  rewrite E. cbn [map text].
  assert (L : String.length ("[User]: " ++ JS.repeat "A" 3000) = 3008%nat)
    by (rewrite string_length_app, repeat_length; reflexivity).
  split; [reflexivity|]. split; [now rewrite L|]. split.
  - unfold estimateTokens. rewrite L. reflexivity.
  - cbn [String.concat]. apply stripRolePrefix_user.
Qed.

End ScenarioC.

(* ===================================================================== *)
(** ** The reranker: pass-through, fallback, reply parsing               *)
(* ===================================================================== *)

Section PassThrough.
Import JS Reranker Props.

Lemma displayScore_cases (doc : RerankDocument) :
  displayScore doc =
  match numericSemanticScore doc, doc_originalScore doc with
  | Some semanticScore, _ => semanticScore
  | None, Some originalScore => originalScore
  | None, None => 0%R
  end.
Proof.
  unfold displayScore, numericSemanticScore, semanticScoreOf, nullish.
  destruct (doc_metadata doc) as [m|]; [destruct (m !! "semanticScore") as [[]|]|];
    destruct (doc_originalScore doc); reflexivity.
Qed.

Lemma passThrough_passes (documents : list RerankDocument) :
  passes_through documents (passThrough documents).
Proof.
  split; [apply length_imap|].
  intros i doc Hdoc. unfold passThrough. rewrite list_lookup_imap, Hdoc. simpl.
  eexists; split; [reflexivity|]. simpl.
  repeat (split; [reflexivity|]). split; [lia | apply displayScore_cases].
Qed.

Lemma rerank_none env query documents config :
  backend (mergeConfig DEFAULT_CONFIG config) = Some "none" ->
  rerank env query documents config = Ok (passThrough documents).
Proof.
  intros Hnone. unfold rerank, is_backend. rewrite Hnone. now destruct documents.
Qed.

(** Whatever the backend does, [rerank] resolves; when the backend
    throws, with the documents passed through. *)
Lemma rerank_total env query documents config :
  exists results, rerank env query documents config = Ok results.
Proof.
  unfold rerank. destruct documents as [|d ds]; [eauto|].
  destruct (is_backend _ "none"); [eauto|].
  destruct (dispatch _ _ _ _); simpl; eauto.
Qed.

Lemma rerank_caught env query documents config e :
  dispatch env query documents (mergeConfig DEFAULT_CONFIG config) = Throw e ->
  rerank env query documents config = Ok (passThrough documents).
Proof.
  intros Hthrow. unfold rerank. rewrite Hthrow.
  destruct documents as [|d ds]; [reflexivity|].
  now destruct (is_backend _ "none").
Qed.

(** C7: with the backend "none" (given, or left to the default),
    [rerank] returns every candidate, in input order, with rank = input
    position (from 1) and relevanceScore = the numeric
    metadata.semanticScore when present, else originalScore, else 0;
    nothing is dropped or truncated, whatever [topK] and [threshold]. *)
Theorem C7_none_backend_passes_candidates_through
    (env : Env) (query : string) (documents : list RerankDocument) (config : PartialConfig) :
  backend (mergeConfig DEFAULT_CONFIG config) = Some "none" ->
  exists results,
    rerank env query documents config = Ok results
    /\ passes_through documents results.
Proof.
  intros Hnone. exists (passThrough documents).
  split; [now apply rerank_none | apply passThrough_passes].
Qed.

Lemma C7_none_backend_witness :
  exists results,
    rerank (scriptedEnv (fun _ => "0.5")) "q" threeCandidates
           (mkPartial (Given "none") Absent Absent Absent (Given 1%Z) (Given 1%R)) = Ok results
    /\ passes_through threeCandidates results.
Proof.
  apply (C7_none_backend_passes_candidates_through
           (scriptedEnv (fun _ => "0.5")) "q" threeCandidates
           (mkPartial (Given "none") Absent Absent Absent (Given 1%Z) (Given 1%R))).
  reflexivity.
Defined.

(** C10: [rerank] never rejects.  For every backend tag it resolves;
    when the selected backend throws it resolves with all the input
    documents passed through (input order, rank = position,
    relevanceScore = numeric metadata.semanticScore, else originalScore,
    else 0).  An unknown tag throws inside the [try], and so does a
    backend forced without its credential. *)
Theorem C10_rerank_never_rejects
    (env : Env) (query : string) (documents : list RerankDocument) (config : PartialConfig) :
  let finalConfig := mergeConfig DEFAULT_CONFIG config in
  (exists results, rerank env query documents config = Ok results)
  /\ (forall e, dispatch env query documents finalConfig = Throw e ->
       exists results,
         rerank env query documents config = Ok results
         /\ passes_through documents results)
  /\ (backend finalConfig <> Some "cohere" -> backend finalConfig <> Some "openai" ->
      backend finalConfig <> Some "api" ->
      exists e, dispatch env query documents finalConfig = Throw e)
  /\ (backend finalConfig = Some "cohere" ->
      truthyKey (cohereApiKey finalConfig ∪ getCohereKey env) = None ->
      exists e, dispatch env query documents finalConfig = Throw e)
  /\ (backend finalConfig = Some "openai" ->
      truthyKey (openaiApiKey finalConfig ∪ getOpenAIKey env) = None ->
      exists e, dispatch env query documents finalConfig = Throw e).
Proof.
  cbv zeta. split; [apply rerank_total|]. split; [|split; [|split]].
  - intros e He. exists (passThrough documents).
    split; [now apply (rerank_caught _ _ _ _ e) | apply passThrough_passes].
  - intros Hc Ho Ha. unfold dispatch, is_backend.
    destruct (backend _) as [b|]; [|eauto].
    assert (Hc' : b <> "cohere") by congruence.
    assert (Ho' : b <> "openai") by congruence.
    assert (Ha' : b <> "api") by congruence.
    apply String.eqb_neq in Hc', Ho', Ha'. rewrite Hc', Ho', Ha'. eauto.
  - intros Hb Hkey. unfold dispatch, is_backend. rewrite Hb. simpl.
    unfold rerankWithCohere. rewrite Hkey. eauto.
  - intros Hb Hkey. unfold dispatch, is_backend. rewrite Hb. simpl.
    unfold rerankWithOpenAI. rewrite Hkey. eauto.
Qed.

Lemma C10_rerank_never_rejects_witness :
  exists results,
    rerank (scriptedEnv (fun _ => "0.5")) "q" threeCandidates
           (mkPartial (Given "cohere") Absent Absent Absent Absent Absent) = Ok results
    /\ passes_through threeCandidates results.
Proof.
  destruct (C10_rerank_never_rejects (scriptedEnv (fun _ => "0.5")) "q" threeCandidates
              (mkPartial (Given "cohere") Absent Absent Absent Absent Absent))
    as (_ & Hcaught & _ & Hcohere & _).
  destruct (Hcohere eq_refl eq_refl) as [e He].
  exact (Hcaught e He).
Defined.

(** The fallback at work: the backend "openai" forced in a world
    without keys, and a tag that names no backend. *)
Example rerank_forced_openai_without_key :
  rerank (scriptedEnv (fun _ => "0.5")) "q" threeCandidates
         (mkPartial (Given "openai") Absent Absent Absent Absent Absent)
  = Ok (passThrough threeCandidates).
Proof. reflexivity. Qed.

Example rerank_undefined_backend :
  rerank (scriptedEnv (fun _ => "0.5")) "q" threeCandidates
         (mkPartial Undefined Absent Absent Absent Absent Absent)
  = Ok (passThrough threeCandidates).
Proof. reflexivity. Qed.

Example rerank_unknown_backend :
  rerank (scriptedEnv (fun _ => "0.5")) "q" threeCandidates
         (mkPartial (Given "bm25") Absent Absent Absent Absent Absent)
  = Ok (passThrough threeCandidates).
Proof. reflexivity. Qed.

End PassThrough.

Section ScorerReplies.
Import JS Reranker Props.

Lemma scoreOfContent_range (content : string) : (0 <= scoreOfContent content <= 1)%R.
Proof.
  unfold scoreOfContent. destruct (parseFloat content) as [|[]|x]; try lra.
  unfold Rmax, Rmin. repeat destruct (Rle_dec _ _); lra.
Qed.

Lemma scoreOfContent_finite (content : string) (x : R) :
  parseFloat content = PFinite x ->
  ((x < 0)%R -> scoreOfContent content = 0%R)
  /\ ((0 <= x <= 1)%R -> scoreOfContent content = x)
  /\ ((1 < x)%R -> scoreOfContent content = 1%R).
Proof.
  intros Hx. unfold scoreOfContent. rewrite Hx.
  unfold Rmax, Rmin. repeat split; intros; repeat destruct (Rle_dec _ _); lra.
Qed.

Lemma scoreWithGPT_reply env request query document apiKey content :
  (forall d, openaiChat env request apiKey query d = Json (reply content)) ->
  scoreWithGPT env request query document apiKey = Ok (scoreOfContent (trim content)).
Proof.
  intros Hreply. unfold scoreWithGPT. cbv zeta. rewrite Hreply. reflexivity.
Qed.

Lemma parseFloat_1_5 : parseFloat "1.5" = PFinite (IZR 15 * powerRZ 10 (-1)).
Proof. reflexivity. Qed.

Lemma scoreOfContent_1_5 : scoreOfContent "1.5" = 1%R.
Proof.
  destruct (scoreOfContent_finite "1.5" _ parseFloat_1_5) as (_ & _ & H).
  apply H. simpl. lra.
Qed.

(** C8, as the claim states it, fails: the reply "1.5" does not parse
    as a number between 0 and 1, yet the candidate is scored 1, not 0. *)
Lemma C8_out_of_range_reply_is_not_zeroed :
  not_a_score (trim "1.5")
  /\ scoreWithGPT (scriptedEnv (fun _ => "1.5")) 0 "query" "document" "key" = Ok 1%R
  /\ 1%R <> 0%R.
Proof.
  split; [|split].
  - intros x Hx. change (trim "1.5") with "1.5" in Hx.
    rewrite parseFloat_1_5 in Hx. injection Hx as <-. simpl. lra.
  - rewrite (scoreWithGPT_reply _ _ _ _ _ "1.5") by reflexivity.
    change (trim "1.5") with "1.5". now rewrite scoreOfContent_1_5.
  - lra.
Qed.

(** The scores of a batch depend on the replies request by request. *)
Lemma scoreAll_lookup env query apiKey documents (i : nat) :
  scoreAll env query apiKey documents !! i =
  (fun doc =>
     match scoreWithGPT env i query (doc_text doc) apiKey with
     | Ok score => mkScored doc score i
     | Throw _ => mkScored doc (nullish (doc_originalScore doc) 0%R) i
     end) <$> documents !! i.
Proof. unfold scoreAll. apply list_lookup_imap. Qed.

(** C8 (amended): when the scorer answers a request with some content,
    [scoreWithGPT] does not raise; a content that does not parse as a
    number scores 0, a number is clamped into [0, 1] (below 0 gives 0,
    above 1 gives 1, not 0); and in the batch of [rerankWithOpenAI] the
    score of every other candidate is what it would be had that request
    been answered differently. *)
Theorem C8_malformed_reply_scores_without_raising
    (env : Env) (request : nat) (query apiKey content : string)
    (documents : list RerankDocument) (doc : RerankDocument) :
  documents !! request = Some doc ->
  (forall d, openaiChat env request apiKey query d = Json (reply content)) ->
  exists score,
    scoreWithGPT env request query (doc_text doc) apiKey = Ok score
    /\ scoreAll env query apiKey documents !! request = Some (mkScored doc score request)
    /\ (0 <= score <= 1)%R
    /\ (parseFloat (trim content) = PNaN -> score = 0%R)
    /\ (forall x, parseFloat (trim content) = PFinite x ->
          ((x < 0)%R -> score = 0%R)
          /\ ((0 <= x <= 1)%R -> score = x)
          /\ ((1 < x)%R -> score = 1%R))
    /\ (forall env' other,
          other <> request ->
          (forall k q d, openaiChat env' other k q d = openaiChat env other k q d) ->
          scoreAll env' query apiKey documents !! other
          = scoreAll env query apiKey documents !! other).
Proof.
  intros Hdoc Hreply. exists (scoreOfContent (trim content)).
  assert (Hscore := scoreWithGPT_reply env request query (doc_text doc) apiKey content Hreply).
  split; [exact Hscore|]. split; [|split; [|split; [|split]]].
  - rewrite scoreAll_lookup, Hdoc. simpl. now rewrite Hscore.
  - apply scoreOfContent_range.
  - intros Hnan. unfold scoreOfContent. now rewrite Hnan.
  - intros x Hx. now apply scoreOfContent_finite.
  - intros env' other Hne Hsame. rewrite !scoreAll_lookup.
    destruct (documents !! other) as [d|]; [|reflexivity]. simpl.
    unfold scoreWithGPT. cbv zeta. now rewrite Hsame.
Qed.

Lemma C8_malformed_reply_witness :
  exists score,
    scoreWithGPT (scriptedEnv (fun request => if (request =? 1)%nat then "n/a" else "0.85"))
                 1 "q" "beta" "key" = Ok score
    /\ score = 0%R.
Proof.
  destruct (C8_malformed_reply_scores_without_raising
              (scriptedEnv (fun request => if (request =? 1)%nat then "n/a" else "0.85"))
              1 "q" "key" "n/a" threeCandidates
              (mkDoc "b" "beta" (Some (1 / 62)%R)
                     (Some {[ "semanticScore" := JString "high" ]}))
              eq_refl (fun _ => eq_refl))
    as (score & Hscore & _ & _ & Hnan & _).
  exists score. split; [exact Hscore | apply Hnan; reflexivity].
Defined.

(** With a key, the batch of [rerankWithOpenAI] resolves whatever the
    scorer replies. *)
Lemma rerankWithOpenAI_resolves env query documents config apiKey :
  truthyKey (openaiApiKey config ∪ getOpenAIKey env) = Some apiKey ->
  exists results, rerankWithOpenAI env query documents config = Ok results.
Proof. intros Hkey. unfold rerankWithOpenAI. rewrite Hkey. eauto. Qed.

End ScorerReplies.

(* ===================================================================== *)
(** ** Cosine similarity                                                 *)
(* ===================================================================== *)

Section Cosine.
Import JS LargeDocuments Props.
Local Open Scope R_scope.

(** The loop of [cosineSimilarity], started at index [length pa] with
    the accumulators [d], [na], [nb], adds the three sums over the rest
    of the vectors. *)
Lemma cosine_loop (a b pa pb : list R) (d na nb : R) :
  length a = length b -> length pa = length pb ->
  fold_left
    (fun '(dot, normA, normB) i =>
       (dot + nth i (pa ++ a) 0 * nth i (pb ++ b) 0,
        normA + nth i (pa ++ a) 0 * nth i (pa ++ a) 0,
        normB + nth i (pb ++ b) 0 * nth i (pb ++ b) 0))
    (seq (length pa) (length a)) (d, na, nb)
  = (d + dot a b, na + dot a a, nb + dot b b).
Proof.
  revert b pa pb d na nb.
  induction a as [|x a IH]; intros [|y b] pa pb d na nb Hlen Hp; try discriminate.
  - simpl. f_equal; [f_equal|]; lra.
  - simpl in Hlen. injection Hlen as Hlen.
    cbn [length seq fold_left].
    assert (Hx : nth (length pa) (pa ++ x :: a) 0 = x)
      by (rewrite app_nth2, Nat.sub_diag by lia; reflexivity).
    assert (Hy : nth (length pa) (pb ++ y :: b) 0 = y)
      by (rewrite Hp, app_nth2, Nat.sub_diag by lia; reflexivity).
    rewrite Hx, Hy.
    replace (S (length pa)) with (length (pa ++ [x])) by (rewrite length_app; simpl; lia).
    rewrite (cons_middle x pa a), (cons_middle y pb b), !app_assoc.
    rewrite IH by (rewrite ?length_app; simpl; lia).
    simpl. f_equal; [f_equal|]; lra.
Qed.

Lemma cosineSimilarity_sums (a b : list R) :
  length a = length b ->
  cosineSimilarity a b =
  if decide (norm a * norm b = 0) then 0 else dot a b / (norm a * norm b).
Proof.
  intros Hlen. unfold cosineSimilarity.
  pose proof (cosine_loop a b [] [] 0 0 0 Hlen eq_refl) as Hloop.
  cbn [app length] in Hloop. rewrite Hloop, !Rplus_0_l. reflexivity.
Qed.

Lemma dot_self_nonneg (a : list R) : 0 <= dot a a.
Proof. induction a as [|x a IH]; simpl; nra. Qed.

Lemma dot_self_pos (a : list R) : Exists (fun x => x <> 0) a -> 0 < dot a a.
Proof.
  induction 1 as [x a Hx | x a _ IH]; simpl.
  - pose proof (dot_self_nonneg a). nra.
  - nra.
Qed.

(** Cauchy-Schwarz, squared. *)
Lemma dot_squared_le (a b : list R) :
  length a = length b -> dot a b * dot a b <= dot a a * dot b b.
Proof.
  revert b. induction a as [|x a IH]; intros [|y b] Hlen; try discriminate.
  - simpl. lra.
  - simpl in Hlen. injection Hlen as Hlen. specialize (IH b Hlen). simpl.
    pose proof (dot_self_nonneg a) as HA. pose proof (dot_self_nonneg b) as HB.
    set (S := dot a b) in *. set (A := dot a a) in *. set (B := dot b b) in *.
    assert (Hmix : 2 * S * x * y <= A * (y * y) + B * (x * x)).
    { destruct (Req_dec A 0) as [HA0|HA0].
      - assert (S = 0) by nra. subst S. rewrite H, HA0. nra.
      - assert (0 < A) by lra.
        assert (0 <= A * (A * (y * y) + B * (x * x) - 2 * S * x * y)).
        { pose proof (Rle_0_sqr (A * y - S * x)) as Hsq. unfold Rsqr in Hsq. nra. }
        nra. }
    nra.
Qed.

Lemma norm_nonneg (a : list R) : 0 <= norm a.
Proof. apply sqrt_pos. Qed.

Lemma norm_sqr (a : list R) : norm a * norm a = dot a a.
Proof. apply sqrt_sqrt, dot_self_nonneg. Qed.

Lemma dot_abs_le (a b : list R) :
  length a = length b -> - (norm a * norm b) <= dot a b <= norm a * norm b.
Proof.
  intros Hlen. pose proof (dot_squared_le a b Hlen) as Hcs.
  rewrite <- (norm_sqr a), <- (norm_sqr b) in Hcs.
  pose proof (norm_nonneg a). pose proof (norm_nonneg b).
  assert (0 <= norm a * norm b) by nra.
  split; nra.
Qed.

Lemma cosineSimilarity_bounds (a b : list R) :
  length a = length b -> -1 <= cosineSimilarity a b <= 1.
Proof.
  intros Hlen. rewrite (cosineSimilarity_sums a b Hlen).
  destruct (decide (norm a * norm b = 0)) as [_|Hd]; [lra|].
  pose proof (dot_abs_le a b Hlen) as [Hlo Hhi].
  pose proof (norm_nonneg a). pose proof (norm_nonneg b).
  assert (Hpos : 0 < norm a * norm b) by nra.
  split.
  - apply (Rmult_le_reg_r (norm a * norm b)); [exact Hpos|].
    unfold Rdiv. rewrite Rmult_assoc, Rinv_l by exact Hd. lra.
  - apply (Rmult_le_reg_r (norm a * norm b)); [exact Hpos|].
    unfold Rdiv. rewrite Rmult_assoc, Rinv_l by exact Hd. lra.
Qed.

Lemma norm_3_4 : norm [3; 4] = 5.
Proof.
  unfold norm. cbn [dot]. replace (3 * 3 + (4 * 4 + 0)) with (5 * 5) by lra.
  apply sqrt_square. lra.
Qed.

Lemma norm_4_3 : norm [4; 3] = 5.
Proof.
  unfold norm. cbn [dot]. replace (4 * 4 + (3 * 3 + 0)) with (5 * 5) by lra.
  apply sqrt_square. lra.
Qed.

Lemma norm_opposite : norm [-3; -4] = 5.
Proof.
  unfold norm. cbn [dot]. replace (-3 * -3 + (-4 * -4 + 0)) with (5 * 5) by lra.
  apply sqrt_square. lra.
Qed.

Lemma cosine_same : cosineSimilarity [3; 4] [3; 4] = 1.
Proof.
  rewrite cosineSimilarity_sums by reflexivity. rewrite norm_3_4.
  rewrite decide_False by lra. cbn [dot]. lra.
Qed.

Lemma cosine_near : cosineSimilarity [3; 4] [4; 3] = 24 / 25.
Proof.
  rewrite cosineSimilarity_sums by reflexivity. rewrite norm_3_4, norm_4_3.
  rewrite decide_False by lra. cbn [dot]. lra.
Qed.

Lemma cosine_opposite : cosineSimilarity [3; 4] [-3; -4] = -1.
Proof.
  rewrite cosineSimilarity_sums by reflexivity. rewrite norm_3_4, norm_opposite.
  rewrite decide_False by lra. cbn [dot]. lra.
Qed.

(** In exact arithmetic: the formula, the zero norm, the bounds
    (Cauchy-Schwarz) and the similarity of a vector with itself. *)
Lemma cosineSimilarity_exact (a b : list R) :
  length a = length b ->
  (norm a = 0 \/ norm b = 0 -> cosineSimilarity a b = 0)
  /\ (norm a <> 0 -> norm b <> 0 -> cosineSimilarity a b = dot a b / (norm a * norm b))
  /\ -1 <= cosineSimilarity a b <= 1
  /\ (Exists (fun x => x <> 0) a -> cosineSimilarity a a = 1).
Proof.
  intros Hlen. split; [|split; [|split]].
  - intros Hzero. rewrite (cosineSimilarity_sums a b Hlen).
    rewrite decide_True; [reflexivity|]. destruct Hzero as [-> | ->]; lra.
  - intros Ha Hb. rewrite (cosineSimilarity_sums a b Hlen).
    rewrite decide_False; [reflexivity|]. nra.
  - now apply cosineSimilarity_bounds.
  - intros Hnz. rewrite (cosineSimilarity_sums a a eq_refl).
    pose proof (dot_self_pos a Hnz) as Hpos.
    rewrite norm_sqr. rewrite decide_False by lra.
    unfold Rdiv. apply Rinv_r. lra.
Qed.

End Cosine.

Section CosineInDoubles.
Import Props.
Local Open Scope float_scope.

Lemma cosine_loop_doubles (a b pa pb : list float) (d na nb : float) :
  length a = length b -> length pa = length pb ->
  fold_left
    (fun '(dot, normA, normB) i =>
       (dot + nth i (pa ++ a) nan * nth i (pb ++ b) nan,
        normA + nth i (pa ++ a) nan * nth i (pa ++ a) nan,
        normB + nth i (pb ++ b) nan * nth i (pb ++ b) nan))
    (seq (length pa) (length a)) (d, na, nb)
  = (fold_left (fun acc xy => acc + fst xy * snd xy) (combine a b) d,
     fold_left (fun acc xy => acc + fst xy * snd xy) (combine a a) na,
     fold_left (fun acc xy => acc + fst xy * snd xy) (combine b b) nb).
Proof.
  revert b pa pb d na nb.
  induction a as [|x a IH]; intros [|y b] pa pb d na nb Hlen Hp; try discriminate.
  - reflexivity.
  - simpl in Hlen. injection Hlen as Hlen.
    cbn [length seq fold_left combine fst snd].
    assert (Hx : nth (length pa) (pa ++ x :: a) nan = x)
      by (rewrite app_nth2, Nat.sub_diag by lia; reflexivity).
    assert (Hy : nth (length pa) (pb ++ y :: b) nan = y)
      by (rewrite Hp, app_nth2, Nat.sub_diag by lia; reflexivity).
    rewrite Hx, Hy.
    replace (S (length pa)) with (length (pa ++ [x])) by (rewrite length_app; simpl; lia).
    rewrite (cons_middle x pa a), (cons_middle y pb b), !app_assoc.
    rewrite IH by (rewrite ?length_app; simpl; lia).
    reflexivity.
Qed.

(** On doubles the function is the rounded quotient of the rounded
    sums. *)
Lemma cosineSimilarity_doubles (a b : list float) :
  length a = length b ->
  Binary64.cosineSimilarity a b =
  let denominator :=
    PrimFloat.sqrt (sumOfProducts a a) * PrimFloat.sqrt (sumOfProducts b b) in
  if PrimFloat.eqb denominator 0 then 0 else sumOfProducts a b / denominator.
Proof.
  intros Hlen. unfold Binary64.cosineSimilarity.
  pose proof (cosine_loop_doubles a b [] [] 0 0 0 Hlen eq_refl) as Hloop.
  cbn [app length] in Hloop. rewrite Hloop. reflexivity.
Qed.

(** A product of two finite doubles one of which is zero is zero. *)
Lemma product_with_zero (x y : float) :
  PrimFloat.eqb x 0 = true \/ PrimFloat.eqb y 0 = true ->
  PrimFloat.is_finite x = true -> PrimFloat.is_finite y = true ->
  PrimFloat.eqb (x * y) 0 = true.
Proof.
  unfold PrimFloat.is_finite, PrimFloat.is_nan, PrimFloat.is_infinity.
  rewrite !FloatAxioms.eqb_spec, !FloatAxioms.abs_spec, FloatAxioms.mul_spec.
  change (Prim2SF 0) with (S754_zero false).
  change (Prim2SF infinity) with (S754_infinity false).
  destruct (Prim2SF x) as [sx|sx| |sx mx ex], (Prim2SF y) as [sy|sy| |sy my ey];
    cbn; intros Hzero Hx Hy; try discriminate; try reflexivity.
  all: destruct Hzero as [Hzero|Hzero]; revert Hzero; try destruct sx; try destruct sy; cbn;
    discriminate.
Qed.

(** C6, as the claim states it, fails in the arithmetic the code runs
    in: the similarity of [[1, 1, 1]] with itself comes out as
    1.0000000000000002 (the square of the rounded square root of 3 is
    below 3), which is neither 1 nor within [-1, 1]; and that of
    [[2^600, 2^600]] with itself, the squares of which overflow, is not
    a number at all. *)
Lemma C6_self_similarity_exceeds_one :
  PrimFloat.ltb 1 (Binary64.cosineSimilarity [1; 1; 1] [1; 1; 1]) = true
  /\ PrimFloat.eqb (Binary64.cosineSimilarity [1; 1; 1] [1; 1; 1]) 1 = false
  /\ PrimFloat.is_nan (Binary64.cosineSimilarity [0x1p600; 0x1p600] [0x1p600; 0x1p600])
     = true.
Proof. repeat split; vm_compute; reflexivity. Qed.

(** And that of [[1, 1]] with itself as 0.9999999999999998. *)
Example self_similarity_below_one :
  PrimFloat.ltb (Binary64.cosineSimilarity [1; 1] [1; 1]) 1 = true.
Proof. vm_compute. reflexivity. Qed.

(** The vectors of the examples above, whose norm is a whole number,
    lose nothing. *)
Example self_similarity_exact :
  PrimFloat.eqb (Binary64.cosineSimilarity [3; 4] [3; 4]) 1 = true.
Proof. vm_compute. reflexivity. Qed.

(** Parallel vectors of very different magnitude: the norm of the large
    one overflows and the similarity comes out as 0. *)
Example parallel_vectors_scored_zero :
  Binary64.cosineSimilarity [0x1p600] [1] = 0.
Proof. vm_compute. reflexivity. Qed.

End CosineInDoubles.

Section CosineClaim.
Import JS LargeDocuments Props.

(** C6 (amended): for vectors of equal length.  In exact (real)
    arithmetic [cosineSimilarity a b] is dot(a,b) / (||a|| * ||b||),
    exactly 0 when either norm is 0, within [-1, 1], and 1 for a vector
    that is not zero with itself.  In double-precision arithmetic it is
    the rounded sum of products divided by the rounded product of the
    rounded norms, and exactly 0 when that product is 0, which it is
    when either rounded norm is 0 and both are finite; the bounds and
    the similarity of a vector with itself do not carry over: that of
    [[1, 1, 1]] is 1 + 2^-52, above 1, that of [[2^600, 2^600]] is NaN (the norms
    overflow), that of [[2^-600, 2^-600]] is 0 (the norms underflow),
    and the similarity of [[0]] with [[2^600]] is NaN, not 0. *)
Theorem C6_cosine_similarity :
  (forall a b : list R,
      length a = length b ->
      ((norm a = 0 \/ norm b = 0 -> cosineSimilarity a b = 0)
       /\ (norm a <> 0 -> norm b <> 0 ->
           cosineSimilarity a b = dot a b / (norm a * norm b))
       /\ -1 <= cosineSimilarity a b <= 1
       /\ (Exists (fun x => x <> 0) a -> cosineSimilarity a a = 1))%R)
  /\ (forall a b : list float,
        length a = length b ->
        let normA := PrimFloat.sqrt (sumOfProducts a a) in
        let normB := PrimFloat.sqrt (sumOfProducts b b) in
        (Binary64.cosineSimilarity a b =
         if PrimFloat.eqb (normA * normB) 0 then 0
         else sumOfProducts a b / (normA * normB))%float
        /\ (PrimFloat.eqb normA 0 = true \/ PrimFloat.eqb normB 0 = true ->
            PrimFloat.is_finite normA = true -> PrimFloat.is_finite normB = true ->
            Binary64.cosineSimilarity a b = 0%float))
  /\ (Binary64.cosineSimilarity [1; 1; 1] [1; 1; 1] = 0x1.0000000000001p+0
      /\ PrimFloat.ltb 1 0x1.0000000000001p+0 = true
      /\ PrimFloat.is_nan (Binary64.cosineSimilarity [0x1p600; 0x1p600] [0x1p600; 0x1p600])
         = true
      /\ Binary64.cosineSimilarity [0x1p-600; 0x1p-600] [0x1p-600; 0x1p-600] = 0
      /\ PrimFloat.is_nan (Binary64.cosineSimilarity [0] [0x1p600]) = true)%float.
Proof.
  split; [|split].
  - intros a b Hlen. now apply cosineSimilarity_exact.
  - intros a b Hlen normA normB.
    pose proof (cosineSimilarity_doubles a b Hlen) as Hcos. cbv zeta in Hcos.
    fold normA normB in Hcos. split; [exact Hcos|].
    intros Hzero HA HB. rewrite Hcos.
    now rewrite (product_with_zero normA normB Hzero HA HB).
  - repeat split; vm_compute; reflexivity.
Qed.

Lemma C6_cosine_similarity_witness :
  (-1 <= cosineSimilarity [3; 4] [4; 3] <= 1
   /\ cosineSimilarity [3; 4] [3; 4] = 1
   /\ cosineSimilarity [3; 4] [0; 0] = 0)%R
  /\ Binary64.cosineSimilarity [0; 0]%float [3; 4]%float = 0%float.
Proof.
  destruct C6_cosine_similarity as (Hexact & Hdoubles & _).
  split; [split; [|split]|].
  - apply (Hexact [3; 4] [4; 3] eq_refl)%R.
  - apply (Hexact [3; 4] [3; 4] eq_refl)%R.
    apply Exists_cons_hd. lra.
  - apply (Hexact [3; 4] [0; 0] eq_refl)%R.
    right. unfold norm. simpl. replace (0 * 0 + (0 * 0 + 0))%R with 0%R by lra.
    apply sqrt_0.
  - apply (Hdoubles [0; 0]%float [3; 4]%float eq_refl); [left| |]; vm_compute; reflexivity.
Defined.

End CosineClaim.

(* ===================================================================== *)
(** ** Sorting, rank maps and rank fusion                                *)
(* ===================================================================== *)

Section SortByKey.
Import JS Props.
Context {A : Type} (key : A -> R).

Lemma insert_perm (x : A) (l : list A) : insert (descending key) x l ≡ₚ x :: l.
Proof.
  induction l as [|y l IH]; simpl; [reflexivity|].
  destruct (decide _); [reflexivity|].
  rewrite IH. apply Permutation_swap.
Qed.

Lemma sort_perm (l : list A) : sort (descending key) l ≡ₚ l.
Proof.
  induction l as [|x l IH]; simpl; [reflexivity|].
  rewrite insert_perm. now rewrite IH.
Qed.

Lemma insert_sorted (x : A) (l : list A) :
  StronglySorted (fun a b => (key b <= key a)%R) l ->
  StronglySorted (fun a b => (key b <= key a)%R) (insert (descending key) x l).
Proof.
  induction 1 as [|y l Hs IH Hy]; simpl.
  - repeat constructor.
  - unfold descending at 1. destruct (decide _) as [Hle|Hgt].
    + constructor; [now constructor|].
      constructor; [lra|]. eapply Forall_impl; [exact Hy|]. simpl. intros z Hz. lra.
    + constructor; [exact IH|].
      rewrite insert_perm. constructor; [lra | exact Hy].
Qed.

Lemma sort_sorted (l : list A) :
  StronglySorted (fun a b => (key b <= key a)%R) (sort (descending key) l).
Proof.
  induction l as [|x l IH]; simpl; [constructor | now apply insert_sorted].
Qed.

(** Stability: the elements of one key value keep their input order. *)
Lemma insert_stable (v : R) (x : A) (l : list A) :
  filter (fun a => key a = v) (insert (descending key) x l)
  = filter (fun a => key a = v) (x :: l).
Proof.
  induction l as [|y l IH]; simpl; [reflexivity|].
  unfold descending at 1. destruct (decide _) as [Hle|Hgt]; [reflexivity|].
  rewrite filter_cons, IH, !filter_cons.
  destruct (decide (key y = v)), (decide (key x = v)); try reflexivity. lra.
Qed.

Lemma sort_stable (v : R) (l : list A) :
  filter (fun a => key a = v) (sort (descending key) l) = filter (fun a => key a = v) l.
Proof.
  induction l as [|x l IH]; simpl; [reflexivity|].
  rewrite insert_stable, !filter_cons, IH. reflexivity.
Qed.

End SortByKey.

Section RankMaps.
Import JS LargeDocuments Props.
Context {A : Type} (key : A -> string).



End RankMaps.

Section Fusion.
Import JS Reranker LargeDocuments Props.





End Fusion.

(* ===================================================================== *)
(** ** The search orchestrator                                           *)
(* ===================================================================== *)

Section Rounding.
Import JS LargeDocuments.
Local Open Scope R_scope.

Lemma round_integer (k : Z) : round (IZR k) = IZR k.
Proof.
  unfold round. f_equal. symmetry. apply Int_part_spec. lra.
Qed.

Lemma round_bounds (y : R) (lo hi : Z) :
  IZR lo <= y <= IZR hi -> IZR lo <= round y <= IZR hi.
Proof.
  intros [Hlo Hhi]. unfold round.
  destruct (base_Int_part (y + / 2)) as [Hfloor Hceil].
  split; apply IZR_le.
  - assert (IZR lo - 1 < IZR (Int_part (y + / 2))) by lra.
    rewrite <- minus_IZR in H. apply lt_IZR in H. lia.
  - assert (IZR (Int_part (y + / 2)) < IZR hi + 1) by lra.
    rewrite <- plus_IZR in H. apply lt_IZR in H. lia.
Qed.

(** A score that went through [Math.round(x * 100) / 100] is a whole
    number of hundredths. *)
Lemma round2_two_decimals (x : R) : exists n : Z, round2 x = IZR n / 100.
Proof. unfold round2, round. eauto. Qed.

Lemma round2_range (x : R) : 0 <= x <= 1 -> 0 <= round2 x <= 1.
Proof.
  intros Hx. unfold round2.
  destruct (round_bounds (x * 100) 0 100) as [Hlo Hhi]; lra.
Qed.

End Rounding.

Section SearchLemmas.
Import JS Reranker LargeDocuments Props.

Lemma setEach_other {A V} (key : A -> string) (value : A -> nat -> V)
    (items : list A) (k : nat) (m : gmap string V) (x : string) :
  x ∉ map key items -> setEach key value items k m !! x = m !! x.
Proof.
  revert k m. induction items as [|y rest IH]; intros k m Hx; [reflexivity|].
  cbn [map] in Hx. apply not_elem_of_cons in Hx as [Hne Hrest].
  cbn [setEach]. rewrite (IH _ _ Hrest). now apply lookup_insert_ne.
Qed.

(** For distinct keys, the map a [forEach] of [set(key(item), f(item))]
    builds holds [f(item)] at the key of every item. *)
Lemma setEach_value {A V} (key : A -> string) (f : A -> V)
    (items : list A) (k : nat) (m : gmap string V) (item : A) :
  NoDup (map key items) -> item ∈ items ->
  setEach key (fun item _ => f item) items k m !! key item = Some (f item).
Proof.
  revert k m. induction items as [|y rest IH]; intros k m Hnd Hin.
  - now apply elem_of_nil in Hin.
  - cbn [map] in Hnd. apply NoDup_cons in Hnd as [Hy Hnd]. cbn [setEach].
    apply elem_of_cons in Hin as [->|Hin]; [|now apply IH].
    rewrite (setEach_other _ _ _ _ _ _ Hy). apply lookup_insert_eq.
Qed.

(** Every fused result belongs to a stored chunk and carries the cosine
    similarity of the query with that chunk as its semantic score. *)
Lemma fuse_semanticScore allChunks lexicalResults queryEmbedding rrfK (r : Combined) :
  NoDup (map id allChunks) ->
  r ∈ fuse allChunks lexicalResults queryEmbedding rrfK ->
  c_chunk r ∈ allChunks
  /\ semanticScore r = cosineSimilarity queryEmbedding (embedding (c_chunk r)).
Proof.
  intros Hnd Hr. unfold fuse in Hr. fold (descending rrfScore) in Hr.
  rewrite (sort_perm rrfScore) in Hr. unfold combinedResultsOf in Hr. cbv zeta in Hr.
  apply list_elem_of_In, in_map_iff in Hr as (c & <- & Hc). apply list_elem_of_In in Hc.
  split; [exact Hc|]. unfold combineChunk. cbv zeta. simpl.
  unfold rawSemanticScoresOf, semanticScoredOf. fold (descending s_score).
  pose (item := mkSemantic c (cosineSimilarity queryEmbedding (embedding c))).
  pose proof (setEach_value (fun item => id (s_chunk item)) s_score
                (sort (descending s_score)
                   (map (fun chunk => mkSemantic chunk
                           (cosineSimilarity queryEmbedding (embedding chunk))) allChunks))
                0 ∅ item) as Hlookup.
  cbv beta in Hlookup. change (id (s_chunk item)) with (id c) in Hlookup.
  rewrite Hlookup; [reflexivity| |].
  - rewrite (Permutation_map _ (sort_perm s_score _)), map_map. exact Hnd.
  - rewrite (sort_perm s_score). apply list_elem_of_In, in_map_iff. exists c.
    split; [reflexivity | now apply list_elem_of_In].
Qed.

Lemma fuse_length allChunks lexicalResults queryEmbedding rrfK :
  length (fuse allChunks lexicalResults queryEmbedding rrfK) = length allChunks.
Proof.
  unfold fuse. fold (descending rrfScore).
  rewrite (Permutation_length (sort_perm rrfScore _)).
  unfold combinedResultsOf. cbv zeta. apply length_map.
Qed.

Lemma slice0_all {A} (l : list A) (n : Z) : (Z.of_nat (length l) <= n)%Z -> slice0 l n = l.
Proof.
  intros Hn. unfold slice0. destruct (Z.ltb_spec n 0); [lia|].
  apply firstn_all2. lia.
Qed.

Lemma slice0_nonneg {A} (l : list A) (n : Z) :
  (0 <= n)%Z -> slice0 l n = firstn (Z.to_nat n) l.
Proof. intros Hn. unfold slice0. destruct (Z.ltb_spec n 0); [lia | reflexivity]. Qed.

Lemma slice0_subset {A} (l : list A) (n : Z) (x : A) : x ∈ slice0 l n -> x ∈ l.
Proof.
  unfold slice0. destruct (n <? 0)%Z; apply subseteq_take.
Qed.

Lemma filter_all {A} (P : A -> Prop) `{forall x, Decision (P x)} (l : list A) :
  Forall P l -> filter P l = l.
Proof.
  induction 1 as [|x l Hx _ IH]; [reflexivity|].
  rewrite filter_cons, decide_True by exact Hx. now rewrite IH.
Qed.

(** When every stored chunk reaches the threshold and the candidate
    pool is large enough, every chunk is a filtered candidate. *)
Lemma filteredOf_all env o allChunks lexicalResults queryEmbedding :
  NoDup (map id allChunks) ->
  Forall (fun c => (cosineSimilarity queryEmbedding (embedding c) >= minThresholdOf o)%R)
         allChunks ->
  (Z.of_nat (length allChunks)
   <= (if shouldRerankOf env o then retrieveKOf o else topKOf o))%Z ->
  filteredOf env o (fuse allChunks lexicalResults queryEmbedding (rrfKOf o))
  = fuse allChunks lexicalResults queryEmbedding (rrfKOf o).
Proof.
  intros Hnd Hall Hcount. unfold filteredOf. cbv zeta.
  rewrite slice0_all by (now rewrite fuse_length).
  apply filter_all, Forall_forall. intros r Hr.
  apply (fuse_semanticScore _ _ _ _ _ Hnd) in Hr as [Hc ->].
  rewrite Forall_forall in Hall. now apply Hall.
Qed.

(** [mapThrow] over callbacks that do not throw. *)
Lemma mapThrow_Ok {A B} (f : nat -> A -> result B) (g : A -> B) (l : list A) (k : nat) :
  (forall i x, x ∈ l -> f i x = Ok (g x)) -> mapThrow f k l = Ok (map g l).
Proof.
  revert k. induction l as [|x l IH]; intros k Hf; [reflexivity|].
  cbn [mapThrow map]. rewrite Hf by (apply elem_of_cons; now left). cbn [bind].
  rewrite IH; [reflexivity|]. intros i y Hy. apply Hf. (apply elem_of_cons; now right).
Qed.

(** What [mapThrow] returns when no callback throws. *)
Lemma mapThrow_inv {A B} (f : nat -> A -> result B) (l : list A) (k : nat) (ys : list B) :
  mapThrow f k l = Ok ys ->
  Forall2 (fun x y => exists i, f i x = Ok y) l ys.
Proof.
  revert k ys. induction l as [|x l IH]; intros k ys Hm; cbn [mapThrow] in Hm.
  - injection Hm as <-. constructor.
  - destruct (f k x) as [y|] eqn:Hy; [|discriminate]. cbn [bind] in Hm.
    destruct (mapThrow f (S k) l) as [ys'|] eqn:Hys; [|discriminate].
    cbn [bind] in Hm. injection Hm as <-.
    constructor; [eauto | eapply IH; eassumption].
Qed.

End SearchLemmas.

Section EmbeddedPath.
Import JS Reranker LargeDocuments Props.

Variables (env : LargeDocuments.Env) (query : string) (o : LargeDocumentSearchOptions).
Variables (chunks : list LargeDocumentChunk) (lexicalResults : list LargeDocLexicalResult).
Variables (queryEmbedding : list R) (queryType : string) (withDocumentId : bool).
Variable metaDocumentId : gmap string JsValue -> JsValue.
Variable metaDoc : gmap string JsValue -> option LargeDocumentMetadata.
Variable chunkDocumentId : LargeDocumentChunk -> string.
Variable chunkDoc : LargeDocumentChunk -> option LargeDocumentMetadata.

Local Abbreviation filtered :=
  (filteredOf env o (fuse chunks lexicalResults queryEmbedding (rrfKOf o))).

Local Abbreviation finalResults :=
  (map (fusedResult chunkDocumentId chunkDoc (includeBreakdownOf o) queryType)
       (slice0 filtered (topKOf o))).

Local Abbreviation reranking :=
  (rerank (rerankerEnv env) query (map (rerankDocOf withDocumentId) filtered)
          (mkPartial
             (Given (nullish (o_rerankerBackend o) (getRecommendedReranker (rerankerEnv env))))
             Absent Absent Absent (Given (topKOf o)) Absent)).

Local Abbreviation embedded :=
  (searchEmbedded env query o chunks lexicalResults queryEmbedding queryType withDocumentId
                  metaDocumentId metaDoc chunkDocumentId chunkDoc).

Lemma slice0_nil {A} (n : Z) : slice0 (@nil A) n = [].
Proof. unfold slice0. destruct (n <? 0)%Z; apply firstn_nil. Qed.

(** No candidate left after the threshold: an empty list. *)
Lemma searchEmbedded_empty : filtered = [] -> embedded = Ok [].
Proof.
  unfold searchEmbedded. cbv zeta. now intros ->.
Qed.

(** Without reranking, or with at most one candidate: the first [topK]
    filtered candidates. *)
Lemma searchEmbedded_fused :
  shouldRerankOf env o && (1 <? length filtered)%nat = false -> embedded = Ok finalResults.
Proof.
  unfold searchEmbedded. cbv zeta. intros ->.
  destruct filtered; [now rewrite slice0_nil | reflexivity].
Qed.

(** With reranking and more than one candidate: what the reranker
    returns, each result turned into a search result; the fused results
    if that throws. *)
Lemma searchEmbedded_reranked :
  shouldRerankOf env o && (1 <? length filtered)%nat = true ->
  embedded =
  try_catch
    (bind reranking
          (fun reranked =>
             mapThrow (fun _ r => rerankedResult metaDocumentId metaDoc
                                    (includeBreakdownOf o) queryType r) 0 reranked))
    (fun _ => Ok finalResults).
Proof.
  unfold searchEmbedded. cbv zeta.
  intros Hre. rewrite Hre. destruct filtered as [|c cs] eqn:E; [|reflexivity].
  rewrite andb_comm in Hre. discriminate.
Qed.

(** The search always resolves once the query is embedded, and with one
    of two lists. *)
Lemma searchEmbedded_cases :
  exists results,
    embedded = Ok results
    /\ (results = finalResults
        \/ exists reranked,
             shouldRerankOf env o = true /\ (1 < length filtered)%nat
             /\ reranking = Ok reranked
             /\ mapThrow (fun _ r => rerankedResult metaDocumentId metaDoc
                                       (includeBreakdownOf o) queryType r) 0 reranked
                = Ok results).
Proof.
  destruct (shouldRerankOf env o && (1 <? length filtered)%nat) eqn:Hre.
  - rewrite (searchEmbedded_reranked Hre).
    apply andb_prop in Hre as [Hre Hlen]. apply Nat.ltb_lt in Hlen.
    destruct reranking as [reranked|e] eqn:Hrr; cbn [bind try_catch]; [|eauto].
    destruct (mapThrow _ 0 reranked) as [results|e] eqn:Hmap; cbn [try_catch]; [|eauto].
    exists results. split; [reflexivity|]. right. exists reranked. auto.
  - rewrite (searchEmbedded_fused Hre). eauto.
Qed.

(** Every score of the embedded path went through
    [Math.round(x * 100) / 100]. *)
Lemma searchEmbedded_two_decimals (results : list LargeDocumentSearchResult) :
  embedded = Ok results ->
  Forall (fun r => exists n : Z, score r = (IZR n / 100)%R) results.
Proof.
  intros Hres. destruct searchEmbedded_cases as (results' & Hres' & Hcases).
  rewrite Hres in Hres'. injection Hres' as <-.
  destruct Hcases as [-> | (reranked & _ & _ & _ & Hmap)].
  - apply Forall_map, Forall_forall. intros c _.
    apply round2_two_decimals.
  - apply mapThrow_inv in Hmap.
    clear Hres. induction Hmap as [|r res rs ress [i Hr] _ IH]; [constructor|].
    constructor; [|exact IH].
    unfold rerankedResult in Hr. destruct (res_metadata r); [|discriminate].
    injection Hr as <-. apply round2_two_decimals.
Qed.

(** A result that is not marked as reranked carries the rounded
    semantic score of a candidate that reached the threshold. *)
Lemma searchEmbedded_not_reranked (results : list LargeDocumentSearchResult) :
  embedded = Ok results ->
  Forall (fun r => reranked r = Some false ->
                   exists c, c ∈ filtered /\ score r = round2 (semanticScore c))
         results.
Proof.
  intros Hres. destruct searchEmbedded_cases as (results' & Hres' & Hcases).
  rewrite Hres in Hres'. injection Hres' as <-.
  destruct Hcases as [-> | (reranked & _ & _ & _ & Hmap)].
  - apply Forall_map, Forall_forall. intros c Hc _.
    exists c. split; [eapply slice0_subset; eassumption | reflexivity].
  - apply mapThrow_inv in Hmap.
    clear Hres. induction Hmap as [|r res rs ress [i Hr] _ IH]; [constructor|].
    constructor; [|exact IH].
    unfold rerankedResult in Hr. destruct (res_metadata r); [|discriminate].
    injection Hr as <-. discriminate.
Qed.

(** When the reranker passes the candidates through (the backend
    "none", or a backend that threw), the reranked path returns one
    result for every filtered candidate, however small [topK] is. *)
Lemma searchEmbedded_passed_through :
  shouldRerankOf env o = true -> (1 < length filtered)%nat ->
  reranking = Ok (passThrough (map (rerankDocOf withDocumentId) filtered)) ->
  exists results,
    embedded = Ok results
    /\ length results = length filtered
    /\ Forall (fun r => reranked r = Some true) results.
Proof.
  intros Hre Hlen Hpass.
  rewrite searchEmbedded_reranked
    by (rewrite Hre; apply andb_true_intro; split; [reflexivity | now apply Nat.ltb_lt]).
  rewrite Hpass. cbn [bind].
  set (toResult := fun r : RerankResult =>
         mkResult (metaDocumentId (default ∅ (res_metadata r)))
                  (filenameOr (metaDoc (default ∅ (res_metadata r))))
                  (res_text r)
                  (field (default ∅ (res_metadata r)) "headingPath")
                  (round2 (relevanceScore r))
                  (field (default ∅ (res_metadata r)) "chunkIndex")
                  (Some true)
                  (breakdown (includeBreakdownOf o)
                             (field (default ∅ (res_metadata r)) "matchedTerms"))
                  (breakdown (includeBreakdownOf o) queryType)).
  rewrite (mapThrow_Ok _ toResult).
  - cbn [try_catch]. eexists. split; [reflexivity|]. split.
    + unfold passThrough. now rewrite length_map, length_imap, length_map.
    + apply Forall_map, Forall_forall. intros r _. reflexivity.
  - intros _ r Hr. unfold passThrough in Hr.
    apply elem_of_lookup_imap in Hr as (i & d & -> & Hd).
    apply list_elem_of_lookup_2, list_elem_of_In, in_map_iff in Hd as (c & <- & _).
    reflexivity.
Qed.

End EmbeddedPath.

Section WholeCorpus.
Import JS Reranker LargeDocuments Props.

(** Without reranking, when every stored chunk reaches the threshold
    and [topK] covers the store, every chunk is returned, with its
    rounded cosine similarity as score. *)
Lemma searchEmbedded_every_chunk env query o chunks lexicalResults queryEmbedding queryType
    withDocumentId metaDocumentId metaDoc chunkDocumentId chunkDoc :
  shouldRerankOf env o = false ->
  NoDup (map id chunks) ->
  Forall (fun c => (cosineSimilarity queryEmbedding (embedding c) >= minThresholdOf o)%R)
         chunks ->
  (Z.of_nat (length chunks) <= topKOf o)%Z ->
  exists results,
    searchEmbedded env query o chunks lexicalResults queryEmbedding queryType withDocumentId
                   metaDocumentId metaDoc chunkDocumentId chunkDoc = Ok results
    /\ length results = length chunks
    /\ Forall (fun r => exists c, c ∈ chunks
                       /\ score r = round2 (cosineSimilarity queryEmbedding (embedding c)))
              results.
Proof.
  intros Hre Hnd Hall Hk.
  rewrite searchEmbedded_fused by (now rewrite Hre).
  rewrite filteredOf_all by (rewrite ?Hre; assumption).
  rewrite slice0_all by (now rewrite fuse_length).
  eexists. split; [reflexivity|]. split.
  - now rewrite length_map, fuse_length.
  - apply Forall_map, Forall_forall. intros r Hr.
    apply (fuse_semanticScore _ _ _ _ _ Hnd) in Hr as [Hc Hsem].
    exists (c_chunk r). split; [exact Hc|]. cbn [score fusedResult]. now rewrite Hsem.
Qed.

End WholeCorpus.

Section SearchClaims.
Import JS Reranker LargeDocuments Props.

(** The search over all documents, once the store and the embedding
    service have answered. *)
Lemma searchLargeDocuments_embedded env query topKOrOptions threshold
    (c : LargeDocumentChunk) (cs : list LargeDocumentChunk)
    (allDocs : list LargeDocumentMetadata) (queryEmbedding : list R) :
  getAllChunks env = Ok (c :: cs) -> getAllDocuments env = Ok allDocs ->
  embedQuery env query = Ok queryEmbedding ->
  searchLargeDocuments env query topKOrOptions threshold
  = searchEmbedded env query (resolveOptions topKOrOptions threshold) (c :: cs)
      (largeDocLexicalSearch env query (c :: cs)) queryEmbedding (detectQueryType env query)
      true
      (fun meta => field meta "documentId")
      (fun meta => docMapGet (docMapOf allDocs) (field meta "documentId"))
      documentId
      (fun c => docMapOf allDocs !! documentId c).
Proof.
  intros Hchunks Hdocs Hembed. unfold searchLargeDocuments. cbv zeta.
  rewrite Hchunks. cbn [bind]. rewrite Hdocs. cbn [bind]. now rewrite Hembed.
Qed.

Lemma searchLargeDocuments_lexical env query topKOrOptions threshold
    (c : LargeDocumentChunk) (cs : list LargeDocumentChunk)
    (allDocs : list LargeDocumentMetadata) (e : string) :
  getAllChunks env = Ok (c :: cs) -> getAllDocuments env = Ok allDocs ->
  embedQuery env query = Throw e ->
  searchLargeDocuments env query topKOrOptions threshold
  = Ok (map (lexicalResult documentId (fun c => docMapOf allDocs !! documentId c)
                           (includeBreakdownOf (resolveOptions topKOrOptions threshold))
                           (detectQueryType env query))
            (slice0 (largeDocLexicalSearch env query (c :: cs))
                    (topKOf (resolveOptions topKOrOptions threshold)))).
Proof.
  intros Hchunks Hdocs Hembed. unfold searchLargeDocuments. cbv zeta.
  rewrite Hchunks. cbn [bind]. rewrite Hdocs. cbn [bind]. now rewrite Hembed.
Qed.

Lemma Forall2_map_same {A B} (f : A -> B) (l : list A) :
  Forall2 (fun x y => y = f x) l (map f l).
Proof. induction l; constructor; auto. Qed.

(** The number of results the search computes with is the one the call
    asks for. *)
Lemma topKOf_asked (topKOrOptions : option TopKOrOptions) (threshold : option R) :
  topKOf (resolveOptions topKOrOptions threshold) = askedTopK topKOrOptions.
Proof.
  destruct topKOrOptions as [[topK|options]|]; reflexivity.
Qed.

(** C2: when [embedQuery] throws, the search does not abort: it
    resolves with the ranked results of the lexical scorer cut to the
    [topK] the call asks for ([slice(0, topK)]: the number passed, or
    the [topK] of the options passed, or 10), in the same order, the
    score of each result being its lexical score.  Both for the search
    over all documents and for the search in one document.  (Over an
    empty store the search returns before it asks the scorer, which is
    taken to find nothing there.) *)
Theorem C2_embedding_failure_returns_lexical_ranking
    (env : LargeDocuments.Env) (query : string) (topKOrOptions : option TopKOrOptions)
    (threshold : option R) (e : string) :
  embedQuery env query = Throw e ->
  let topK := askedTopK topKOrOptions in
  (forall allChunks allDocs,
      getAllChunks env = Ok allChunks -> getAllDocuments env = Ok allDocs ->
      (allChunks = [] -> largeDocLexicalSearch env query [] = []) ->
      exists results,
        searchLargeDocuments env query topKOrOptions threshold = Ok results
        /\ Forall2 same_hit (slice0 (largeDocLexicalSearch env query allChunks) topK) results
        /\ Forall2 (fun l r => r_documentId r = JString (documentId (chunk l)))
                   (slice0 (largeDocLexicalSearch env query allChunks) topK) results)
  /\ (forall docId chunks doc,
        getChunksByDocument env docId = Ok chunks -> getDocument env docId = Ok doc ->
        (chunks = [] -> largeDocLexicalSearch env query [] = []) ->
        exists results,
          searchLargeDocument env docId query topKOrOptions threshold = Ok results
          /\ Forall2 same_hit (slice0 (largeDocLexicalSearch env query chunks) topK) results
          /\ Forall (fun r => r_documentId r = JString docId) results)
  /\ (forall (ranked : list LargeDocLexicalResult),
        (0 <= topK)%Z -> slice0 ranked topK = firstn (Z.to_nat topK) ranked)
  /\ (forall (ranked : list LargeDocLexicalResult),
        (0 <= topK)%Z -> (Z.to_nat topK < length ranked)%nat ->
        length (slice0 ranked topK) = Z.to_nat topK).
Proof.
  intros Hembed. cbv zeta. rewrite <- (topKOf_asked topKOrOptions threshold).
  split; [|split; [|split]].
  - intros [|c cs] allDocs Hchunks Hdocs Hnil.
    + exists []. unfold searchLargeDocuments. cbv zeta. rewrite Hchunks. cbn [bind].
      rewrite (Hnil eq_refl), slice0_nil. repeat split; constructor.
    + rewrite (searchLargeDocuments_lexical _ _ _ _ _ _ _ _ Hchunks Hdocs Hembed).
      eexists. split; [reflexivity|]. split.
      * eapply Forall2_impl; [apply Forall2_map_same|].
        intros l r ->. repeat split.
      * eapply Forall2_impl; [apply Forall2_map_same|]. now intros l r ->.
  - intros docId [|c cs] doc Hchunks Hdoc Hnil.
    + exists []. unfold searchLargeDocument. cbv zeta. rewrite Hchunks. cbn [bind].
      rewrite (Hnil eq_refl), slice0_nil. repeat split; constructor.
    + unfold searchLargeDocument. cbv zeta. rewrite Hchunks. cbn [bind].
      rewrite Hdoc. cbn [bind]. rewrite Hembed.
      eexists. split; [reflexivity|]. split.
      * eapply Forall2_impl; [apply Forall2_map_same|].
        intros l r ->. repeat split.
      * apply Forall_map, Forall_forall. now intros l _.
  - intros ranked Hk. now apply slice0_nonneg.
  - intros ranked Hk Hlen. rewrite slice0_nonneg by exact Hk.
    rewrite length_firstn. lia.
Qed.

(** Three hits, ranked against the order of the store, and two results
    asked for: the two best hits come back, best first.  The same with
    the number given in an options object, and for the search in the
    document. *)
Lemma C2_embedding_failure_witness :
  exists results,
    searchLargeDocuments (rankedEnv threeChunks) "algorithm" (Some (TopK 2)) None = Ok results
    /\ Forall2 same_hit
         [mkLexical opposite 3 ["algorithm"]; mkLexical bubble 2 ["algorithm"]] results.
Proof.
  destruct (C2_embedding_failure_returns_lexical_ranking
              (rankedEnv threeChunks) "algorithm" (Some (TopK 2)) None "503" eq_refl)
    as (Hall & _ & _).
  destruct (Hall threeChunks [sampleDocument] eq_refl eq_refl) as (results & Hres & Hhits & _).
  - discriminate.
  - exists results. split; [exact Hres | exact Hhits].
Defined.

Example lexical_fallback_cuts_to_the_number_given :
  searchLargeDocuments (rankedEnv threeChunks) "algorithm" (Some (TopK 2)) None
  = Ok [ mkResult (JString "d1") "algorithms.md" "Unrelated" (JString "Misc") 3
                  (JNumber 2) None None None;
         mkResult (JString "d1") "algorithms.md" "Bubble sort is a sorting algorithm"
                  (JString "Sorting") 2 (JNumber 1) None None None ].
Proof. reflexivity. Qed.

Example lexical_fallback_cuts_to_the_topK_of_the_options :
  searchLargeDocuments (rankedEnv threeChunks) "algorithm"
    (Some (Options (mkOptions (Some 1%Z) None None None None None None))) None
  = Ok [ mkResult (JString "d1") "algorithms.md" "Unrelated" (JString "Misc") 3
                  (JNumber 2) None None None ].
Proof. reflexivity. Qed.

Example lexical_fallback_defaults_to_ten :
  searchLargeDocuments (rankedEnv threeChunks) "algorithm" None None
  = Ok (map (lexicalResult documentId (fun _ => Some sampleDocument) false "mixed")
            (rankedLexicalSearch "algorithm" threeChunks)).
Proof. reflexivity. Qed.

(** C9 (amended): the search resolves with an empty list, not an error,
    when the store holds no chunk and when no candidate survives the
    threshold on the semantic score (in particular when no chunk
    reaches it).  For an empty query there is no guard; the list is then
    empty when, as for any query, the embedding fails and the lexical
    scorer finds nothing. *)
Theorem C9_empty_result_lists
    (env : LargeDocuments.Env) (query : string) (topKOrOptions : option TopKOrOptions)
    (threshold : option R) :
  let o := resolveOptions topKOrOptions threshold in
  (getAllChunks env = Ok [] ->
   searchLargeDocuments env query topKOrOptions threshold = Ok [])
  /\ (forall allChunks allDocs queryEmbedding,
        getAllChunks env = Ok allChunks -> getAllDocuments env = Ok allDocs ->
        embedQuery env query = Ok queryEmbedding ->
        filteredOf env o (fuse allChunks (largeDocLexicalSearch env query allChunks)
                               queryEmbedding (rrfKOf o)) = [] ->
        searchLargeDocuments env query topKOrOptions threshold = Ok [])
  /\ (forall allChunks allDocs queryEmbedding,
        getAllChunks env = Ok allChunks -> getAllDocuments env = Ok allDocs ->
        embedQuery env query = Ok queryEmbedding ->
        NoDup (map id allChunks) ->
        Forall (fun c => (cosineSimilarity queryEmbedding (embedding c) < minThresholdOf o)%R)
               allChunks ->
        searchLargeDocuments env query topKOrOptions threshold = Ok [])
  /\ (forall allChunks allDocs e,
        getAllChunks env = Ok allChunks -> getAllDocuments env = Ok allDocs ->
        embedQuery env query = Throw e ->
        largeDocLexicalSearch env query allChunks = [] ->
        searchLargeDocuments env query topKOrOptions threshold = Ok []).
Proof.
  cbv zeta.
  assert (Hfiltered : forall allChunks allDocs queryEmbedding,
    getAllChunks env = Ok allChunks -> getAllDocuments env = Ok allDocs ->
    embedQuery env query = Ok queryEmbedding ->
    filteredOf env (resolveOptions topKOrOptions threshold)
      (fuse allChunks (largeDocLexicalSearch env query allChunks) queryEmbedding
            (rrfKOf (resolveOptions topKOrOptions threshold))) = [] ->
    searchLargeDocuments env query topKOrOptions threshold = Ok []).
  { intros [|c cs] allDocs queryEmbedding Hchunks Hdocs Hembed Hnone.
    - unfold searchLargeDocuments. cbv zeta. now rewrite Hchunks.
    - rewrite (searchLargeDocuments_embedded _ _ _ _ _ _ _ _ Hchunks Hdocs Hembed).
      now apply searchEmbedded_empty. }
  split; [|split; [|split]].
  - intros Hchunks. unfold searchLargeDocuments. cbv zeta. now rewrite Hchunks.
  - exact Hfiltered.
  - intros allChunks allDocs queryEmbedding Hchunks Hdocs Hembed Hnd Hlow.
    apply (Hfiltered allChunks allDocs queryEmbedding Hchunks Hdocs Hembed).
    unfold filteredOf. cbv zeta.
    match goal with |- filter ?P ?l = [] => destruct (filter P l) as [|r rs] eqn:Hf end;
      [reflexivity|].
    assert (Hr : r ∈ filter (fun r => (semanticScore r
                    >= minThresholdOf (resolveOptions topKOrOptions threshold))%R)
                  (slice0 (fuse allChunks (largeDocLexicalSearch env query allChunks)
                                queryEmbedding
                                (rrfKOf (resolveOptions topKOrOptions threshold)))
                          (if shouldRerankOf env (resolveOptions topKOrOptions threshold)
                           then retrieveKOf (resolveOptions topKOrOptions threshold)
                           else topKOf (resolveOptions topKOrOptions threshold))))
      by (rewrite Hf; apply elem_of_cons; now left).
    apply list_elem_of_filter in Hr as [Hge Hr]. apply slice0_subset in Hr.
    apply (fuse_semanticScore _ _ _ _ _ Hnd) in Hr as [Hc Hsem].
    rewrite Forall_forall in Hlow. specialize (Hlow _ Hc). rewrite Hsem in Hge. lra.
  - intros [|c cs] allDocs e Hchunks Hdocs Hembed Hlex.
    + unfold searchLargeDocuments. cbv zeta. now rewrite Hchunks.
    + rewrite (searchLargeDocuments_lexical _ _ _ _ _ _ _ _ Hchunks Hdocs Hembed).
      now rewrite Hlex, slice0_nil.
Qed.

Lemma C9_empty_result_witness :
  searchLargeDocuments (sampleEnv [] (fun _ => Ok [3; 4]%R)) "primes" None None = Ok []
  /\ searchLargeDocuments (sampleEnv [opposite] (fun _ => Ok [3; 4]%R)) "primes" None None
     = Ok [].
Proof.
  split.
  - apply (C9_empty_result_lists (sampleEnv [] (fun _ => Ok [3; 4]%R)) "primes" None None).
    reflexivity.
  - destruct (C9_empty_result_lists (sampleEnv [opposite] (fun _ => Ok [3; 4]%R))
                                    "primes" None None) as (_ & _ & Hlow & _).
    apply (Hlow [opposite] [sampleDocument] [3; 4]%R eq_refl eq_refl eq_refl).
    + apply NoDup_ListNoDup. repeat constructor. simpl. tauto.
    + apply Forall_singleton. cbn [embedding opposite].
      rewrite cosine_opposite. unfold minThresholdOf, nullish. simpl. lra.
Defined.

(** C9, as the claim states it, fails for the empty query: when the
    embedding service answers it with a vector, the chunks that reach
    the threshold are returned. *)
Lemma C9_empty_query_returns_results :
  exists results,
    searchLargeDocuments (sampleEnv [sieve] (fun _ => Ok [3; 4]%R)) "" None None = Ok results
    /\ results <> [].
Proof.
  rewrite (searchLargeDocuments_embedded _ _ _ _ sieve [] [sampleDocument] [3; 4]%R)
    by reflexivity.
  edestruct searchEmbedded_every_chunk as (results & -> & Hlen & _).
  - reflexivity.
  - apply NoDup_ListNoDup. repeat constructor. simpl. tauto.
  - apply Forall_singleton. cbn [embedding sieve].
    rewrite cosine_same. unfold minThresholdOf, nullish. simpl. lra.
  - simpl. unfold topKOf, nullish. simpl. lia.
  - exists results. split; [reflexivity|]. intros ->. discriminate.
Qed.

(** C5, as the claim states it, fails: with a threshold of -1 a chunk
    whose embedding is opposite to the query is returned with the score
    -1, which is not between 0 and 1. *)
Lemma C5_score_below_zero :
  exists results,
    searchLargeDocuments (sampleEnv [opposite] (fun _ => Ok [3; 4]%R)) "primes"
                         (Some (Options acceptAll)) None = Ok results
    /\ results <> []
    /\ Forall (fun r => ~ (0 <= score r <= 1)%R) results.
Proof.
  rewrite (searchLargeDocuments_embedded _ _ _ _ opposite [] [sampleDocument] [3; 4]%R)
    by reflexivity.
  edestruct searchEmbedded_every_chunk as (results & -> & Hlen & Hscores).
  - reflexivity.
  - apply NoDup_ListNoDup. repeat constructor. simpl. tauto.
  - apply Forall_singleton. cbn [embedding opposite].
    rewrite cosine_opposite. unfold minThresholdOf, nullish. simpl. lra.
  - simpl. unfold topKOf, nullish. simpl. lia.
  - exists results. split; [reflexivity|]. split; [intros ->; discriminate|].
    eapply Forall_impl; [exact Hscores|]. intros r (c & Hc & ->).
    apply list_elem_of_singleton in Hc as ->. cbn [embedding opposite].
    rewrite cosine_opposite. unfold round2.
    replace (-1 * 100)%R with (IZR (-100)) by lra. rewrite round_integer. lra.
Qed.

(** The lexical-only path hands the lexical score on as it is: here
    5/2, neither rounded by the search nor within [0, 1]. *)
Example lexical_fallback_score :
  map score
      (match searchLargeDocuments (sampleEnv sampleChunks (fun _ => Throw "503"))
                                  "prime number algorithm" None None with
       | Ok results => results
       | Throw _ => []
       end)
  = [(5 / 2)%R].
Proof. reflexivity. Qed.

(** C5 (amended): on the paths that embed the query (reranked and
    non-reranked fused results) every score is
    [Math.round(x * 100) / 100], a whole number of hundredths; the
    rounding keeps a score of [0, 1] in [0, 1], and on the non-reranked
    path the score is in [0, 1] whenever the threshold is not negative;
    on the lexical-only path the score is the lexical score itself. *)
Theorem C5_scores_are_rounded
    (env : LargeDocuments.Env) (query : string) (topKOrOptions : option TopKOrOptions)
    (threshold : option R) (results : list LargeDocumentSearchResult) :
  searchLargeDocuments env query topKOrOptions threshold = Ok results ->
  let o := resolveOptions topKOrOptions threshold in
  (forall queryEmbedding,
      embedQuery env query = Ok queryEmbedding ->
      Forall (fun r => exists n : Z, score r = (IZR n / 100)%R) results)
  /\ (forall queryEmbedding allChunks,
        embedQuery env query = Ok queryEmbedding ->
        getAllChunks env = Ok allChunks ->
        NoDup (map id allChunks) ->
        Forall (fun c => length (embedding c) = length queryEmbedding) allChunks ->
        (0 <= minThresholdOf o)%R ->
        Forall (fun r => reranked r = Some false -> (0 <= score r <= 1)%R) results)
  /\ (forall x, (0 <= x <= 1)%R -> (0 <= round2 x <= 1)%R)
  /\ (forall e allChunks,
        embedQuery env query = Throw e ->
        getAllChunks env = Ok allChunks ->
        allChunks <> [] ->
        map score results
        = map lexicalScore
              (slice0 (largeDocLexicalSearch env query allChunks) (topKOf o))).
Proof.
  intros Hres. cbv zeta.
  unfold searchLargeDocuments in Hres. cbv zeta in Hres.
  destruct (getAllChunks env) as [[|c cs]|] eqn:Hchunks; cbn [bind] in Hres;
    try discriminate.
  { injection Hres as <-. split; [|split; [|split]].
    - constructor.
    - constructor.
    - apply round2_range.
    - intros e allChunks _ [= <-] Hne. congruence. }
  destruct (getAllDocuments env) as [allDocs|] eqn:Hdocs; cbn [bind] in Hres;
    try discriminate.
  split; [|split; [|split]].
  - intros queryEmbedding Hembed. rewrite Hembed in Hres.
    eapply searchEmbedded_two_decimals; eassumption.
  - intros queryEmbedding allChunks Hembed [= <-] Hnd Hlen Hthr. rewrite Hembed in Hres.
    eapply Forall_impl; [eapply searchEmbedded_not_reranked; eassumption|].
    intros r Hr Hfalse. destruct (Hr Hfalse) as (x & Hx & ->).
    apply round2_range. unfold filteredOf in Hx. cbv zeta in Hx.
    apply list_elem_of_filter in Hx as [Hge Hx]. apply slice0_subset in Hx.
    apply (fuse_semanticScore _ _ _ _ _ Hnd) in Hx as [Hc Hsem].
    rewrite Forall_forall in Hlen. specialize (Hlen _ Hc).
    pose proof (cosineSimilarity_bounds queryEmbedding (embedding (c_chunk x))
                  (eq_sym Hlen)) as [_ Hhi].
    rewrite Hsem in Hge |- *. lra.
  - apply round2_range.
  - intros e allChunks Hembed [= <-] _. rewrite Hembed in Hres. injection Hres as <-.
    rewrite map_map. reflexivity.
Qed.

Lemma C5_scores_are_rounded_witness :
  exists results,
    searchLargeDocuments (sampleEnv [sieve] (fun _ => Ok [3; 4]%R)) "primes" None None
    = Ok results
    /\ Forall (fun r => exists n : Z, score r = (IZR n / 100)%R) results
    /\ Forall (fun r => reranked r = Some false -> (0 <= score r <= 1)%R) results.
Proof.
  assert (Hsearch : exists results,
             searchLargeDocuments (sampleEnv [sieve] (fun _ => Ok [3; 4]%R)) "primes"
                                  None None = Ok results).
  { rewrite (searchLargeDocuments_embedded _ _ _ _ sieve [] [sampleDocument] [3; 4]%R)
      by reflexivity.
    edestruct searchEmbedded_every_chunk as (results & -> & _); [reflexivity| | | |eauto].
    - apply NoDup_ListNoDup. repeat constructor. simpl. tauto.
    - apply Forall_singleton. cbn [embedding sieve].
      rewrite cosine_same. unfold minThresholdOf, nullish. simpl. lra.
    - simpl. unfold topKOf, nullish. simpl. lia. }
  destruct Hsearch as (results & Hres). exists results. split; [exact Hres|].
  destruct (C5_scores_are_rounded _ _ _ _ _ Hres) as (Hround & Hrange & _).
  split.
  - apply (Hround [3; 4]%R). reflexivity.
  - apply (Hrange [3; 4]%R [sieve]); try reflexivity.
    + apply NoDup_ListNoDup. repeat constructor. simpl. tauto.
    + repeat constructor.
    + unfold minThresholdOf, nullish. simpl. lra.
Defined.

(** C3 at a failing input: two chunks that both reach the threshold,
    reranking forced, one result asked for.  With the backend "none",
    and likewise with the backend "openai" forced without a key (the
    reranker catches the error and passes the candidates through), the
    reranker resolves and the search returns both candidates, marked as
    reranked: more than [topK = 1] results. *)
Theorem C3_reranked_results_exceed_topK :
  let env := sampleEnv sampleChunks (fun _ => Ok [3; 4]%R) in
  topKOf oneResultReranked = 1%Z
  /\ (exists results,
        searchLargeDocuments env "prime number algorithm" (Some (Options oneResultReranked)) None
        = Ok results
        /\ length results = 2%nat
        /\ Forall (fun r => reranked r = Some true) results)
  /\ (exists results,
        searchLargeDocuments env "prime number algorithm"
          (Some (Options (mkOptions (Some 1%Z) None (Some true) (Some "openai")
                                    None None None))) None
        = Ok results
        /\ length results = 2%nat
        /\ Forall (fun r => reranked r = Some true) results).
Proof.
  cbv zeta.
  assert (Hnd : NoDup (map id sampleChunks))
    by (apply NoDup_ListNoDup; repeat constructor; simpl; intuition discriminate).
  assert (Hall : forall o, minThresholdOf o = (3 / 10)%R ->
             Forall (fun c => (cosineSimilarity [3; 4] (embedding c) >= minThresholdOf o)%R)
                    sampleChunks).
  { intros o ->. apply Forall_cons. split; [|apply Forall_singleton];
      cbn [embedding sieve bubble].
    - rewrite cosine_same. lra.
    - rewrite cosine_near. lra. }
  split; [reflexivity|]. split.
  - rewrite (searchLargeDocuments_embedded _ _ _ _ sieve [bubble] [sampleDocument] [3; 4]%R)
      by reflexivity.
    edestruct searchEmbedded_passed_through as (results & -> & Hlen & Hmarked).
    + reflexivity.
    + rewrite filteredOf_all, fuse_length; [simpl; lia | exact Hnd | now apply Hall |].
      simpl. unfold retrieveKOf, nullish. simpl. lia.
    + apply rerank_none. reflexivity.
    + exists results. split; [reflexivity|]. split; [|exact Hmarked].
      rewrite Hlen, filteredOf_all, fuse_length; [reflexivity | exact Hnd | now apply Hall |].
      simpl. unfold retrieveKOf, nullish. simpl. lia.
  - rewrite (searchLargeDocuments_embedded _ _ _ _ sieve [bubble] [sampleDocument] [3; 4]%R)
      by reflexivity.
    edestruct searchEmbedded_passed_through as (results & -> & Hlen & Hmarked).
    + reflexivity.
    + rewrite filteredOf_all, fuse_length; [simpl; lia | exact Hnd | now apply Hall |].
      simpl. unfold retrieveKOf, nullish. simpl. lia.
    + apply (rerank_caught _ _ _ _ "OpenAI API key is required for reranking.").
      reflexivity.
    + exists results. split; [reflexivity|]. split; [|exact Hmarked].
      rewrite Hlen, filteredOf_all, fuse_length; [reflexivity | exact Hnd | now apply Hall |].
      simpl. unfold retrieveKOf, nullish. simpl. lia.
Qed.

End SearchClaims.

(* ===================================================================== *)
(** ** More on the chat chunker                                          *)
(* ===================================================================== *)

Section TrimFacts.
Import JS ChatChunker Props MoreProps.

Lemma trimEnd_nonempty_ink s : has_ink s = true -> trimEnd s <> "".
Proof.
  induction s as [|c s IH]; simpl; [discriminate|].
  intros H. destruct (trimEnd s) eqn:E; [|discriminate].
  destruct (is_whitespace c); [|discriminate]. simpl in H. now apply IH in H.
Qed.

Lemma trimEnd_idem s : trimEnd (trimEnd s) = trimEnd s.
Proof.
  induction s as [|c s IH]; simpl; [reflexivity|].
  destruct (trimEnd s) as [|d t] eqn:E.
  - destruct (is_whitespace c) eqn:Hc; simpl; [reflexivity | now rewrite Hc].
  - change (trimEnd (String c (String d t))) with
      (match trimEnd (String d t) with
       | EmptyString => if is_whitespace c then EmptyString else String c EmptyString
       | t' => String c t'
       end).
    now rewrite IH.
Qed.

Lemma trimEnd_length s : (String.length (trimEnd s) <= String.length s)%nat.
Proof.
  induction s as [|c s IH]; simpl; [lia|].
  destruct (trimEnd s); [destruct (is_whitespace c)|]; simpl in *; lia.
Qed.

Lemma trimStart_length s : (String.length (trimStart s) <= String.length s)%nat.
Proof.
  induction s as [|c s IH]; simpl; [lia|]. destruct (is_whitespace c); simpl; lia.
Qed.

Lemma trim_length s : (String.length (trim s) <= String.length s)%nat.
Proof.
  unfold trim. pose proof (trimEnd_length (trimStart s)). pose proof (trimStart_length s). lia.
Qed.

Lemma trimEnd_ink s : has_ink s = true -> has_ink (trimEnd s) = true.
Proof.
  induction s as [|c s IH]; simpl; [discriminate|].
  intros H. destruct (is_whitespace c) eqn:Hc; simpl in H.
  - specialize (IH H). destruct (trimEnd s) eqn:E; [discriminate|].
    simpl. rewrite Hc. exact IH.
  - destruct (trimEnd s); simpl; now rewrite Hc.
Qed.

Lemma trimStart_ink s : has_ink s = has_ink (trimStart s).
Proof.
  induction s as [|c s IH]; simpl; [reflexivity|].
  destruct (is_whitespace c) eqn:Hc; simpl; [exact IH | now rewrite Hc].
Qed.

(** A trimmed string is empty or shows ink. *)
Lemma trim_ink s : truthy (trim s) = has_ink s.
Proof.
  unfold trim. rewrite (trimStart_ink s).
  destruct (has_ink (trimStart s)) eqn:H.
  - pose proof (trimEnd_nonempty_ink _ H). now destruct (trimEnd (trimStart s)).
  - assert (E : trimStart s = "").
    { revert H. clear. induction s as [|c s IH]; simpl; [reflexivity|].
      destruct (is_whitespace c) eqn:Hc; [exact IH|]. simpl. now rewrite Hc. }
    now rewrite E.
Qed.

Lemma trim_idem s : trim (trim s) = trim s.
Proof.
  unfold trim.
  assert (H : trimStart (trimEnd (trimStart s)) = trimEnd (trimStart s)).
  { destruct (trimStart s) as [|c t] eqn:E; [reflexivity|].
    assert (Hc : is_whitespace c = false).
    { revert E. clear. induction s as [|d s IH]; simpl; [discriminate|].
      destruct (is_whitespace d) eqn:Hd; [exact IH|]. intros [= <- _]. exact Hd. }
    simpl. destruct (trimEnd t); rewrite ?Hc; simpl; now rewrite Hc. }
  rewrite H. apply trimEnd_idem.
Qed.

Lemma has_ink_app_r a b : has_ink b = true -> has_ink (a ++ b) = true.
Proof.
  intros H. induction a as [|c a IH]; rewrite ?app_nil, ?app_cons; [exact H|].
  simpl. rewrite IH. apply orb_true_r.
Qed.

Lemma has_ink_app_l a b : has_ink a = true -> has_ink (a ++ b) = true.
Proof.
  induction a as [|c a IH]; [discriminate|]. rewrite app_cons. simpl.
  destruct (is_whitespace c); simpl; [exact IH | reflexivity].
Qed.

(** Trailing white space is cut from the last part that shows ink. *)
Lemma trimEnd_app_ink p b : has_ink b = true -> trimEnd (p ++ b) = p ++ trimEnd b.
Proof.
  intros Hb. induction p as [|c p IH]; rewrite ?app_nil, ?app_cons; [reflexivity|].
  simpl. rewrite IH. destruct (p ++ trimEnd b) eqn:E; [|reflexivity].
  exfalso. apply (trimEnd_nonempty_ink b Hb).
  destruct p; rewrite ?app_nil, ?app_cons in E; [exact E | discriminate].
Qed.

Lemma prefix_app p s : String.prefix p (p ++ s) = true.
Proof.
  induction p as [|c p IH]; rewrite ?app_nil, ?app_cons; simpl.
  - now destruct s.
  - destruct (ascii_dec c c); [exact IH | congruence].
Qed.

Lemma estimateTokens_mono a b :
  (String.length a <= String.length b)%nat -> (estimateTokens a <= estimateTokens b)%nat.
Proof.
  intros H. unfold estimateTokens. apply Nat.Div0.div_le_mono. lia.
Qed.

End TrimFacts.

Section ChunkInvariant.
Import JS ChatChunker Props MoreProps.

Variables (maxTokens : nat) (S : list string).
Hypothesis S_trimmed : forall s, s ∈ S -> trimEnd s = s /\ has_ink s = true.

Lemma rolePrefixOf_trimStart role body :
  trimStart (rolePrefixOf role ++ body) = rolePrefixOf role ++ body.
Proof. unfold rolePrefixOf. now destruct (String.eqb role "user"). Qed.

Lemma rolePrefixOf_length role : (0 < String.length (rolePrefixOf role))%nat.
Proof. unfold rolePrefixOf. destruct (String.eqb role "user"); simpl; lia. Qed.

Lemma sorted_snoc (chunks : list ChatChunk) (c : ChatChunk) :
  StronglySorted (fun a b => (messageIndex a <= messageIndex b)%nat) chunks ->
  Forall (fun a => (messageIndex a <= messageIndex c)%nat) chunks ->
  StronglySorted (fun a b => (messageIndex a <= messageIndex b)%nat) (chunks ++ [c]).
Proof.
  induction 1 as [|a l Hs IH Ha]; intros Hle; simpl.
  - repeat constructor.
  - apply Forall_cons in Hle as [Hac Hle]. constructor; [now apply IH|].
    apply Forall_app. split; [exact Ha | now apply Forall_singleton].
Qed.

Lemma push_inv (mi : nat) (chunks : list ChatChunk) (role t : string) :
  chunks_inv maxTokens S (Datatypes.S mi) chunks ->
  text_ok maxTokens S role t ->
  chunks_inv maxTokens S (Datatypes.S mi) (push chunks t role mi).
Proof.
  intros (Hok & Hidx & Hsorted & Hpos) Ht. unfold push. repeat split.
  - apply Forall_app. split; [exact Hok | apply Forall_singleton; exact Ht].
  - apply Forall_app. split; [exact Hidx | apply Forall_singleton; simpl; lia].
  - apply sorted_snoc; [exact Hsorted|].
    eapply Forall_impl; [exact Hidx|]. simpl. intros a Ha. lia.
  - intros i c Hc. apply lookup_app_Some in Hc as [Hc | [Hlen Hc]]; [now apply Hpos|].
    destruct (i - length chunks)%nat as [|k] eqn:E; simpl in Hc; [|discriminate].
    injection Hc as <-. simpl. lia.
Qed.

(** A current chunk that is more than the role marker is saved as a
    chunk text that satisfies [text_ok]. *)
Lemma current_text_ok (role currentChunk : string) :
  role = "user" \/ role = "assistant" ->
  current_ok maxTokens S role currentChunk ->
  currentChunk <> rolePrefixOf role ->
  text_ok maxTokens S role (trim currentChunk).
Proof.
  intros Hrole (body & -> & Hbody) Hne.
  destruct Hbody as [-> | [Hink Hfit]]; [now rewrite string_app_empty_r in Hne|].
  unfold trim. rewrite rolePrefixOf_trimStart, (trimEnd_app_ink _ _ Hink).
  split; [exact Hrole|]. split.
  - exists (trimEnd body). split; [reflexivity | now apply trimEnd_ink].
  - destruct Hfit as [Hfit | HS].
    + left. etransitivity; [|exact Hfit]. apply estimateTokens_mono.
      rewrite !string_length_app. pose proof (trimEnd_length body). lia.
    + right. exists body. destruct (S_trimmed _ HS) as [-> _]. auto.
Qed.

Lemma saveChunk_inv (mi : nat) (chunks : list ChatChunk) (role currentChunk : string) :
  role = "user" \/ role = "assistant" ->
  chunks_inv maxTokens S (Datatypes.S mi) chunks ->
  current_ok maxTokens S role currentChunk ->
  chunks_inv maxTokens S (Datatypes.S mi)
             (saveChunk chunks currentChunk (rolePrefixOf role) role mi).
Proof.
  intros Hrole Hinv Hcur. unfold saveChunk.
  destruct (truthy (trim currentChunk)) eqn:Ht; simpl; [|exact Hinv].
  destruct (String.eqb currentChunk (rolePrefixOf role)) eqn:He; simpl; [exact Hinv|].
  apply push_inv; [exact Hinv|]. apply current_text_ok; auto.
  now apply String.eqb_neq.
Qed.

Lemma extend_current (role currentChunk glue piece : string) :
  current_ok maxTokens S role currentChunk ->
  has_ink piece = true ->
  (estimateTokens (currentChunk ++ glue ++ piece) <= maxTokens)%nat ->
  current_ok maxTokens S role (currentChunk ++ glue ++ piece).
Proof.
  intros (body & -> & _) Hink Hfit. exists (body ++ glue ++ piece).
  split; [rewrite string_app_assoc; reflexivity|]. right. split.
  - apply has_ink_app_r, has_ink_app_r. exact Hink.
  - left. exact Hfit.
Qed.

Lemma sentenceStep_inv (mi : nat) (role : string) (st : LoopState) (sentence : string) :
  role = "user" \/ role = "assistant" ->
  sentence ∈ S ->
  loop_inv maxTokens S mi role st ->
  loop_inv maxTokens S mi role (sentenceStep (rolePrefixOf role) role mi maxTokens st sentence).
Proof.
  intros Hrole HS [Hinv Hcur]. destruct st as [[chunks currentChunk] isFirstChunk].
  simpl in Hinv, Hcur. unfold sentenceStep.
  destruct (S_trimmed _ HS) as [_ Hink].
  destruct (estimateTokens _ <=? maxTokens)%nat eqn:Hfit.
  - split; [exact Hinv|]. simpl. apply Nat.leb_le in Hfit.
    destruct isFirstChunk.
    + apply (extend_current role currentChunk "" sentence); auto.
    + apply (extend_current role currentChunk " " sentence); auto.
  - split; simpl; [now apply saveChunk_inv|].
    exists sentence. split; [reflexivity|]. right. auto.
Qed.

Lemma fold_sentences_inv (mi : nat) (role : string) (sentences : list string) (st : LoopState) :
  role = "user" \/ role = "assistant" ->
  Forall (fun s => s ∈ S) sentences ->
  loop_inv maxTokens S mi role st ->
  loop_inv maxTokens S mi role (fold_left (sentenceStep (rolePrefixOf role) role mi maxTokens) sentences st).
Proof.
  intros Hrole Hall. revert st.
  induction Hall as [|s l Hs _ IH]; intros st Hst; [exact Hst|].
  simpl. apply IH. now apply sentenceStep_inv.
Qed.

Lemma paragraphStep_inv (mi : nat) (role : string) (st : LoopState) (paragraph : string) :
  role = "user" \/ role = "assistant" ->
  has_ink paragraph = true ->
  Forall (fun s => s ∈ S) (splitBySentences paragraph) ->
  loop_inv maxTokens S mi role st ->
  loop_inv maxTokens S mi role (paragraphStep (rolePrefixOf role) role mi maxTokens st paragraph).
Proof.
  intros Hrole Hink Hsent [Hinv Hcur]. destruct st as [[chunks currentChunk] isFirstChunk].
  simpl in Hinv, Hcur. unfold paragraphStep. cbv zeta.
  destruct (estimateTokens _ <=? maxTokens)%nat eqn:Hfit.
  - split; [exact Hinv|]. simpl. apply Nat.leb_le in Hfit.
    destruct isFirstChunk.
    + apply (extend_current role currentChunk "" paragraph); auto.
    + apply (extend_current role currentChunk
               (String newline (String newline "")) paragraph); auto.
  - destruct (maxTokens <? estimateTokens (rolePrefixOf role ++ paragraph))%nat eqn:Hbig.
    + apply fold_sentences_inv; auto. split; simpl; [now apply saveChunk_inv|].
      exists "". split; [now rewrite string_app_empty_r | now left].
    + split; simpl; [now apply saveChunk_inv|].
      exists paragraph. split; [reflexivity|]. right. split; [exact Hink|]. left.
      apply Nat.ltb_ge in Hbig. exact Hbig.
Qed.

Lemma fold_paragraphs_inv (mi : nat) (role : string) (paragraphs : list string)
    (st : LoopState) :
  role = "user" \/ role = "assistant" ->
  Forall (fun p => has_ink p = true /\ Forall (fun s => s ∈ S) (splitBySentences p))
         paragraphs ->
  loop_inv maxTokens S mi role st ->
  loop_inv maxTokens S mi role
           (fold_left (paragraphStep (rolePrefixOf role) role mi maxTokens) paragraphs st).
Proof.
  intros Hrole Hall. revert st.
  induction Hall as [|p l [Hp Hs] _ IH]; intros st Hst; [exact Hst|].
  simpl. apply IH. now apply paragraphStep_inv.
Qed.

End ChunkInvariant.

Section ChunkTheorems.
Import JS ChatChunker Props MoreProps.

(** What the two splitters return is trimmed and shows ink. *)
Lemma trimmed_pieces (pieces : list string) (s : string) :
  s ∈ filter (fun p => nonEmpty p = true) (map trim pieces) ->
  trimEnd s = s /\ has_ink s = true.
Proof.
  intros Hs. apply list_elem_of_filter in Hs as [Hne Hs].
  apply list_elem_of_In, in_map_iff in Hs as (x & <- & _).
  split.
  - unfold trim. apply trimEnd_idem.
  - rewrite <- trim_ink, trim_idem. now destruct (trim x).
Qed.

Lemma paragraph_ink text p : p ∈ splitByParagraphs text -> has_ink p = true.
Proof. intros Hp. now apply trimmed_pieces in Hp. Qed.

Lemma sentence_trimmed p s : s ∈ splitBySentences p -> trimEnd s = s /\ has_ink s = true.
Proof. apply trimmed_pieces. Qed.

Lemma sentencesOf_trimmed messages s :
  s ∈ sentencesOf messages -> trimEnd s = s /\ has_ink s = true.
Proof.
  intros Hs. apply list_elem_of_In, in_flat_map in Hs as (m & _ & Hs).
  apply in_flat_map in Hs as (p & _ & Hs). apply list_elem_of_In in Hs.
  now apply sentence_trimmed in Hs.
Qed.

Lemma included_role m :
  shouldIncludeMessage m = true ->
  (role m = "user" \/ role m = "assistant") /\ has_ink (extractTextFromMessage m) = true.
Proof.
  unfold shouldIncludeMessage. intros H.
  destruct (String.eqb (role m) "user") eqn:Hu; simpl in H.
  - apply String.eqb_eq in Hu. rewrite trim_ink in H.
    destruct (has_ink _); [auto | discriminate].
  - destruct (String.eqb (role m) "assistant") eqn:Ha; simpl in H; [|discriminate].
    apply String.eqb_eq in Ha. rewrite trim_ink in H.
    destruct (has_ink _); [auto | discriminate].
Qed.

Lemma chunks_inv_weaken maxTokens S b b' chunks :
  (b <= b')%nat -> chunks_inv maxTokens S b chunks -> chunks_inv maxTokens S b' chunks.
Proof.
  intros Hb (Hok & Hidx & Hrest). split; [exact Hok|]. split; [|exact Hrest].
  eapply Forall_impl; [exact Hidx|]. simpl. intros c Hc. lia.
Qed.

(** One message keeps the invariant of the chunk list, and advances
    [messageIndex] exactly when it is chunked. *)
Lemma messageStep_inv maxTokens S (chunks : list ChatChunk) (mi : nat) (m : UIMessage) :
  (forall s, s ∈ S -> trimEnd s = s /\ has_ink s = true) ->
  (shouldIncludeMessage m = true -> forall s, s ∈ sentencesOfMessage m -> s ∈ S) ->
  chunks_inv maxTokens S mi chunks ->
  chunks_inv maxTokens S (snd (messageStep maxTokens (chunks, mi) m))
             (fst (messageStep maxTokens (chunks, mi) m))
  /\ snd (messageStep maxTokens (chunks, mi) m)
     = (mi + if shouldIncludeMessage m then 1 else 0)%nat.
Proof.
  intros HS Hm Hinv. unfold messageStep.
  destruct (shouldIncludeMessage m) eqn:Hinc; simpl.
  2: { split; [exact Hinv | lia]. }
  destruct (included_role m Hinc) as [Hrole Hink]. specialize (Hm eq_refl).
  apply (chunks_inv_weaken _ _ mi (Datatypes.S mi)) in Hinv; [|lia].
  fold (rolePrefixOf (role m)).
  destruct (estimateTokens _ <=? maxTokens)%nat eqn:Hfit; simpl.
  - split; [|lia]. apply (push_inv maxTokens S mi); [exact Hinv|].
    split; [exact Hrole|]. split; [eauto|]. left. now apply Nat.leb_le.
  - pose proof (fold_paragraphs_inv maxTokens S HS mi (role m)
                  (splitByParagraphs (extractTextFromMessage m))
                  (chunks, rolePrefixOf (role m), true) Hrole) as Hloop.
    destruct (fold_left _ _ _) as [[chunks1 currentChunk] isFirstChunk].
    simpl. split; [|lia].
    destruct Hloop as [Hinv1 Hcur1].
    + apply Forall_forall. intros p Hp. split; [eapply paragraph_ink; eassumption|].
      apply Forall_forall. intros s Hs. apply Hm. unfold sentencesOfMessage.
      apply list_elem_of_In, in_flat_map. exists p.
      split; now apply list_elem_of_In.
    + split; [exact Hinv|]. exists "". simpl.
      split; [now rewrite string_app_empty_r | now left].
    + now apply saveChunk_inv.
Qed.

Lemma included_count_app (l : list UIMessage) (m : UIMessage) :
  length (List.filter shouldIncludeMessage (l ++ [m]))
  = (length (List.filter shouldIncludeMessage l)
     + if shouldIncludeMessage m then 1 else 0)%nat.
Proof.
  rewrite List.filter_app, length_app. simpl. now destruct (shouldIncludeMessage m).
Qed.

Lemma fold_messages_inv maxTokens S (messages : list UIMessage) :
  (forall s, s ∈ S -> trimEnd s = s /\ has_ink s = true) ->
  (forall m, m ∈ messages -> shouldIncludeMessage m = true ->
             forall s, s ∈ sentencesOfMessage m -> s ∈ S) ->
  chunks_inv maxTokens S (length (List.filter shouldIncludeMessage messages))
             (fst (fold_left (messageStep maxTokens) messages ([], 0%nat)))
  /\ snd (fold_left (messageStep maxTokens) messages ([], 0%nat))
     = length (List.filter shouldIncludeMessage messages).
Proof.
  intros HS. induction messages as [|m l IH] using rev_ind; intros Hm.
  - simpl. split; [|reflexivity]. repeat split; try constructor.
    intros i c Hc. now rewrite lookup_nil in Hc.
  - rewrite fold_left_app, included_count_app. simpl.
    destruct IH as [Hinv Hmi].
    { intros m' Hm'. apply Hm. apply elem_of_app. now left. }
    destruct (fold_left (messageStep maxTokens) l ([], 0%nat)) as [chunks mi].
    simpl in Hinv, Hmi. subst mi.
    destruct (messageStep_inv maxTokens S chunks
                (length (List.filter shouldIncludeMessage l)) m HS) as [Hinv' Hmi'].
    + apply Hm. apply elem_of_app. right. now apply list_elem_of_singleton.
    + exact Hinv.
    + rewrite Hmi' in Hinv'. split; [exact Hinv' | exact Hmi'].
Qed.

Lemma chunker_invariant (messages : list UIMessage) (maxTokens : nat) :
  chunks_inv maxTokens (sentencesOf messages)
             (length (List.filter shouldIncludeMessage messages))
             (fst (fold_left (messageStep maxTokens) messages ([], 0%nat))).
Proof.
  apply fold_messages_inv.
  - apply sentencesOf_trimmed.
  - intros m Hm Hinc s Hs. unfold sentencesOf.
    apply list_elem_of_In, in_flat_map. exists m. split.
    + apply filter_In. split; [now apply list_elem_of_In | exact Hinc].
    + now apply list_elem_of_In.
Qed.

Lemma reindex_indexed (chunks : list ChatChunk) :
  (forall i c, chunks !! i = Some c -> index c = i) -> reindex chunks = chunks.
Proof.
  intros Hpos. unfold reindex. apply list_eq. intros i.
  rewrite list_lookup_imap. destruct (chunks !! i) as [c|] eqn:Hc; [|reflexivity].
  simpl. f_equal. rewrite <- (Hpos i c Hc). now destruct c.
Qed.

Lemma chunkChatMessages_fold (messages : list UIMessage) (maxTokens : nat) :
  chunkChatMessages messages maxTokens
  = fst (fold_left (messageStep maxTokens) messages ([], 0%nat)).
Proof.
  destruct (chunker_invariant messages maxTokens) as (_ & _ & _ & Hpos).
  apply reindex_indexed, Hpos.
Qed.

(** X1: every chunk is pushed with the index of its position, so the
    final re-numbering of [chunkChatMessages] changes nothing, and chunk
    number [i] of the result has [index = i]. *)
Theorem chunk_index_is_position (messages : list UIMessage) (maxTokens : nat) :
  reindex (fst (fold_left (messageStep maxTokens) messages ([], 0%nat)))
  = fst (fold_left (messageStep maxTokens) messages ([], 0%nat))
  /\ (forall i c, chunkChatMessages messages maxTokens !! i = Some c -> index c = i).
Proof.
  destruct (chunker_invariant messages maxTokens) as (_ & _ & _ & Hpos).
  split; [apply reindex_indexed, Hpos|]. rewrite chunkChatMessages_fold. exact Hpos.
Qed.

(** X2: a chunk is over the budget of [maxTokens] estimated tokens only
    when it is the role marker followed by one single sentence of a
    paragraph of a chunked message; every other chunk is within the
    budget. *)
Theorem chunk_over_budget_is_one_sentence (messages : list UIMessage) (maxTokens : nat) :
  Forall (fun c =>
            (estimateTokens (text c) <= maxTokens)%nat
            \/ exists s, s ∈ sentencesOf messages
                         /\ text c = rolePrefixOf (messageRole c) ++ s)
         (chunkChatMessages messages maxTokens).
Proof.
  rewrite chunkChatMessages_fold.
  destruct (chunker_invariant messages maxTokens) as (Hok & _).
  eapply Forall_impl; [exact Hok|]. intros c (_ & _ & H). exact H.
Qed.

(** X3: every chunk belongs to a user or an assistant message and its
    text is the marker of that role, ["[User]: "] or ["[Assistant]: "],
    followed by text that is not blank. *)
Theorem chunk_text_starts_with_role_marker (messages : list UIMessage) (maxTokens : nat) :
  Forall (fun c =>
            (messageRole c = "user" \/ messageRole c = "assistant")
            /\ exists rest, text c = rolePrefixOf (messageRole c) ++ rest
                            /\ has_ink rest = true)
         (chunkChatMessages messages maxTokens).
Proof.
  rewrite chunkChatMessages_fold.
  destruct (chunker_invariant messages maxTokens) as (Hok & _).
  eapply Forall_impl; [exact Hok|]. intros c (Hrole & Hrest & _). auto.
Qed.

(** X4: [messageIndex] numbers the chunked messages only: it is below
    the number of user and assistant messages with text, and it never
    decreases along the chunk list. *)
Theorem chunk_messageIndex_counts_chunked_messages
    (messages : list UIMessage) (maxTokens : nat) :
  Forall (fun c => (messageIndex c
                    < length (List.filter shouldIncludeMessage messages))%nat)
         (chunkChatMessages messages maxTokens)
  /\ StronglySorted (fun a b => (messageIndex a <= messageIndex b)%nat)
                    (chunkChatMessages messages maxTokens).
Proof.
  rewrite chunkChatMessages_fold.
  destruct (chunker_invariant messages maxTokens) as (_ & Hidx & Hsorted & _).
  split; assumption.
Qed.

End ChunkTheorems.

(* ===================================================================== *)
(** ** Skipped messages and messages that fit                         *)
(* ===================================================================== *)

Section SkippedAndWhole.
Import JS ChatChunker Props MoreProps.

Lemma messageStep_skipped maxTokens st m :
  shouldIncludeMessage m = false -> messageStep maxTokens st m = st.
Proof. intros H. destruct st as [chunks mi]. unfold messageStep. now rewrite H. Qed.

Lemma fold_messages_filter maxTokens (messages : list UIMessage) st :
  fold_left (messageStep maxTokens) (List.filter shouldIncludeMessage messages) st
  = fold_left (messageStep maxTokens) messages st.
Proof.
  revert st. induction messages as [|m l IH]; intros st; [reflexivity|].
  simpl. destruct (shouldIncludeMessage m) eqn:Hinc.
  - simpl. apply IH.
  - rewrite (messageStep_skipped _ _ _ Hinc). apply IH.
Qed.

(** X5: the messages that are skipped (a role other than user and
    assistant, or a text that is blank) leave no trace in the result:
    chunking a conversation and chunking only its user and assistant
    messages with text give the same chunks, [messageIndex] included. *)
Theorem skipped_messages_leave_no_trace (messages : list UIMessage) (maxTokens : nat) :
  chunkChatMessages (List.filter shouldIncludeMessage messages) maxTokens
  = chunkChatMessages messages maxTokens.
Proof. unfold chunkChatMessages. now rewrite fold_messages_filter. Qed.

Lemma imap_snoc {A B} (f : nat -> A -> B) (l : list A) (x : A) :
  imap f (l ++ [x]) = (imap f l ++ [f (length l) x])%list.
Proof.
  rewrite imap_app. simpl. now rewrite Nat.add_0_r.
Qed.

Lemma fold_messages_whole maxTokens (messages : list UIMessage) :
  Forall (fun m => shouldIncludeMessage m = true ->
                   (estimateTokens (rolePrefixOf (role m) ++ extractTextFromMessage m)
                    <= maxTokens)%nat) messages ->
  fold_left (messageStep maxTokens) messages ([], 0%nat)
  = (imap wholeChunk (List.filter shouldIncludeMessage messages),
     length (List.filter shouldIncludeMessage messages)).
Proof.
  induction messages as [|m l IH] using rev_ind; intros Hfit; [reflexivity|].
  apply Forall_app in Hfit as [Hl Hm]. apply Forall_inv in Hm.
  rewrite fold_left_app, (IH Hl), List.filter_app. simpl.
  destruct (shouldIncludeMessage m) eqn:Hinc; simpl.
  - fold (rolePrefixOf (role m)).
    specialize (Hm eq_refl). apply Nat.leb_le in Hm. rewrite Hm.
    rewrite imap_snoc, length_app, Nat.add_comm. unfold push.
    now rewrite length_imap.
  - now rewrite app_nil_r.
Qed.

(** X6: when every user or assistant message with text fits the budget
    together with its role marker, the result is one chunk for each of
    them, in order: the marker followed by the whole text of the message
    as it is (not trimmed), with [index] and [messageIndex] both equal
    to the position among the chunked messages. *)
Theorem fitting_messages_are_chunked_whole (messages : list UIMessage) (maxTokens : nat) :
  Forall (fun m => shouldIncludeMessage m = true ->
                   (estimateTokens (rolePrefixOf (role m) ++ extractTextFromMessage m)
                    <= maxTokens)%nat) messages ->
  chunkChatMessages messages maxTokens
  = imap wholeChunk (List.filter shouldIncludeMessage messages).
Proof.
  intros Hfit. unfold chunkChatMessages. rewrite (fold_messages_whole _ _ Hfit). simpl.
  apply reindex_indexed. intros i c Hc.
  rewrite list_lookup_imap in Hc.
  destruct (List.filter shouldIncludeMessage messages !! i); [|discriminate].
  simpl in Hc. now injection Hc as <-.
Qed.

Lemma fitting_messages_are_chunked_whole_witness :
  chunkChatMessages
    [userMessage "Hi there. "; mkMessage "system" None (Some "Be brief.");
     mkMessage "assistant" None (Some "Hello!")] 500
  = [mkChatChunk "[User]: Hi there. " 0 "user" 0;
     mkChatChunk "[Assistant]: Hello!" 1 "assistant" 1].
Proof.
  apply (fitting_messages_are_chunked_whole
           [userMessage "Hi there. "; mkMessage "system" None (Some "Be brief.");
            mkMessage "assistant" None (Some "Hello!")] 500).
  repeat (apply Forall_cons; split; [intros _; vm_compute; lia|]). apply Forall_nil. trivial.
Defined.

End SkippedAndWhole.

(* ===================================================================== *)
(** ** The visible characters of a conversation                       *)
(* ===================================================================== *)

Section VisibleCharacters.
Import JS ChatChunker Props MoreProps.

Lemma ink_app a b : ink (a ++ b) = ink a ++ ink b.
Proof.
  induction a as [|c a IH]; [now rewrite !app_nil|].
  rewrite app_cons. simpl. destruct (is_whitespace c); [exact IH|].
  now rewrite app_cons, IH.
Qed.

Lemma ink_trimStart s : ink (trimStart s) = ink s.
Proof.
  induction s as [|c s IH]; [reflexivity|]. simpl.
  destruct (is_whitespace c) eqn:Hc; [exact IH|]. simpl. now rewrite Hc.
Qed.

Lemma ink_trimEnd s : ink (trimEnd s) = ink s.
Proof.
  induction s as [|c s IH]; [reflexivity|]. simpl.
  destruct (trimEnd s) as [|d t] eqn:E.
  - simpl in IH. rewrite <- IH. destruct (is_whitespace c) eqn:Hc; simpl; now rewrite ?Hc.
  - change (ink (String c (String d t))) with
      (if is_whitespace c then ink (String d t) else String c (ink (String d t))).
    now rewrite IH.
Qed.

Lemma ink_trim s : ink (trim s) = ink s.
Proof. unfold trim. now rewrite ink_trimEnd, ink_trimStart. Qed.

Lemma ink_has_ink s : has_ink s = false -> ink s = "".
Proof.
  induction s as [|c s IH]; [reflexivity|]. simpl.
  destruct (is_whitespace c); simpl; [exact IH | discriminate].
Qed.

Lemma inkOfAll_app a b : inkOfAll (a ++ b) = inkOfAll a ++ inkOfAll b.
Proof.
  induction a as [|x a IH]; simpl; [now rewrite app_nil|].
  now rewrite IH, string_app_assoc.
Qed.

Lemma inkOfChunks_app a b : inkOfChunks (a ++ b) = inkOfChunks a ++ inkOfChunks b.
Proof. unfold inkOfChunks. now rewrite map_app, inkOfAll_app. Qed.

(** Trimming the pieces and dropping the empty ones loses no visible
    character. *)
Lemma inkOfAll_pieces (pieces : list string) :
  inkOfAll (filter (fun p => nonEmpty p = true) (map trim pieces)) = inkOfAll pieces.
Proof.
  induction pieces as [|x l IH]; [reflexivity|].
  cbn [map]. rewrite filter_cons. destruct (decide (nonEmpty (trim x) = true)) as [H|H].
  - simpl. now rewrite IH, ink_trim.
  - rewrite IH. simpl. rewrite <- (ink_trim x).
    destruct (trim x); [now rewrite app_nil | now contradiction H].
Qed.

Lemma ink_whitespace c s : is_whitespace c = true -> ink (String c s) = ink s.
Proof. intros H. simpl. now rewrite H. Qed.

Lemma ink_cons c s : ink (String c s) = ink (String c "") ++ ink s.
Proof. simpl. destruct (is_whitespace c); [now rewrite app_nil | now rewrite app_cons, app_nil]. Qed.

Lemma splitSentencesFrom_ink s cur prevPunct inSep :
  inkOfAll (splitSentencesFrom s cur prevPunct inSep) = ink cur ++ ink s.
Proof.
  revert cur prevPunct inSep. induction s as [|c s IH]; intros cur prevPunct inSep.
  - simpl. destruct inSep; simpl; now rewrite ?app_nil, ?string_app_empty_r.
  - cbn [splitSentencesFrom]. destruct inSep.
    + destruct (is_whitespace c) eqn:Hc.
      * now rewrite IH, (ink_whitespace c s Hc).
      * change (inkOfAll (cur :: ?l)) with (ink cur ++ inkOfAll l).
        now rewrite IH, <- ink_cons.
    + destruct (is_whitespace c && prevPunct) eqn:Hsep.
      * apply andb_true_iff in Hsep as [Hc _].
        now rewrite IH, (ink_whitespace c s Hc).
      * now rewrite IH, ink_app, string_app_assoc, <- ink_cons.
Qed.

Lemma splitBySentences_ink text : inkOfAll (splitBySentences text) = ink text.
Proof.
  unfold splitBySentences. now rewrite inkOfAll_pieces, splitSentencesFrom_ink, app_nil.
Qed.

Lemma ink_newline s : ink (String newline s) = ink s.
Proof. reflexivity. Qed.

Lemma splitParagraphsFrom_ink s cur nl :
  inkOfAll (splitParagraphsFrom s cur nl) = ink cur ++ ink s.
Proof.
  revert cur nl. induction s as [|c s IH]; intros cur nl.
  - simpl. destruct nl as [|[|nl]]; simpl;
      rewrite ?ink_app, ?ink_newline, ?app_nil, ?string_app_empty_r; reflexivity.
  - cbn [splitParagraphsFrom]. destruct (c =? newline)%char eqn:Hc.
    + rewrite IH. now rewrite (ink_whitespace c s (newline_is_whitespace c Hc)).
    + destruct nl as [|[|nl]].
      * now rewrite IH, ink_app, string_app_assoc, <- ink_cons.
      * now rewrite IH, ink_app, ink_newline, string_app_assoc, <- ink_cons.
      * change (inkOfAll (cur :: ?l)) with (ink cur ++ inkOfAll l).
        now rewrite IH, <- ink_cons.
Qed.

Lemma splitByParagraphs_ink text : inkOfAll (splitByParagraphs text) = ink text.
Proof.
  unfold splitByParagraphs. now rewrite inkOfAll_pieces, splitParagraphsFrom_ink, app_nil.
Qed.

Lemma stripRolePrefix_marker role body :
  stripRolePrefix (rolePrefixOf role ++ body) = body.
Proof.
  unfold rolePrefixOf. destruct (String.eqb role "user"); [apply stripRolePrefix_user|].
  unfold stripRolePrefix. simpl. rewrite !app_nil.
  replace (String.prefix "" body) with true by now destruct body.
  rewrite Nat.sub_0_r. apply substring_all.
Qed.

End VisibleCharacters.

Section InkInvariant.
Import JS ChatChunker Props MoreProps.

Variables (maxTokens mi : nat) (role : string) (chunks0 : list ChatChunk).

Lemma saveChunk_ink (chunks : list ChatChunk) (body : string) :
  body = "" \/ has_ink body = true ->
  exists saved,
    saveChunk chunks (rolePrefixOf role ++ body) (rolePrefixOf role) role mi
    = (chunks ++ saved)%list
    /\ Forall (fun c => messageIndex c = mi) saved
    /\ inkOfChunks saved = ink body.
Proof.
  intros [-> | Hink]; unfold saveChunk.
  - rewrite string_app_empty_r, String.eqb_refl, andb_false_r.
    exists []. now rewrite app_nil_r.
  - rewrite trim_ink, (has_ink_app_r _ _ Hink), eqb_app_self_false
      by (intros ->; discriminate).
    simpl. unfold push. eexists. split; [reflexivity|]. split.
    + now apply Forall_singleton.
    + unfold inkOfChunks, trim. simpl.
      rewrite rolePrefixOf_trimStart, (trimEnd_app_ink _ _ Hink), stripRolePrefix_marker.
      now rewrite string_app_empty_r, ink_trimEnd.
Qed.

Lemma ink_inv_extend seen chunks currentChunk isFirstChunk glue piece flag :
  ink_inv chunks0 mi role seen (chunks, currentChunk, isFirstChunk) ->
  ink glue = "" -> has_ink piece = true ->
  ink_inv chunks0 mi role (seen ++ ink piece) (chunks, currentChunk ++ glue ++ piece, flag).
Proof.
  intros (added & body & Hc & Hmi & Hcur & _ & Hseen) Hglue Hink. simpl in Hc, Hcur.
  exists added, (body ++ glue ++ piece). simpl. split; [exact Hc|]. split; [exact Hmi|].
  split; [now rewrite Hcur, string_app_assoc|]. split.
  - right. now apply has_ink_app_r, has_ink_app_r.
  - now rewrite <- Hseen, !ink_app, Hglue, app_nil, string_app_assoc.
Qed.

Lemma ink_inv_save seen chunks currentChunk isFirstChunk body flag :
  ink_inv chunks0 mi role seen (chunks, currentChunk, isFirstChunk) ->
  body = "" \/ has_ink body = true ->
  ink_inv chunks0 mi role (seen ++ ink body)
          (saveChunk chunks currentChunk (rolePrefixOf role) role mi,
           rolePrefixOf role ++ body, flag).
Proof.
  intros (added & body0 & Hc & Hmi & Hcur & Hbody0 & Hseen) Hbody. simpl in Hc, Hcur.
  destruct (saveChunk_ink chunks body0 Hbody0) as (saved & Hsave & Hsaved & Hink).
  exists (added ++ saved)%list, body. simpl. rewrite Hcur, Hsave, Hc, <- app_assoc.
  split; [reflexivity|]. split; [now apply Forall_app|]. split; [reflexivity|].
  split; [exact Hbody|]. now rewrite inkOfChunks_app, Hink, Hseen.
Qed.

Lemma sentenceStep_ink seen (st : LoopState) (sentence : string) :
  has_ink sentence = true ->
  ink_inv chunks0 mi role seen st ->
  ink_inv chunks0 mi role (seen ++ ink sentence)
          (sentenceStep (rolePrefixOf role) role mi maxTokens st sentence).
Proof.
  intros Hink Hst. destruct st as [[chunks currentChunk] isFirstChunk].
  unfold sentenceStep. destruct (estimateTokens _ <=? maxTokens)%nat.
  - destruct isFirstChunk.
    + now apply (ink_inv_extend seen chunks currentChunk true "" sentence).
    + now apply (ink_inv_extend seen chunks currentChunk false " " sentence).
  - apply (ink_inv_save seen chunks currentChunk isFirstChunk sentence); auto.
Qed.

Lemma fold_sentences_ink (sentences : list string) seen (st : LoopState) :
  Forall (fun s => has_ink s = true) sentences ->
  ink_inv chunks0 mi role seen st ->
  ink_inv chunks0 mi role (seen ++ inkOfAll sentences)
          (fold_left (sentenceStep (rolePrefixOf role) role mi maxTokens) sentences st).
Proof.
  intros Hall. revert seen st.
  induction Hall as [|s l Hs _ IH]; intros seen st Hst.
  - simpl. now rewrite string_app_empty_r.
  - simpl. rewrite <- string_app_assoc. apply IH. now apply sentenceStep_ink.
Qed.

Lemma paragraphStep_ink seen (st : LoopState) (paragraph : string) :
  has_ink paragraph = true ->
  ink_inv chunks0 mi role seen st ->
  ink_inv chunks0 mi role (seen ++ ink paragraph)
          (paragraphStep (rolePrefixOf role) role mi maxTokens st paragraph).
Proof.
  intros Hink Hst. destruct st as [[chunks currentChunk] isFirstChunk].
  unfold paragraphStep. cbv zeta. destruct (estimateTokens _ <=? maxTokens)%nat.
  - destruct isFirstChunk.
    + now apply (ink_inv_extend seen chunks currentChunk true "" paragraph).
    + now apply (ink_inv_extend seen chunks currentChunk false
                   (String newline (String newline "")) paragraph).
  - destruct (maxTokens <? estimateTokens (rolePrefixOf role ++ paragraph))%nat.
    + rewrite <- (splitBySentences_ink paragraph).
      apply fold_sentences_ink.
      * apply Forall_forall. intros s Hs. now apply sentence_trimmed in Hs.
      * pose proof (ink_inv_save seen chunks currentChunk isFirstChunk "" true Hst)
          as H. rewrite !string_app_empty_r in H. apply H. now left.
    + apply (ink_inv_save seen chunks currentChunk isFirstChunk paragraph); auto.
Qed.

Lemma fold_paragraphs_ink (paragraphs : list string) seen (st : LoopState) :
  Forall (fun p => has_ink p = true) paragraphs ->
  ink_inv chunks0 mi role seen st ->
  ink_inv chunks0 mi role (seen ++ inkOfAll paragraphs)
          (fold_left (paragraphStep (rolePrefixOf role) role mi maxTokens) paragraphs st).
Proof.
  intros Hall. revert seen st.
  induction Hall as [|p l Hp _ IH]; intros seen st Hst.
  - simpl. now rewrite string_app_empty_r.
  - simpl. rewrite <- string_app_assoc. apply IH. now apply paragraphStep_ink.
Qed.

End InkInvariant.

Section InkTheorems.
Import JS ChatChunker Props MoreProps.

(** What one chunked message adds to the chunk list. *)
Lemma messageStep_adds maxTokens (chunks : list ChatChunk) (mi : nat) (m : UIMessage) :
  shouldIncludeMessage m = true ->
  exists added,
    messageStep maxTokens (chunks, mi) m = ((chunks ++ added)%list, Datatypes.S mi)
    /\ Forall (fun c => messageIndex c = mi) added
    /\ inkOfChunks added = ink (extractTextFromMessage m).
Proof.
  intros Hinc. unfold messageStep. rewrite Hinc. simpl.
  fold (rolePrefixOf (role m)).
  destruct (estimateTokens _ <=? maxTokens)%nat.
  - eexists. unfold push. split; [reflexivity|]. split; [now apply Forall_singleton|].
    unfold inkOfChunks. simpl.
    now rewrite stripRolePrefix_marker, string_app_empty_r.
  - pose proof (fold_paragraphs_ink maxTokens mi (role m) chunks
                  (splitByParagraphs (extractTextFromMessage m)) ""
                  (chunks, rolePrefixOf (role m), true)) as Hloop.
    destruct (fold_left _ _ _) as [[chunks1 currentChunk] isFirstChunk].
    destruct Hloop as (added & body & Hc & Hmi & Hcur & Hbody & Hseen).
    + apply Forall_forall. intros p Hp. eapply paragraph_ink; eassumption.
    + exists [], "". simpl. rewrite app_nil_r, string_app_empty_r.
      repeat split; auto.
    + simpl in Hc, Hcur. subst chunks1 currentChunk.
      destruct (saveChunk_ink mi (role m) (chunks ++ added) body Hbody)
        as (saved & -> & Hsaved & Hink).
      exists (added ++ saved)%list. rewrite <- app_assoc. split; [reflexivity|].
      split; [now apply Forall_app|].
      rewrite inkOfChunks_app, Hink, Hseen, app_nil. apply splitByParagraphs_ink.
Qed.

Lemma chunksOfMessage_app k a b :
  chunksOfMessage k (a ++ b) = (chunksOfMessage k a ++ chunksOfMessage k b)%list.
Proof. apply filter_app. Qed.

Lemma chunksOfMessage_all k chunks :
  Forall (fun c => messageIndex c = k) chunks -> chunksOfMessage k chunks = chunks.
Proof.
  induction 1 as [|c l Hc _ IH]; [reflexivity|].
  unfold chunksOfMessage in *. rewrite filter_cons, decide_True by exact Hc. now rewrite IH.
Qed.

Lemma chunksOfMessage_none k chunks :
  Forall (fun c => messageIndex c <> k) chunks -> chunksOfMessage k chunks = [].
Proof.
  induction 1 as [|c l Hc _ IH]; [reflexivity|].
  unfold chunksOfMessage in *. rewrite filter_cons, decide_False by exact Hc. exact IH.
Qed.

Lemma fold_messages_ink maxTokens (messages : list UIMessage) (k : nat) (m : UIMessage) :
  List.filter shouldIncludeMessage messages !! k = Some m ->
  inkOfChunks (chunksOfMessage k
                 (fst (fold_left (messageStep maxTokens) messages ([], 0%nat))))
  = ink (extractTextFromMessage m).
Proof.
  revert k m. induction messages as [|x l IH] using rev_ind; intros k m Hk.
  - discriminate Hk.
  - rewrite fold_left_app. simpl.
    destruct (fold_messages_inv maxTokens (sentencesOf l) l) as [Hinv Hmi].
    { apply sentencesOf_trimmed. }
    { intros m' Hm' Hinc s Hs. unfold sentencesOf.
      apply list_elem_of_In, in_flat_map. exists m'. split.
      - apply filter_In. split; [now apply list_elem_of_In | exact Hinc].
      - now apply list_elem_of_In. }
    specialize (IH k m).
    destruct (fold_left (messageStep maxTokens) l ([], 0%nat)) as [chunks mi].
    simpl in Hinv, Hmi, IH. subst mi. destruct Hinv as (_ & Hidx & _).
    rewrite List.filter_app in Hk. simpl in Hk.
    destruct (shouldIncludeMessage x) eqn:Hinc.
    + destruct (messageStep_adds maxTokens chunks
                  (length (List.filter shouldIncludeMessage l)) x Hinc)
        as (added & -> & Hadded & Hink).
      simpl. rewrite chunksOfMessage_app, inkOfChunks_app.
      apply lookup_app_Some in Hk as [Hk | [Hlen Hk]].
      * rewrite (IH Hk), (chunksOfMessage_none k added).
        -- apply string_app_empty_r.
        -- apply lookup_lt_Some in Hk. eapply Forall_impl; [exact Hadded|].
           simpl. intros c Hc. lia.
      * destruct (k - length (List.filter shouldIncludeMessage l))%nat eqn:E;
          [|discriminate]. injection Hk as <-.
        assert (k = length (List.filter shouldIncludeMessage l)) as -> by lia.
        rewrite (chunksOfMessage_none _ chunks), (chunksOfMessage_all _ added Hadded).
        -- rewrite Hink. apply app_nil.
        -- eapply Forall_impl; [exact Hidx|]. simpl. intros c Hc. lia.
    + rewrite (messageStep_skipped _ _ _ Hinc). simpl.
      rewrite app_nil_r in Hk. now apply IH.
Qed.

(** X7: chunking loses and invents no visible character.  For the
    chunked message of number [k] (the [k]-th user or assistant message
    with text), the chunks that carry [messageIndex = k], taken in order
    with their role markers removed, hold exactly the characters of the
    message text that are not white space, in the same order; only white
    space is dropped or rewritten at the joints. *)
Theorem chunks_keep_the_visible_characters
    (messages : list UIMessage) (maxTokens k : nat) (m : UIMessage) :
  List.filter shouldIncludeMessage messages !! k = Some m ->
  inkOfChunks (chunksOfMessage k (chunkChatMessages messages maxTokens))
  = ink (extractTextFromMessage m).
Proof.
  intros Hk. rewrite chunkChatMessages_fold.
  now apply fold_messages_ink.
Qed.

Lemma chunks_keep_the_visible_characters_witness :
  inkOfChunks
    (chunksOfMessage 1
       (chunkChatMessages
          [userMessage "Hi."; mkMessage "tool" None (Some "log");
           mkMessage "assistant" None (Some "One two. Three four!  Five.")] 5))
  = ink "One two. Three four!  Five.".
Proof.
  apply (chunks_keep_the_visible_characters
           [userMessage "Hi."; mkMessage "tool" None (Some "log");
            mkMessage "assistant" None (Some "One two. Three four!  Five.")] 5 1
           (mkMessage "assistant" None (Some "One two. Three four!  Five."))).
  reflexivity.
Defined.

End InkTheorems.

(* ===================================================================== *)
(** ** The conversation hash                                          *)
(* ===================================================================== *)

Section HashFacts.
Import JS ChatChunker ConversationHash Props MoreProps.

Lemma toInt32_range z : (- 2 ^ 31 <= toInt32 z < 2 ^ 31)%Z.
Proof. unfold toInt32. pose proof (Z.mod_pos_bound (z + 2 ^ 31) (2 ^ 32)). lia. Qed.

Lemma toInt32_small z : (- 2 ^ 31 <= z < 2 ^ 31)%Z -> toInt32 z = z.
Proof. intros H. unfold toInt32. rewrite Z.mod_small; lia. Qed.

Lemma toInt32_congr a b : ((a - b) mod 2 ^ 32 = 0)%Z -> toInt32 a = toInt32 b.
Proof.
  intros H. unfold toInt32. f_equal.
  apply Z.mod_divide in H; [|lia]. destruct H as [q Hq].
  replace (a + 2 ^ 31)%Z with (b + 2 ^ 31 + q * 2 ^ 32)%Z by lia.
  apply Z.mod_add. lia.
Qed.

Lemma toInt32_mod z : exists q, (toInt32 z = z + q * 2 ^ 32)%Z.
Proof.
  unfold toInt32. exists (- ((z + 2 ^ 31) / 2 ^ 32))%Z.
  pose proof (Z.div_mod (z + 2 ^ 31) (2 ^ 32)). lia.
Qed.

Lemma bitAnd_self z : bitAnd z z = toInt32 z.
Proof. unfold bitAnd. apply Z.land_diag. Qed.

(** One round of the loop multiplies by 31 and adds the code unit,
    modulo [2 ^ 32]. *)
Lemma hashStep_poly h c : hashStep (toInt32 h) c = toInt32 (31 * h + c).
Proof.
  unfold hashStep, shiftLeft5. rewrite bitAnd_self, Z.shiftl_mul_pow2 by lia.
  apply toInt32_congr.
  destruct (toInt32_mod h) as [q1 Hq1].
  destruct (toInt32_mod (toInt32 h)) as [q2 Hq2].
  destruct (toInt32_mod (toInt32 (toInt32 h) * 2 ^ 5)) as [q3 Hq3].
  rewrite Hq3, Hq2, Hq1.
  replace (_ - _)%Z with ((32 * q1 + 32 * q2 + q3 - q1) * 2 ^ 32)%Z by lia.
  apply Z.mod_mul. lia.
Qed.

Lemma fold_hashStep codes h :
  fold_left hashStep codes (toInt32 h)
  = toInt32 (fold_left (fun h c => (31 * h + c)%Z) codes h).
Proof.
  revert h. induction codes as [|c l IH]; intros h; [reflexivity|].
  simpl. now rewrite hashStep_poly, IH.
Qed.

(** X8: the number [computeConversationContentHash] prints is Java's
    [String.hashCode] of the relevant content: the polynomial of base 31
    over the code units, wrapped to a signed 32-bit integer. *)
Theorem hash_is_base31_polynomial_in_int32 (relevantContent : string) :
  hashValue relevantContent = toInt32 (poly31 (charCodes relevantContent))
  /\ (- 2 ^ 31 <= hashValue relevantContent < 2 ^ 31)%Z.
Proof.
  assert (E : hashValue relevantContent = toInt32 (poly31 (charCodes relevantContent))).
  { unfold hashValue, poly31. rewrite <- fold_hashStep. reflexivity. }
  split; [exact E|]. rewrite E. apply toInt32_range.
Qed.

Lemma join_merge sep (before after : list string) (x y : string) :
  join sep (before ++ [x; y] ++ after) = join sep (before ++ [x ++ sep ++ y] ++ after).
Proof.
  induction before as [|a l IH].
  - simpl. destruct after as [|b after']; [reflexivity|].
    now rewrite !string_app_assoc.
  - change (join sep ((a :: l) ++ ?r)) with (join sep (a :: (l ++ r))).
    assert (J : forall r, (l ++ r)%list <> [] ->
                join sep (a :: (l ++ r)) = a ++ sep ++ join sep (l ++ r)).
    { intros r Hr. simpl. destruct (l ++ r)%list; [contradiction | reflexivity]. }
    rewrite !J, IH; [reflexivity | |]; now destruct l.
Qed.

Lemma included_filter m :
  shouldIncludeMessage m = true -> List.filter shouldIncludeMessage [m] = [m].
Proof. intros H. simpl. now rewrite H. Qed.

(** X9: the hash does not see where one message ends and the next
    begins.  Two consecutive chunked messages, and the single message
    of the first one's role whose text is the first text, the separator
    ["|"], the second role, [":"] and the second text, give the same
    relevant content and so the same hash, whatever comes before and
    after. *)
Theorem hash_does_not_separate_messages
    (before after : list UIMessage) (m1 m2 : UIMessage) :
  shouldIncludeMessage m1 = true ->
  shouldIncludeMessage m2 = true ->
  let merged :=
    mkMessage (role m1) None
              (Some (extractTextFromMessage m1 ++ "|" ++ role m2 ++ ":"
                     ++ extractTextFromMessage m2)) in
  shouldIncludeMessage merged = true
  /\ computeConversationContentHash (before ++ [m1; m2] ++ after)
     = computeConversationContentHash (before ++ [merged] ++ after).
Proof.
  intros H1 H2 merged.
  assert (Hm : shouldIncludeMessage merged = true).
  { destruct (included_role m1 H1) as [Hrole Hink].
    unfold shouldIncludeMessage in *. subst merged. cbn [role].
    destruct (negb (String.eqb (role m1) "user") && negb (String.eqb (role m1) "assistant"));
      [discriminate|].
    unfold extractTextFromMessage at 1. cbn [parts content].
    now rewrite trim_ink, (has_ink_app_l _ _ Hink). }
  split; [exact Hm|].
  unfold computeConversationContentHash, relevantContent. do 2 f_equal.
  rewrite !List.filter_app, !map_app.
  change [m1; m2] with ([m1] ++ [m2])%list.
  rewrite List.filter_app, !included_filter by assumption.
  simpl map at 2 3 5. rewrite (join_merge "|"). do 3 f_equal.
  subst merged. unfold extractTextFromMessage at 3. cbn [parts content role].
  now rewrite !string_app_assoc.
Qed.

Lemma hash_does_not_separate_messages_witness :
  computeConversationContentHash [userMessage "a"; userMessage "b"]
  = computeConversationContentHash [mkMessage "user" None (Some "a|user:b")].
Proof.
  apply (hash_does_not_separate_messages [] [] (userMessage "a") (userMessage "b"));
    reflexivity.
Defined.

End HashFacts.

(* ===================================================================== *)
(** ** Rankings of the reranker                                       *)
(* ===================================================================== *)

Section RankedTop.
Import JS Reranker Props MoreProps.

Lemma StronglySorted_sublist {A} (R : A -> A -> Prop) (l1 l2 : list A) :
  l1 `sublist_of` l2 -> StronglySorted R l2 -> StronglySorted R l1.
Proof.
  induction 1 as [|x l1 l2 Hsub IH|x l1 l2 Hsub IH]; intros Hs.
  - constructor.
  - apply StronglySorted_inv in Hs as [Hs Hx]. constructor; [now apply IH|].
    apply Forall_forall. intros y Hy.
    eapply (proj1 (Forall_forall _ _) Hx), elem_of_sublist; eassumption.
  - apply StronglySorted_inv in Hs as [Hs _]. now apply IH.
Qed.

Lemma StronglySorted_imap {A B} (R1 : A -> A -> Prop) (R2 : B -> B -> Prop)
    (f : nat -> A -> B) (l : list A) :
  (forall i j x y, R1 x y -> R2 (f i x) (f j y)) ->
  StronglySorted R1 l -> StronglySorted R2 (imap f l).
Proof.
  intros Hf Hs. revert f Hf. induction Hs as [|x l Hs IH Hx]; intros f Hf; simpl.
  - constructor.
  - constructor; [apply IH; intros; now apply Hf|].
    apply Forall_forall. intros y Hy.
    apply elem_of_lookup_imap_1 in Hy as (i & z & -> & Hz).
    apply Hf. eapply (proj1 (Forall_forall _ _) Hx), list_elem_of_lookup_2, Hz.
Qed.

Lemma Forall2_map_imap {A B C} (P : B -> C -> Prop) (g : A -> B) (f : nat -> A -> C)
    (l : list A) :
  (forall i x, P (g x) (f i x)) -> Forall2 P (map g l) (imap f l).
Proof.
  revert f. induction l as [|x l IH]; intros f Hf; simpl; constructor; [apply Hf|].
  apply IH. intros. apply Hf.
Qed.

Lemma slice0_sublist {A} (l : list A) (n : Z) : slice0 l n `sublist_of` l.
Proof. unfold slice0. destruct (n <? 0)%Z; apply sublist_take. Qed.

(** Sorting by descending score, keeping the first [topK], dropping the
    scores below the threshold and numbering what is left gives a
    ranking of the scored documents. *)
Lemma ranked_top (scoredDocs : list Scored) (topK : Z) (threshold : R) :
  ranking_of (map sc_doc scoredDocs) topK threshold
    (imap (fun rank item =>
             mkRes (doc_id (sc_doc item)) (doc_text (sc_doc item)) (sc_score item)
                   (doc_originalScore (sc_doc item)) (rank + 1)
                   (doc_metadata (sc_doc item)))
          (filter (fun item => (threshold <= sc_score item)%R)
                  (slice0 (sort (fun a b => (sc_score b - sc_score a)%R) scoredDocs) topK))).
Proof.
  fold (descending sc_score).
  set (sorted := slice0 (sort (descending sc_score) scoredDocs) topK).
  set (picked := filter (fun item => (threshold <= sc_score item)%R) sorted).
  assert (Hsub : picked `sublist_of` sort (descending sc_score) scoredDocs).
  { etransitivity; [apply sublist_filter | apply slice0_sublist]. }
  split; [|split; [|split; [|split]]].
  - apply (StronglySorted_imap (fun a b => (sc_score b <= sc_score a)%R)).
    + intros i j x y Hxy. exact Hxy.
    + eapply StronglySorted_sublist; [exact Hsub | apply sort_sorted].
  - intros i r Hr. rewrite list_lookup_imap in Hr.
    destruct (picked !! i); [|discriminate]. injection Hr as <-. simpl. lia.
  - apply Forall_forall. intros r Hr.
    apply elem_of_lookup_imap_1 in Hr as (i & item & -> & Hitem).
    apply list_elem_of_lookup_2, list_elem_of_filter in Hitem as [Hthr _]. exact Hthr.
  - intros Hk. rewrite length_imap.
    etransitivity; [apply length_filter|]. subst sorted.
    rewrite slice0_nonneg by exact Hk. apply firstn_le_length.
  - exists (map sc_doc picked). split.
    + rewrite <- (sort_perm sc_score scoredDocs).
      apply fmap_submseteq, sublist_submseteq, Hsub.
    + apply Forall2_map_imap. intros i x. repeat split.
Qed.

Lemma Forall2_imap_same {A B} (P : A -> B -> Prop) (f : nat -> A -> B) (l : list A) :
  (forall i x, P x (f i x)) -> Forall2 P l (imap f l).
Proof.
  revert f. induction l as [|x l IH]; intros f Hf; simpl; constructor; [apply Hf|].
  apply IH. intros. apply Hf.
Qed.

(** The same steps give the best of the scored documents. *)
Lemma best_top (scoredDocs : list Scored) (topK : Z) (threshold : R) :
  best_of scoredDocs topK threshold
    (imap (fun rank item =>
             mkRes (doc_id (sc_doc item)) (doc_text (sc_doc item)) (sc_score item)
                   (doc_originalScore (sc_doc item)) (rank + 1)
                   (doc_metadata (sc_doc item)))
          (filter (fun item => (threshold <= sc_score item)%R)
                  (slice0 (sort (fun a b => (sc_score b - sc_score a)%R) scoredDocs) topK))).
Proof.
  fold (descending sc_score). exists (sort (descending sc_score) scoredDocs).
  split; [apply sort_perm|]. split; [apply sort_sorted|].
  split; [intros v; apply sort_stable|]. split.
  - apply Forall2_imap_same. intros i x. repeat split.
  - intros i r Hr. rewrite list_lookup_imap in Hr.
    destruct (filter _ _ !! i); [|discriminate]. injection Hr as <-. simpl. lia.
Qed.

Lemma best_of_nil topK threshold : best_of [] topK threshold [].
Proof.
  exists []. split; [reflexivity|]. split; [constructor|]. split; [reflexivity|].
  rewrite slice0_nil. split; [constructor | intros i r Hr; discriminate].
Qed.

Lemma scoreAll_docs env query apiKey documents :
  map sc_doc (scoreAll env query apiKey documents) = documents.
Proof.
  apply list_eq. intros i. change map with (@fmap list _) at 1.
  rewrite list_lookup_fmap, scoreAll_lookup.
  destruct (documents !! i) as [doc|]; [|reflexivity]. simpl.
  now destruct (scoreWithGPT _ _ _ _ _).
Qed.

Lemma route_scoreAll_docs env query apiKey documents :
  map sc_doc (RerankRoute.scoreAll env query apiKey documents) = documents.
Proof.
  apply list_eq. intros i. change map with (@fmap list _) at 1.
  unfold RerankRoute.scoreAll. rewrite list_lookup_fmap, list_lookup_imap.
  destruct (documents !! i) as [doc|]; [|reflexivity]. simpl.
  now destruct (RerankRoute.scoreWithGPT _ _ _ _ _).
Qed.

(** What [scoreAll] gives every document, here and in the route. *)
Lemma scoreAll_scores env query apiKey documents :
  scoreAll env query apiKey documents = scoredWith (clientScore env query apiKey) documents.
Proof.
  unfold scoreAll, scoredWith. apply imap_ext. intros i doc _. unfold clientScore.
  destruct (scoreWithGPT _ _ _ _ _); [reflexivity|].
  now destruct (doc_originalScore doc).
Qed.

Lemma route_scoreAll_scores env query apiKey documents :
  RerankRoute.scoreAll env query apiKey documents
  = scoredWith (routeScore env query apiKey) documents.
Proof.
  unfold RerankRoute.scoreAll, scoredWith. apply imap_ext. intros i doc _.
  unfold routeScore, numericSemanticScore, semanticScoreOf.
  destruct (RerankRoute.scoreWithGPT _ _ _ _ _); [reflexivity|]. cbv zeta.
  destruct (doc_metadata doc) as [m|]; [destruct (m !! "semanticScore") as [[]|]|];
    now destruct (doc_originalScore doc).
Qed.

Lemma merged_backend config b :
  p_backend config = Given b -> backend (mergeConfig DEFAULT_CONFIG config) = Some b.
Proof. intros H. unfold mergeConfig. simpl. now rewrite H. Qed.

Lemma is_backend_merged config b tag :
  p_backend config = Given b ->
  is_backend (mergeConfig DEFAULT_CONFIG config) tag = String.eqb b tag.
Proof. intros H. unfold is_backend. now rewrite (merged_backend _ _ H). Qed.

(** The number of results and the lowest score the backends read out
    of the merged configuration. *)
Lemma merged_topK config :
  nullish (topK (mergeConfig DEFAULT_CONFIG config)) 5%Z = openaiTopK (p_topK config)
  /\ nullish (topK (mergeConfig DEFAULT_CONFIG config)) 10%Z = apiTopK (p_topK config).
Proof. unfold mergeConfig. simpl. now destruct (p_topK config). Qed.

Lemma merged_threshold config :
  nullish (threshold (mergeConfig DEFAULT_CONFIG config)) 0%R
  = openaiThreshold (p_threshold config).
Proof. unfold mergeConfig. simpl. now destruct (p_threshold config). Qed.

Lemma rerankWithOpenAI_ranking env query documents config apiKey :
  truthyKey (openaiApiKey config ∪ getOpenAIKey env) = Some apiKey ->
  exists results,
    rerankWithOpenAI env query documents config = Ok results
    /\ best_of (scoredWith (clientScore env query apiKey) documents)
               (nullish (topK config) 5%Z) (nullish (threshold config) 0%R) results
    /\ ranking_of documents (nullish (topK config) 5%Z) (nullish (threshold config) 0%R)
                  results.
Proof.
  intros Hkey. unfold rerankWithOpenAI. rewrite Hkey. cbv zeta.
  eexists. split; [reflexivity|]. split.
  - rewrite <- scoreAll_scores. apply best_top.
  - rewrite <- (scoreAll_docs env query apiKey documents) at 1. apply ranked_top.
Qed.

Lemma ranking_of_nil documents topK threshold : ranking_of documents topK threshold [].
Proof.
  split; [constructor|]. split; [intros i r Hr; discriminate|]. split; [constructor|].
  split; [simpl; lia|]. exists []. split; [apply submseteq_nil_l | constructor].
Qed.

Lemma rerank_openai_ranked env query apiKey documents config :
  p_backend config = Given "openai" ->
  truthyKey (spread None (p_openaiApiKey config) ∪ getOpenAIKey env) = Some apiKey ->
  exists results,
    rerank env query documents config = Ok results
    /\ best_of (scoredWith (clientScore env query apiKey) documents)
               (openaiTopK (p_topK config)) (openaiThreshold (p_threshold config)) results
    /\ ranking_of documents (openaiTopK (p_topK config))
                  (openaiThreshold (p_threshold config)) results.
Proof.
  intros Hbackend Hkey.
  destruct documents as [|d ds] eqn:Hdocs.
  - exists []. split; [reflexivity|]. split; [apply best_of_nil | apply ranking_of_nil].
  - rewrite <- Hdocs.
    destruct (rerankWithOpenAI_ranking env query documents
                (mergeConfig DEFAULT_CONFIG config) apiKey Hkey)
      as (results & Hres & Hbest & Hrank).
    rewrite (proj1 (merged_topK config)), merged_threshold in Hbest, Hrank.
    exists results. split; [|split; [exact Hbest | exact Hrank]].
    unfold rerank. cbv zeta. unfold dispatch.
    rewrite !(is_backend_merged _ _ _ Hbackend). simpl.
    rewrite Hres. now destruct documents; [discriminate Hdocs|].
Qed.

(** X10: with the backend "openai" and a key (of the configuration or
    of the browser's settings) [rerank] resolves with the best of the
    documents as the scorer scores them, a document whose scoring
    failed taking part with its original score (else 0): the documents
    by descending score, those of one score in the order given, cut to
    the first [topK] (that of the configuration; 5 when it has none or
    an undefined one), then without the scores under the threshold
    (that of the configuration; 0.2 when it has none, 0 when it is
    written as undefined), each with the score it was given and ranked
    1, 2, ... without a gap.  So the results are a ranking of some of
    the documents, no document twice. *)
Theorem rerank_openai_is_a_ranking
    (env : Env) (query apiKey : string) (documents : list RerankDocument)
    (config : PartialConfig) :
  p_backend config = Given "openai" ->
  truthyKey (spread None (p_openaiApiKey config) ∪ getOpenAIKey env) = Some apiKey ->
  exists results,
    rerank env query documents config = Ok results
    /\ best_of (scoredWith (clientScore env query apiKey) documents)
               (openaiTopK (p_topK config)) (openaiThreshold (p_threshold config)) results
    /\ ranking_of documents (openaiTopK (p_topK config))
                  (openaiThreshold (p_threshold config)) results.
Proof. apply rerank_openai_ranked. Qed.

(** Three documents, the scoring of the second fails; the threshold is
    written as undefined, so that the second document, with its
    original score of 1/62, is not dropped. *)
Lemma rerank_openai_is_a_ranking_witness :
  exists results,
    rerank (flakyClient (fun _ => "0.85")) "q" threeCandidates
           (mkPartial (Given "openai") Absent (Given "sk-test") Absent Absent Undefined)
    = Ok results
    /\ best_of (scoredWith (clientScore (flakyClient (fun _ => "0.85")) "q" "sk-test")
                           threeCandidates) 5 0 results
    /\ ranking_of threeCandidates 5 0 results.
Proof.
  apply (rerank_openai_is_a_ranking
           (flakyClient (fun _ => "0.85")) "q" "sk-test" threeCandidates
           (mkPartial (Given "openai") Absent (Given "sk-test") Absent Absent Undefined));
    reflexivity.
Defined.

(** X11: [getRecommendedReranker] never recommends "openai": in a
    browser it answers "cohere" when a Cohere key is stored and "api"
    otherwise, and outside a browser, where no key can be read, "none". *)
Theorem recommended_reranker_is_never_openai (env : Env) :
  getRecommendedReranker env <> "openai"
  /\ getRecommendedReranker env =
     if hasWindow env
     then (if isSome (truthyKey (keys_cohereApiKey (getApiKeys env))) then "cohere" else "api")
     else "none".
Proof.
  unfold getRecommendedReranker, isRerankingAvailable. cbv zeta.
  destruct (hasWindow env); simpl.
  - destruct (isSome (truthyKey (keys_cohereApiKey (getApiKeys env)))); split;
      (reflexivity || discriminate).
  - split; [discriminate | reflexivity].
Qed.

Lemma mapThrow_Throw {A B} (f : nat -> A -> result B) (l : list A) (k : nat) :
  Exists (fun x => forall i, exists e, f i x = Throw e) l ->
  exists e, mapThrow f k l = Throw e.
Proof.
  intros Hex. revert k. induction Hex as [x l Hx | x l _ IH]; intros k; cbn [mapThrow].
  - destruct (Hx k) as [e ->]. simpl. eauto.
  - destruct (f k x); simpl; [|eauto].
    destruct (IH (Datatypes.S k)) as [e ->]. simpl. eauto.
Qed.

(** X12: one bad index spoils a Cohere response.  When an entry of the
    response names a position that is not one of the documents sent,
    mapping it back throws, and [rerank] answers with all the documents
    passed through in input order, the valid entries of the response
    lost with it. *)
Theorem cohere_index_out_of_range_passes_through
    (env : Env) (query : string) (documents : list RerankDocument) (config : PartialConfig)
    (data_results : list CohereResult) :
  let finalConfig := mergeConfig DEFAULT_CONFIG config in
  p_backend config = Given "cohere" ->
  (forall apiKey,
      cohereRerank env apiKey (nullish (cohereModel finalConfig) "rerank-v3.5") query
                   (map doc_text documents) (nullish (topK finalConfig) 5%Z)
      = Json data_results) ->
  Exists (fun result => (length documents <= co_index result)%nat) data_results ->
  rerank env query documents config = Ok (passThrough documents).
Proof.
  intros finalConfig Hbackend Hfetch Hbad.
  destruct (dispatch env query documents finalConfig) as [results|e] eqn:Hd;
    [|now apply (rerank_caught _ _ _ _ e)].
  exfalso. unfold dispatch in Hd. subst finalConfig.
  rewrite !(is_backend_merged _ _ _ Hbackend) in Hd. simpl in Hd.
  unfold rerankWithCohere in Hd. destruct (truthyKey _) as [apiKey|]; [|discriminate].
  rewrite Hfetch in Hd.
  match type of Hd with
  | bind (mapThrow ?f 0%nat data_results) _ = _ =>
      destruct (mapThrow_Throw f data_results 0%nat) as [e He]
  end.
  - eapply Exists_impl; [exact Hbad|]. simpl. intros result Hresult i.
    rewrite (lookup_ge_None_2 documents (co_index result)) by exact Hresult. eauto.
  - rewrite He in Hd. discriminate.
Qed.

Lemma cohere_index_out_of_range_passes_through_witness :
  rerank (Reranker.mkEnv true (mkKeys (Some "co-key") None)
            (fun _ _ _ _ _ => Json [mkCohere 1 (9 / 10)%R; mkCohere 3 (8 / 10)%R])
            (fun _ _ _ _ => Rejected "offline")
            (fun _ _ _ _ => Rejected "offline"))
         "q" threeCandidates (mkPartial (Given "cohere") Absent Absent Absent Absent Absent)
  = Ok (passThrough threeCandidates).
Proof.
  apply (cohere_index_out_of_range_passes_through
           (Reranker.mkEnv true (mkKeys (Some "co-key") None)
              (fun _ _ _ _ _ => Json [mkCohere 1 (9 / 10)%R; mkCohere 3 (8 / 10)%R])
              (fun _ _ _ _ => Rejected "offline")
              (fun _ _ _ _ => Rejected "offline"))
           "q" threeCandidates (mkPartial (Given "cohere") Absent Absent Absent Absent Absent)
           [mkCohere 1 (9 / 10)%R; mkCohere 3 (8 / 10)%R]).
  - reflexivity.
  - reflexivity.
  - apply Exists_cons_tl, Exists_cons_hd. simpl. lia.
Defined.

End RankedTop.

(* ===================================================================== *)
(** ** The reranking route and the backend that calls it              *)
(* ===================================================================== *)

Section Route.
Import JS Reranker Props MoreProps.

Lemma truthyKey_Some (k : option string) (s : string) :
  truthyKey k = Some s -> k = Some s /\ s <> "".
Proof.
  destruct k as [t|]; simpl; [|discriminate].
  destruct t; simpl; [discriminate|]. intros [= <-]. split; [reflexivity | discriminate].
Qed.

Lemma truthyKey_nonempty (s : string) : s <> "" -> truthyKey (Some s) = Some s.
Proof. intros Hs. simpl. now destruct s. Qed.

Lemma route_handle_results env userKeyHeader isOwner apiKey query documents topK :
  RerankRoute.getAuthContext env = Ok isOwner ->
  truthyKey (RerankRoute.resolveApiKey env isOwner (truthyKey userKeyHeader)
                                       (RerankRoute.envOpenAIKey env)) = Some apiKey ->
  query <> "" -> documents <> [] ->
  exists results,
    RerankRoute.POST env userKeyHeader
      (Ok (RerankRoute.mkRequest (Some query) (Some documents) topK))
    = RerankRoute.JsonResults results
    /\ best_of (scoredWith (routeScore env query apiKey) documents)
               (nullish topK 10%Z) (15 / 100)%R results
    /\ ranking_of documents (nullish topK 10%Z) (15 / 100)%R results.
Proof.
  intros Hauth Hkey Hquery Hdocs.
  unfold RerankRoute.POST, RerankRoute.handle. rewrite Hauth. cbn [bind].
  rewrite Hkey. cbn [bind]. cbv zeta. cbn [RerankRoute.req_query RerankRoute.req_documents
                                            RerankRoute.req_topK].
  rewrite (truthyKey_nonempty _ Hquery).
  destruct documents as [|d ds] eqn:E; [contradiction|]. rewrite <- E.
  eexists. split; [reflexivity|]. split.
  - rewrite <- route_scoreAll_scores. apply best_top.
  - rewrite <- (route_scoreAll_docs env query apiKey documents) at 1. apply ranked_top.
Qed.

(** X13: with a key, a query that is not empty and at least one
    document, the route answers (status 200) with the best of the
    documents as the scorer scores them, a document whose scoring
    failed taking part with the numeric semantic score of its metadata,
    else with its original score, else with 0: the documents by
    descending score, those of one score in the order given, cut to the
    first [topK] (10 when the body has no [topK]), then without the
    scores under 0.15, each with the score it was given and ranked 1,
    2, ... without a gap.  So the results are a ranking of some of the
    documents, no document twice. *)
Theorem route_answers_with_a_ranking
    (env : RerankRoute.Env) (userKeyHeader : option string) (isOwner : bool)
    (apiKey query : string) (documents : list RerankDocument) (topK : option Z) :
  RerankRoute.getAuthContext env = Ok isOwner ->
  truthyKey (RerankRoute.resolveApiKey env isOwner (truthyKey userKeyHeader)
                                       (RerankRoute.envOpenAIKey env)) = Some apiKey ->
  query <> "" -> documents <> [] ->
  exists results,
    RerankRoute.POST env userKeyHeader
      (Ok (RerankRoute.mkRequest (Some query) (Some documents) topK))
    = RerankRoute.JsonResults results
    /\ best_of (scoredWith (routeScore env query apiKey) documents)
               (nullish topK 10%Z) (15 / 100)%R results
    /\ ranking_of documents (nullish topK 10%Z) (15 / 100)%R results.
Proof. apply route_handle_results. Qed.

(** Three documents, the scoring of the first two fails: the first
    takes part with the semantic score of its metadata, the second
    with its original score. *)
Lemma route_answers_with_a_ranking_witness :
  exists results,
    RerankRoute.POST (flakyServer (fun _ => "0.5")) None
      (Ok (RerankRoute.mkRequest (Some "q") (Some threeCandidates) None))
    = RerankRoute.JsonResults results
    /\ best_of (scoredWith (routeScore (flakyServer (fun _ => "0.5")) "q" "sk-env")
                           threeCandidates) 10 (15 / 100) results
    /\ ranking_of threeCandidates 10 (15 / 100) results.
Proof.
  apply (route_answers_with_a_ranking (flakyServer (fun _ => "0.5")) None true "sk-env"
           "q" threeCandidates None); (reflexivity || discriminate).
Defined.

Lemma route_refuses env userKeyHeader body results :
  RerankRoute.POST env userKeyHeader body = RerankRoute.JsonResults results ->
  exists isOwner apiKey query documents topK,
    RerankRoute.getAuthContext env = Ok isOwner
    /\ truthyKey (RerankRoute.resolveApiKey env isOwner (truthyKey userKeyHeader)
                                            (RerankRoute.envOpenAIKey env)) = Some apiKey
    /\ body = Ok (RerankRoute.mkRequest (Some query) (Some documents) topK)
    /\ query <> "" /\ documents <> [].
Proof.
  unfold RerankRoute.POST, RerankRoute.handle.
  destruct (RerankRoute.getAuthContext env) as [isOwner|e] eqn:Hauth; cbn [bind];
    [|discriminate].
  destruct (truthyKey (RerankRoute.resolveApiKey _ _ _ _)) as [apiKey|] eqn:Hkey;
    [|discriminate].
  destruct body as [[query documents topK]|e]; cbn [bind]; [|discriminate].
  cbv zeta. cbn [RerankRoute.req_query RerankRoute.req_documents RerankRoute.req_topK].
  destruct (truthyKey query) as [q|] eqn:Hq; [|discriminate].
  apply truthyKey_Some in Hq as [-> Hq].
  destruct documents as [[|d ds]|]; [discriminate| |discriminate].
  intros _. exists isOwner, apiKey, q, (d :: ds), topK.
  split; [reflexivity|]. split; [exact Hkey|]. split; [reflexivity|].
  split; [exact Hq | discriminate].
Qed.

(** X14: the refusals of the route.  Without a key it answers 401,
    whatever the body, even one that cannot be decoded; with a key, a
    body without a query (or with an empty one) or without documents
    (or with an empty list) is answered 400; when the authentication
    throws, or the body cannot be decoded, the answer is 500.  Results
    are given in no other case. *)
Theorem route_refusals
    (env : RerankRoute.Env) (userKeyHeader : option string)
    (body : result RerankRoute.RerankRequest) :
  let key isOwner :=
    truthyKey (RerankRoute.resolveApiKey env isOwner (truthyKey userKeyHeader)
                                         (RerankRoute.envOpenAIKey env)) in
  (forall isOwner,
      RerankRoute.getAuthContext env = Ok isOwner -> key isOwner = None ->
      RerankRoute.POST env userKeyHeader body
      = RerankRoute.JsonError "OpenAI API key required for reranking" 401)
  /\ (forall isOwner apiKey request,
         RerankRoute.getAuthContext env = Ok isOwner -> key isOwner = Some apiKey ->
         body = Ok request ->
         truthyKey (RerankRoute.req_query request) = None
         \/ RerankRoute.req_documents request = None
         \/ RerankRoute.req_documents request = Some [] ->
         RerankRoute.POST env userKeyHeader body
         = RerankRoute.JsonError "Query and documents are required" 400)
  /\ (forall e,
         RerankRoute.getAuthContext env = Throw e
         \/ (exists isOwner apiKey,
                RerankRoute.getAuthContext env = Ok isOwner /\ key isOwner = Some apiKey
                /\ body = Throw e) ->
         RerankRoute.POST env userKeyHeader body
         = RerankRoute.JsonError "Reranking failed" 500)
  /\ (forall results,
         RerankRoute.POST env userKeyHeader body = RerankRoute.JsonResults results ->
         exists isOwner apiKey query documents topK,
           RerankRoute.getAuthContext env = Ok isOwner
           /\ key isOwner = Some apiKey
           /\ body = Ok (RerankRoute.mkRequest (Some query) (Some documents) topK)
           /\ query <> "" /\ documents <> []).
Proof.
  intros key. subst key. cbv beta. split; [|split; [|split]].
  - intros isOwner Hauth Hkey. unfold RerankRoute.POST, RerankRoute.handle.
    rewrite Hauth. cbn [bind]. now rewrite Hkey.
  - intros isOwner apiKey request Hauth Hkey -> Hbad.
    unfold RerankRoute.POST, RerankRoute.handle.
    rewrite Hauth. cbn [bind]. rewrite Hkey. cbn [bind]. cbv zeta.
    destruct Hbad as [-> | [-> | ->]]; [reflexivity | |];
      now destruct (truthyKey (RerankRoute.req_query request)).
  - intros e [Hauth | (isOwner & apiKey & Hauth & Hkey & ->)];
      unfold RerankRoute.POST, RerankRoute.handle; rewrite Hauth; cbn [bind];
      [reflexivity|]. now rewrite Hkey.
  - apply route_refuses.
Qed.

Lemma rerankWithAPI_served client server statusText query documents config :
  rerankApi client = served server statusText ->
  rerankWithAPI client query documents config
  = match RerankRoute.POST server
            (truthyKey (keys_openaiApiKey
                          (if hasWindow client then getApiKeys client else mkKeys None None)))
            (Ok (RerankRoute.mkRequest (Some query) (Some documents)
                                       (Some (nullish (topK config) 10%Z)))) with
    | RerankRoute.JsonResults results => Ok results
    | RerankRoute.JsonError error status =>
        Throw ("Rerank API failed: " ++ nullish (truthyKey (Some error)) (statusText status))
    end.
Proof.
  intros Hserved. unfold rerankWithAPI. cbv zeta. rewrite Hserved. unfold served.
  now destruct (RerankRoute.POST _ _ _).
Qed.

Lemma rerank_api_served
    (client : Env) (server : RerankRoute.Env) (statusText : nat -> string)
    (query : string) (documents : list RerankDocument) (config : PartialConfig) :
  rerankApi client = served server statusText ->
  p_backend config = Given "api" ->
  documents <> [] ->
  let userKey :=
    truthyKey (keys_openaiApiKey
                 (if hasWindow client then getApiKeys client else mkKeys None None)) in
  let ranked apiKey :=
    query <> ""
    /\ exists isOwner,
        RerankRoute.getAuthContext server = Ok isOwner
        /\ truthyKey (RerankRoute.resolveApiKey server isOwner (truthyKey userKey)
                        (RerankRoute.envOpenAIKey server)) = Some apiKey in
  exists results,
    rerank client query documents config = Ok results
    /\ (forall apiKey,
          ranked apiKey ->
          best_of (scoredWith (routeScore server query apiKey) documents)
                  (apiTopK (p_topK config)) (15 / 100)%R results
          /\ ranking_of documents (apiTopK (p_topK config)) (15 / 100)%R results)
    /\ ((forall apiKey, ~ ranked apiKey) -> results = passThrough documents).
Proof.
  intros Hserved Hbackend Hdocs userKey ranked.
  assert (Hrerank :
            rerank client query documents config
            = try_catch (rerankWithAPI client query documents
                                       (mergeConfig DEFAULT_CONFIG config))
                        (fun _ => Ok (passThrough documents))).
  { unfold rerank. cbv zeta. unfold dispatch.
    rewrite !(is_backend_merged _ _ _ Hbackend). simpl.
    now destruct documents. }
  rewrite Hrerank, (rerankWithAPI_served _ _ _ _ _ _ Hserved).
  rewrite (proj2 (merged_topK config)). fold userKey.
  destruct (RerankRoute.POST server userKey _) as [error status|results] eqn:Hpost.
  - exists (passThrough documents). split; [|split; [|reflexivity]]; [reflexivity|].
    intros apiKey (Hquery & isOwner & Hauth & Hkey).
    destruct (route_handle_results server userKey isOwner apiKey query documents
                (Some (apiTopK (p_topK config))) Hauth Hkey Hquery Hdocs)
      as (results & Hres & _).
    rewrite Hres in Hpost. discriminate.
  - exists results. split; [reflexivity|].
    destruct (route_refuses _ _ _ _ Hpost)
      as (isOwner & apiKey & q & ds & k & Hauth & Hkey & [= <- <- <-] & Hquery & _).
    split.
    + intros apiKey' (_ & isOwner' & Hauth' & Hkey').
      destruct (route_handle_results server userKey isOwner' apiKey' query documents
                  (Some (apiTopK (p_topK config))) Hauth' Hkey' Hquery Hdocs)
        as (results' & Hres & Hbest & Hrank).
      rewrite Hres in Hpost. injection Hpost as <-. split; [exact Hbest | exact Hrank].
    + intros Hnot. exfalso. apply (Hnot apiKey). split; [exact Hquery|]. eauto.
Qed.

(** X15: the backend "api" against the route.  When "/api/rerank" is
    served by the route, [rerank] with the backend "api" asks the route
    for [topK] results ([topK] being that of the configuration, 5 when
    the configuration has none and 10 when it is written as undefined)
    and, if the route has a key and the query is not empty, resolves
    with what the route makes of the documents: the best [topK] by the
    route's own scores, without the scores under the route's 0.15 (the
    [threshold] of the configuration is not looked at).  In every other
    case (no key, an empty query, a failing authentication) it resolves
    with all the documents passed through. *)
Theorem api_backend_through_the_route
    (client : Env) (server : RerankRoute.Env) (statusText : nat -> string)
    (query : string) (documents : list RerankDocument) (config : PartialConfig) :
  rerankApi client = served server statusText ->
  p_backend config = Given "api" ->
  documents <> [] ->
  let userKey :=
    truthyKey (keys_openaiApiKey
                 (if hasWindow client then getApiKeys client else mkKeys None None)) in
  let ranked apiKey :=
    query <> ""
    /\ exists isOwner,
        RerankRoute.getAuthContext server = Ok isOwner
        /\ truthyKey (RerankRoute.resolveApiKey server isOwner (truthyKey userKey)
                        (RerankRoute.envOpenAIKey server)) = Some apiKey in
  exists results,
    rerank client query documents config = Ok results
    /\ (forall apiKey,
          ranked apiKey ->
          best_of (scoredWith (routeScore server query apiKey) documents)
                  (apiTopK (p_topK config)) (15 / 100)%R results
          /\ ranking_of documents (apiTopK (p_topK config)) (15 / 100)%R results)
    /\ ((forall apiKey, ~ ranked apiKey) -> results = passThrough documents).
Proof. apply rerank_api_served. Qed.

(** The configuration writes [topK] as undefined (and a threshold of
    1, which the route does not look at): the route is asked for 10
    results. *)
Lemma api_backend_through_the_route_witness :
  exists results,
    rerank (sampleClient (fun _ => "0.5")) "q" threeCandidates
           (mkPartial (Given "api") Absent Absent Absent Undefined (Given 1%R)) = Ok results
    /\ ranking_of threeCandidates 10 (15 / 100) results.
Proof.
  destruct (api_backend_through_the_route
              (sampleClient (fun _ => "0.5")) (sampleServer (fun _ => "0.5"))
              (fun _ => "error") "q" threeCandidates
              (mkPartial (Given "api") Absent Absent Absent Undefined (Given 1%R)))
    as (results & Hres & Hranked & _); [reflexivity | reflexivity | discriminate |].
  exists results. split; [exact Hres|]. apply (Hranked "sk-env").
  split; [discriminate|]. exists true. split; reflexivity.
Defined.

End Route.

(* ===================================================================== *)
(** ** Rank fusion and the paths of the search                        *)
(* ===================================================================== *)

Section RankFusion.
Import JS Reranker LargeDocuments Props MoreProps.
Local Open Scope R_scope.






End RankFusion.

Section SearchPaths.
Import JS Reranker LargeDocuments Props MoreProps.

Lemma Int_part_mono (x y : R) : (x <= y)%R -> (Int_part x <= Int_part y)%Z.
Proof.
  intros Hxy. destruct (base_Int_part x) as [Hx _]. destruct (base_Int_part y) as [_ Hy].
  destruct (Z_lt_le_dec (Int_part y) (Int_part x)) as [Hlt|Hle]; [exfalso | exact Hle].
  assert (H1 : (Int_part y + 1 <= Int_part x)%Z) by lia.
  apply IZR_le in H1. rewrite plus_IZR in H1. lra.
Qed.

Lemma round2_mono (x y : R) : (x <= y)%R -> (round2 x <= round2 y)%R.
Proof.
  intros Hxy. unfold round2, round.
  apply Rmult_le_compat_r; [lra|]. apply IZR_le, Int_part_mono. lra.
Qed.

Lemma StronglySorted_map {A B} (f : A -> B) (R1 : A -> A -> Prop) (R2 : B -> B -> Prop)
    (l : list A) :
  (forall x y, R1 x y -> R2 (f x) (f y)) ->
  StronglySorted R1 l -> StronglySorted R2 (map f l).
Proof.
  intros Hf. induction 1 as [|x l Hs IH Hx]; simpl; constructor; [exact IH|].
  apply Forall_map. eapply Forall_impl; [exact Hx|]. intros y. apply Hf.
Qed.

Lemma short_sorted {A} (R : A -> A -> Prop) (l : list A) :
  (length l <= 1)%nat -> StronglySorted R l.
Proof.
  destruct l as [|x [|y l]]; simpl; intros H; [constructor | | lia].
  constructor; constructor.
Qed.

Lemma slice0_length {A} (l : list A) (n : Z) :
  (0 <= n)%Z -> (length (slice0 l n) <= Z.to_nat n)%nat.
Proof. intros Hn. rewrite slice0_nonneg by exact Hn. apply firstn_le_length. Qed.

Lemma slice0_length_le {A} (l : list A) (n : Z) : (length (slice0 l n) <= length l)%nat.
Proof. apply sublist_length, slice0_sublist. Qed.

Lemma rerankDocOf_metadata withDocumentId (docs : list RerankDocument)
    (filtered : list Combined) (reranked : list RerankResult) :
  docs ⊆+ map (rerankDocOf withDocumentId) filtered ->
  Forall2 result_of docs reranked ->
  Forall (fun r => exists meta, res_metadata r = Some meta) reranked.
Proof.
  intros Hsub Hres. apply Forall_forall. intros r Hr.
  destruct (proj1 (list_elem_of_lookup _ _) Hr) as [i Hi].
  destruct (Forall2_lookup_r _ _ _ _ _ Hres Hi) as (d & Hd & _ & _ & _ & Hmeta).
  apply list_elem_of_lookup_2 in Hd.
  apply (elem_of_submseteq _ _ _ Hd) in Hsub.
  apply list_elem_of_In, in_map_iff in Hsub as (c & <- & _).
  rewrite Hmeta. simpl. eauto.
Qed.

Section Embedded.
Variables (env : LargeDocuments.Env) (query : string) (o : LargeDocumentSearchOptions).
Variables (chunks : list LargeDocumentChunk) (lexicalResults : list LargeDocLexicalResult).
Variables (queryEmbedding : list R) (queryType : string) (withDocumentId : bool).
Variable metaDocumentId : gmap string JsValue -> JsValue.
Variable metaDoc : gmap string JsValue -> option LargeDocumentMetadata.
Variable chunkDocumentId : LargeDocumentChunk -> string.
Variable chunkDoc : LargeDocumentChunk -> option LargeDocumentMetadata.

Local Abbreviation filtered :=
  (filteredOf env o (fuse chunks lexicalResults queryEmbedding (rrfKOf o))).

Local Abbreviation reranking :=
  (rerank (rerankerEnv env) query (map (rerankDocOf withDocumentId) filtered)
          (mkPartial
             (Given (nullish (o_rerankerBackend o) (getRecommendedReranker (rerankerEnv env))))
             Absent Absent Absent (Given (topKOf o)) Absent)).

Local Abbreviation embedded :=
  (searchEmbedded env query o chunks lexicalResults queryEmbedding queryType withDocumentId
                  metaDocumentId metaDoc chunkDocumentId chunkDoc).


(** With reranking, when the reranker answers with a ranking within
    [topK], so does the search, by descending score. *)
Lemma searchEmbedded_ranked (threshold : R) :
  shouldRerankOf env o = true -> (0 <= topKOf o)%Z ->
  (forall reranked, reranking = Ok reranked ->
     ranking_of (map (rerankDocOf withDocumentId) filtered) (topKOf o) threshold reranked) ->
  exists results,
    embedded = Ok results
    /\ (length results <= Z.to_nat (topKOf o))%nat
    /\ StronglySorted (fun a b => (score b <= score a)%R) results.
Proof.
  intros Hre Hk Hranking.
  destruct (1 <? length filtered)%nat eqn:Hlen.
  - rewrite searchEmbedded_reranked by now rewrite Hre, Hlen.
    destruct (rerank_total (rerankerEnv env) query (map (rerankDocOf withDocumentId) filtered)
                (mkPartial
                   (Given (nullish (o_rerankerBackend o)
                                  (getRecommendedReranker (rerankerEnv env))))
                   Absent Absent Absent (Given (topKOf o)) Absent)) as [reranked Hreranked].
    rewrite Hreranked. cbn [bind].
    destruct (Hranking _ Hreranked) as (Hsorted & _ & _ & Hcount & docs & Hsub & Hres).
    pose proof (rerankDocOf_metadata _ _ _ _ Hsub Hres) as Hmeta.
    set (toResult := fun r : RerankResult =>
           mkResult (metaDocumentId (default ∅ (res_metadata r)))
                    (filenameOr (metaDoc (default ∅ (res_metadata r))))
                    (res_text r)
                    (field (default ∅ (res_metadata r)) "headingPath")
                    (round2 (relevanceScore r))
                    (field (default ∅ (res_metadata r)) "chunkIndex")
                    (Some true)
                    (breakdown (includeBreakdownOf o)
                               (field (default ∅ (res_metadata r)) "matchedTerms"))
                    (breakdown (includeBreakdownOf o) queryType)).
    rewrite (mapThrow_Ok _ toResult).
    + cbn [try_catch]. eexists. split; [reflexivity|]. split.
      * rewrite length_map. now apply Hcount.
      * apply (StronglySorted_map toResult
                 (fun a b => (relevanceScore b <= relevanceScore a)%R)); [|exact Hsorted].
        intros x y Hxy. simpl. now apply round2_mono.
    + intros _ r Hr. destruct (proj1 (Forall_forall _ _) Hmeta r Hr) as [meta Hm].
      unfold rerankedResult, toResult. now rewrite Hm.
  - rewrite searchEmbedded_fused by (rewrite Hlen; apply andb_false_r).
    apply Nat.ltb_ge in Hlen. eexists. split; [reflexivity|].
    rewrite length_map. split; [now apply slice0_length|].
    apply short_sorted. rewrite length_map.
    etransitivity; [apply slice0_length_le | exact Hlen].
Qed.

End Embedded.

End SearchPaths.


Section SearchTheorems.
Import JS Reranker LargeDocuments Props MoreProps.

Lemma searchLargeDocuments_embedded_any env query topKOrOptions threshold
    (allChunks : list LargeDocumentChunk) (allDocs : list LargeDocumentMetadata)
    (queryEmbedding : list R) :
  getAllChunks env = Ok allChunks -> getAllDocuments env = Ok allDocs ->
  embedQuery env query = Ok queryEmbedding ->
  searchLargeDocuments env query topKOrOptions threshold
  = searchEmbedded env query (resolveOptions topKOrOptions threshold) allChunks
      (largeDocLexicalSearch env query allChunks) queryEmbedding (detectQueryType env query)
      true
      (fun meta => field meta "documentId")
      (fun meta => docMapGet (docMapOf allDocs) (field meta "documentId"))
      documentId
      (fun c => docMapOf allDocs !! documentId c).
Proof.
  intros Hchunks Hdocs Hembed. destruct allChunks as [|c cs].
  - unfold searchLargeDocuments. cbv zeta. rewrite Hchunks. cbn [bind].
    symmetry. apply searchEmbedded_empty.
    unfold filteredOf, fuse, combinedResultsOf. cbv zeta. simpl. now rewrite slice0_nil.
  - now apply searchLargeDocuments_embedded.
Qed.





(** X18: with reranking by the backend "openai" and a stored key, the
    search over all documents returns at most [topK] results, by
    descending score (the rounded score of the scorer). *)
Theorem openai_reranked_search_within_topK
    (env : LargeDocuments.Env) (query apiKey : string) (o : LargeDocumentSearchOptions)
    (allChunks : list LargeDocumentChunk) (allDocs : list LargeDocumentMetadata)
    (queryEmbedding : list R) :
  getAllChunks env = Ok allChunks -> getAllDocuments env = Ok allDocs ->
  embedQuery env query = Ok queryEmbedding ->
  o_rerank o = Some true -> o_rerankerBackend o = Some "openai" ->
  truthyKey (getOpenAIKey (rerankerEnv env)) = Some apiKey ->
  (0 <= topKOf o)%Z ->
  exists results,
    searchLargeDocuments env query (Some (Options o)) None = Ok results
    /\ (length results <= Z.to_nat (topKOf o))%nat
    /\ StronglySorted (fun a b => (score b <= score a)%R) results.
Proof.
  intros Hchunks Hdocs Hembed Hre Hbackend Hkey Hk.
  rewrite (searchLargeDocuments_embedded_any _ _ _ _ _ _ _ Hchunks Hdocs Hembed).
  change (resolveOptions (Some (Options o)) None) with o.
  apply (searchEmbedded_ranked _ _ _ _ _ _ _ _ _ _ _ _ (2 / 10)%R).
  - unfold shouldRerankOf. now rewrite Hre.
  - exact Hk.
  - intros reranked Hreranked. rewrite Hbackend in Hreranked.
    cbn [nullish default] in Hreranked.
    edestruct (rerank_openai_ranked (rerankerEnv env) query apiKey)
      as (results & Hres & _ & Hrank); [| |rewrite Hres in Hreranked].
    + reflexivity.
    + cbn [p_openaiApiKey spread]. destruct (getOpenAIKey (rerankerEnv env)); exact Hkey.
    + injection Hreranked as <-. exact Hrank.
Qed.

Lemma openai_reranked_search_within_topK_witness :
  exists results,
    searchLargeDocuments (rerankingEnv (keyedClient (fun _ => "0.5")) sampleChunks)
                         "primes" (Some (Options (oneResultBy "openai"))) None = Ok results
    /\ (length results <= 1)%nat
    /\ StronglySorted (fun a b => (score b <= score a)%R) results.
Proof.
  apply (openai_reranked_search_within_topK
           (rerankingEnv (keyedClient (fun _ => "0.5")) sampleChunks) "primes" "sk-user"
           (oneResultBy "openai") sampleChunks [sampleDocument] [3; 4]%R);
    (reflexivity || (cbv; congruence)).
Defined.

(** X19: the same through the server.  With reranking by the backend
    "api", "/api/rerank" served by the route, a key on the server and a
    query that is not empty, the search over all documents returns at
    most [topK] results, by descending score. *)
Theorem api_reranked_search_within_topK
    (env : LargeDocuments.Env) (server : RerankRoute.Env) (statusText : nat -> string)
    (isOwner : bool) (query apiKey : string) (o : LargeDocumentSearchOptions)
    (allChunks : list LargeDocumentChunk) (allDocs : list LargeDocumentMetadata)
    (queryEmbedding : list R) :
  getAllChunks env = Ok allChunks -> getAllDocuments env = Ok allDocs ->
  embedQuery env query = Ok queryEmbedding ->
  o_rerank o = Some true -> o_rerankerBackend o = Some "api" ->
  rerankApi (rerankerEnv env) = served server statusText ->
  RerankRoute.getAuthContext server = Ok isOwner ->
  (forall userKey,
      truthyKey (RerankRoute.resolveApiKey server isOwner userKey
                                           (RerankRoute.envOpenAIKey server)) = Some apiKey) ->
  query <> "" ->
  (0 <= topKOf o)%Z ->
  exists results,
    searchLargeDocuments env query (Some (Options o)) None = Ok results
    /\ (length results <= Z.to_nat (topKOf o))%nat
    /\ StronglySorted (fun a b => (score b <= score a)%R) results.
Proof.
  intros Hchunks Hdocs Hembed Hre Hbackend Hserved Hauth Hkey Hquery Hk.
  rewrite (searchLargeDocuments_embedded_any _ _ _ _ _ _ _ Hchunks Hdocs Hembed).
  change (resolveOptions (Some (Options o)) None) with o.
  apply (searchEmbedded_ranked _ _ _ _ _ _ _ _ _ _ _ _ (15 / 100)%R).
  - unfold shouldRerankOf. now rewrite Hre.
  - exact Hk.
  - intros reranked Hreranked. rewrite Hbackend in Hreranked.
    cbn [nullish default] in Hreranked.
    destruct (map (rerankDocOf true) _) as [|d ds] eqn:Hdocuments.
    + injection Hreranked as <-. apply ranking_of_nil.
    + rewrite <- Hdocuments in *.
      edestruct (rerank_api_served (rerankerEnv env) server statusText query)
        as (results & Hres & Hranked & _);
        [exact Hserved | | | rewrite Hres in Hreranked].
      * reflexivity.
      * rewrite Hdocuments. discriminate.
      * injection Hreranked as <-. apply (Hranked apiKey).
        split; [exact Hquery|]. exists isOwner. split; [exact Hauth | apply Hkey].
Qed.

Lemma api_reranked_search_within_topK_witness :
  exists results,
    searchLargeDocuments (rerankingEnv (sampleClient (fun _ => "0.5")) sampleChunks)
                         "primes" (Some (Options (oneResultBy "api"))) None = Ok results
    /\ (length results <= 1)%nat
    /\ StronglySorted (fun a b => (score b <= score a)%R) results.
Proof.
  apply (api_reranked_search_within_topK
           (rerankingEnv (sampleClient (fun _ => "0.5")) sampleChunks)
           (sampleServer (fun _ => "0.5")) (fun _ => "error") true "primes" "sk-env"
           (oneResultBy "api") sampleChunks [sampleDocument] [3; 4]%R);
    try reflexivity; try discriminate; cbv; congruence.
Defined.




End SearchTheorems.

(* ===================================================================== *)
(** ** PDF extraction, indexing and the chunk store                   *)
(* ===================================================================== *)

Section PdfExtraction.
Import JS DocumentStore MoreProps.

(** X22: [extractPdfText] gives the joined text of the pages and their
    number exactly when PDF.js reads the file and the trimmed text has
    at least 50 characters for a PDF of one page (or none), at least 100
    for every PDF of more pages: the rule of 50 characters a page never
    asks for less than 100, nor for more. *)
Theorem extractPdfText_needs_50_or_100_characters
    (env : Env) (file : File) (pages : list (list (option string))) :
  pdfPages env file = Ok pages ->
  let enough :=
    if (length pages <=? 1)%nat
    then (50 <=? String.length (trim (pdfFullText pages)))%nat
    else (100 <=? String.length (trim (pdfFullText pages)))%nat in
  extractPdfText env file
  = if enough then Some (pdfFullText pages, length pages) else None.
Proof.
  intros Hpages. cbv zeta. unfold extractPdfText. rewrite Hpages. cbv zeta.
  assert (Htext : join (String newline (String newline ""))
                    (map (fun items =>
                            join " " (map (fun str => match str with
                                                      | Some s => if truthy s then s else ""
                                                      | None => ""
                                                      end) items)) pages)
                  = pdfFullText pages).
  { unfold pdfFullText. f_equal. apply map_ext. intros items. f_equal.
    apply map_ext. intros [[|c s]|]; reflexivity. }
  rewrite Htext.
  destruct (Nat.leb_spec (length pages) 1) as [Hle|Hgt].
  - replace (1 <? length pages)%nat with false by (symmetry; apply Nat.ltb_ge; lia).
    destruct (Nat.ltb_spec (String.length (trim (pdfFullText pages))) 50),
             (Nat.leb_spec 50 (String.length (trim (pdfFullText pages))));
      (reflexivity || lia).
  - replace (1 <? length pages)%nat with true by (symmetry; apply Nat.ltb_lt; lia).
    replace (Nat.min 100 (length pages * 50)) with 100%nat by lia.
    destruct (Nat.ltb_spec (String.length (trim (pdfFullText pages))) 100),
             (Nat.leb_spec 100 (String.length (trim (pdfFullText pages))));
      (reflexivity || lia).
Qed.

Lemma extractPdfText_needs_50_or_100_characters_witness :
  extractPdfText
    (mkEnv (fun _ => Throw "binary")
           (fun _ => Ok [[Some "Scanned"; None]; [Some "page"]; []])
           (fun _ => ParseRejected "offline") (fun _ _ => []) (fun _ => Ok [])
           (fun _ => []) (fun _ => Ok tt) (fun _ => Ok tt) (fun l => l)
           (fun _ => Ok tt) (fun _ => Ok tt) (fun _ => Ok tt))
    (mkFile "scan.pdf" "application/pdf" 1000)
  = None.
Proof.
  apply (extractPdfText_needs_50_or_100_characters
           (mkEnv (fun _ => Throw "binary")
                  (fun _ => Ok [[Some "Scanned"; None]; [Some "page"]; []])
                  (fun _ => ParseRejected "offline") (fun _ _ => []) (fun _ => Ok [])
                  (fun _ => []) (fun _ => Ok tt) (fun _ => Ok tt) (fun l => l)
           (fun _ => Ok tt) (fun _ => Ok tt) (fun _ => Ok tt))
           (mkFile "scan.pdf" "application/pdf" 1000)
           [[Some "Scanned"; None]; [Some "page"]; []]).
  reflexivity.
Defined.

End PdfExtraction.

Section Indexing.
Import JS DocumentStore MoreProps.

Lemma natToString_inj (a b : nat) : natToString a = natToString b -> a = b.
Proof.
  unfold natToString. intros H.
  assert (Hn : forall n, Nat.to_uint n <> Decimal.Nil).
  { intros n. rewrite <- (Unsigned.of_to n) at 1. rewrite Unsigned.to_of.
    apply unorm_nonnil. }
  apply Unsigned.to_uint_inj.
  pose proof (DecimalString.NilZero.usu _ (Hn a)) as Ha.
  pose proof (DecimalString.NilZero.usu _ (Hn b)) as Hb.
  rewrite H in Ha. rewrite Ha in Hb. now injection Hb.
Qed.

Lemma chunkKey_inj (documentId : string) (a b : nat) :
  chunkKey documentId a = chunkKey documentId b -> a = b.
Proof.
  unfold chunkKey. intros H. apply String.app_inj in H. apply String.app_inj in H.
  now apply natToString_inj.
Qed.

(** *** The stages of the indexing *)

(** Reading the content leaves the database alone; it gives the
    content of the file unless a progress callback throws. *)
Lemma readContent_run env file db log :
  exists r events,
    readContent env file
      (if truthy (file_type file) then file_type file else "text/plain") db log
    = (r, db, (log ++ events)%list)
    /\ StronglySorted (fun a b => (current a <= current b)%R) events
    /\ Forall (fun p => (0 <= current p <= 1)%R /\ total p = 5%R) events
    /\ (r = contentOf env file
        \/ exists p e, progressCallback env p = Throw e /\ r = Throw e).
Proof.
  unfold readContent, contentOf. cbv zeta.
  destruct (String.eqb _ "application/pdf").
  - unfold bindP at 1. unfold onProgress at 1.
    destruct (progressCallback env _) as [[]|e] eqn:Hcb1.
    + destruct (extractPdfText env file) as [[text numPages]|].
      * eexists _, [_]. split; [reflexivity|]. split; [repeat constructor|]. split.
        -- apply Forall_singleton. simpl. split; [lra | reflexivity].
        -- now left.
      * unfold bindP, onProgress, lift.
        assert (Hev : StronglySorted (fun a b => (current a <= current b)%R)
                        [mkProgress 0 5 "pdf-extraction" "Extracting text from PDF...";
                         mkProgress (5 / 10) 5 "ai-extraction"
                           "Using AI to extract text from scanned PDF..."]
                      /\ Forall (fun p => (0 <= current p <= 1)%R /\ total p = 5%R)
                           [mkProgress 0 5 "pdf-extraction" "Extracting text from PDF...";
                            mkProgress (5 / 10) 5 "ai-extraction"
                              "Using AI to extract text from scanned PDF..."]).
        { split.
          - repeat constructor. simpl. lra.
          - apply Forall_cons. split; [simpl; split; [lra | reflexivity]|].
            apply Forall_singleton. simpl. split; [lra | reflexivity]. }
        destruct Hev as [Hsorted Hrange].
        destruct (progressCallback env (mkProgress (5 / 10) 5 _ _)) as [[]|e] eqn:Hcb2.
        -- eexists _, [_; _]. rewrite <- app_assoc. split; [reflexivity|].
           split; [exact Hsorted|]. split; [exact Hrange | now left].
        -- eexists _, [_; _]. rewrite <- app_assoc. split; [reflexivity|].
           split; [exact Hsorted|]. split; [exact Hrange | right; eauto].
    + eexists _, [_]. split; [reflexivity|]. split; [repeat constructor|]. split.
      * apply Forall_singleton. simpl. split; [lra | reflexivity].
      * right. eauto.
  - exists (fileText env file), []. rewrite app_nil_r. split; [reflexivity|].
    split; [constructor|]. split; [constructor | now left].
Qed.

Lemma batchRecords_lookup env documentId (cs : list MarkdownChunk) i embeddings j r :
  batchRecords env documentId i (take BATCH_SIZE (drop i cs)) embeddings !! j = Some r ->
  exists c, cs !! (i + j)%nat = Some c /\ record_of documentId (i + j) c r.
Proof.
  unfold batchRecords. rewrite list_lookup_imap.
  destruct (take BATCH_SIZE (drop i cs) !! j) as [c|] eqn:Hc; [|discriminate].
  simpl. intros [= <-]. exists c. split.
  - apply lookup_take_Some in Hc as [Hc _]. now rewrite lookup_drop in Hc.
  - repeat split.
Qed.

Lemma batchRecords_length env documentId (cs : list MarkdownChunk) i embeddings :
  length (batchRecords env documentId i (take BATCH_SIZE (drop i cs)) embeddings)
  = Nat.min BATCH_SIZE (length cs - i).
Proof. unfold batchRecords. now rewrite length_imap, length_take, length_drop. Qed.

(** One batch: the records it adds and the progress it reports, unless
    the embedding service fails or the callback throws. *)
Lemma embedBatch_run env documentId cs acc i db log :
  exists r events,
    embedBatch env documentId cs acc i db log = (r, db, (log ++ events)%list)
    /\ match r with
       | Ok records =>
           (exists embeddings,
               records
               = (acc ++ batchRecords env documentId i (take BATCH_SIZE (drop i cs))
                                      embeddings)%list)
           /\ events
              = [mkProgress (Rmin (2 + INR (i + BATCH_SIZE) / INR (length cs) * 2) 4) 5
                            "embedding"
                            ("Embedded "
                               ++ natToString (Nat.min (i + BATCH_SIZE) (length cs))
                               ++ " of " ++ natToString (length cs) ++ " chunks...")]
       | Throw e =>
           (exists texts, embedTexts env texts = Throw e)
           \/ (exists p, progressCallback env p = Throw e)
       end.
Proof.
  unfold embedBatch. cbv zeta. unfold bindP, lift, onProgress, ret.
  destruct (embedTexts env _) as [embeddings|e] eqn:Hembed.
  - destruct (progressCallback env _) as [[]|e] eqn:Hcb.
    + eexists (Ok _), [_]. split; [reflexivity|]. split; [eauto | reflexivity].
    + eexists (Throw _), [_]. split; [reflexivity|]. right. eauto.
  - eexists (Throw _), []. rewrite app_nil_r. split; [reflexivity|]. left. eauto.
Qed.

Lemma progress_mono (n b b' : nat) :
  (b <= b')%nat ->
  (Rmin (2 + INR (b * BATCH_SIZE + BATCH_SIZE) / INR n * 2) 4
   <= Rmin (2 + INR (b' * BATCH_SIZE + BATCH_SIZE) / INR n * 2) 4)%R.
Proof.
  intros Hb. apply Rle_min_compat_r.
  apply Rplus_le_compat_l, Rmult_le_compat_r; [lra|].
  unfold Rdiv. apply Rmult_le_compat_r.
  - destruct n; [simpl; rewrite Rinv_0; lra|].
    apply Rlt_le, Rinv_0_lt_compat, lt_0_INR. lia.
  - apply le_INR. unfold BATCH_SIZE. lia.
Qed.

Lemma progress_range (n i : nat) :
  (2 <= Rmin (2 + INR (i + BATCH_SIZE) / INR n * 2) 4 <= 4)%R.
Proof.
  split; [|apply Rmin_r]. apply Rmin_glb; [|lra].
  assert (0 <= INR (i + BATCH_SIZE) / INR n)%R; [|lra].
  unfold Rdiv. apply Rmult_le_pos; [apply pos_INR|].
  destruct n; [simpl; rewrite Rinv_0; lra|].
  apply Rlt_le, Rinv_0_lt_compat, lt_0_INR. lia.
Qed.

(** The loop over the batches: it leaves the database alone; when it
    completes, the records are those of the chunks before the end of
    the last batch, in order, and the progress it reported grows from
    batch to batch; when it fails, the embedding service failed or the
    callback threw. *)
Lemma fold_batches env documentId cs (m : nat) :
  forall (b : nat) acc db log,
    length acc = Nat.min (b * BATCH_SIZE) (length cs) ->
    (forall k r, acc !! k = Some r ->
                 exists c, cs !! k = Some c /\ record_of documentId k c r) ->
    exists r events,
      foldP (embedBatch env documentId cs)
            (map (fun b => (b * BATCH_SIZE)%nat) (seq b m)) acc db log
      = (r, db, (log ++ events)%list)
      /\ match r with
         | Ok records =>
             length records = Nat.min ((b + m) * BATCH_SIZE) (length cs)
             /\ (forall k r, records !! k = Some r ->
                             exists c, cs !! k = Some c /\ record_of documentId k c r)
             /\ StronglySorted (fun a b => (current a <= current b)%R) events
             /\ Forall (fun p =>
                          (Rmin (2 + INR (b * BATCH_SIZE + BATCH_SIZE) / INR (length cs) * 2) 4
                           <= current p <= 4)%R /\ total p = 5%R) events
         | Throw e =>
             (exists texts, embedTexts env texts = Throw e)
             \/ (exists p, progressCallback env p = Throw e)
         end.
Proof.
  induction m as [|m IH]; intros b acc db log Hlen Hacc.
  - exists (Ok acc), []. simpl. rewrite app_nil_r, Nat.add_0_r.
    split; [reflexivity|]. repeat split; auto; constructor.
  - cbn [seq map foldP]. unfold bindP at 1.
    destruct (embedBatch_run env documentId cs acc (b * BATCH_SIZE) db log)
      as (r1 & ev1 & -> & Hr1).
    destruct r1 as [acc'|e].
    + destruct Hr1 as [[embeddings ->] ->].
      set (acc' := (acc ++ batchRecords env documentId (b * BATCH_SIZE)
                                 (take BATCH_SIZE (drop (b * BATCH_SIZE) cs)) embeddings)%list).
      edestruct (IH (Datatypes.S b) acc' db) as (r & events & -> & Hr).
      * subst acc'. rewrite length_app, batchRecords_length, Hlen.
        unfold BATCH_SIZE. lia.
      * subst acc'. intros k r Hk.
        apply lookup_app_Some in Hk as [Hk | [Hge Hk]]; [now apply Hacc|].
        apply batchRecords_lookup in Hk as (c & Hc & Hrec).
        assert (E : (b * BATCH_SIZE + (k - length acc) = k)%nat).
        { apply lookup_lt_Some in Hc. lia. }
        rewrite E in *. eauto.
      * eexists r, (_ :: events). rewrite <- app_assoc. split; [reflexivity|].
        destruct r as [records|e]; [|exact Hr].
        destruct Hr as (Hlen' & Hrecs & Hsorted & Hrange).
        split; [rewrite Hlen'; f_equal; lia|]. split; [exact Hrecs|]. split.
        -- constructor; [exact Hsorted|].
           eapply Forall_impl; [exact Hrange|]. cbv beta. cbn [current].
           intros p [[Hp _] _].
           etransitivity; [|exact Hp]. apply (progress_mono _ b (Datatypes.S b)). lia.
        -- apply Forall_cons. split.
           ++ cbn [current total]. split; [split; [lra | apply Rmin_r] | reflexivity].
           ++ eapply Forall_impl; [exact Hrange|]. cbv beta. intros p [[Hp Hp4] Ht].
              split; [|exact Ht]. split; [|exact Hp4]. etransitivity; [|exact Hp].
              apply (progress_mono _ b (Datatypes.S b)). lia.
    + exists (Throw e), ev1. split; [reflexivity | exact Hr1].
Qed.

Lemma fold_putChunk records db log :
  foldP (fun _ record => putChunk record) records tt db log
  = (Ok tt, mkDb (documents db) (putAll records (chunks db)), log).
Proof.
  revert db. induction records as [|r l IH]; intros db; [now destruct db|].
  cbn [foldP]. unfold bindP at 1. unfold putChunk at 1. now rewrite IH.
Qed.

Lemma putAll_lookup records (m : gmap string ChunkRecord) :
  NoDup (map c_id records) ->
  (forall r, r ∈ records -> putAll records m !! c_id r = Some r)
  /\ (forall key, key ∉ map c_id records -> putAll records m !! key = m !! key).
Proof.
  revert m. induction records as [|x l IH]; intros m Hnd.
  - split; [intros r Hr; inversion Hr | reflexivity].
  - cbn [map] in Hnd. apply NoDup_cons in Hnd as [Hx Hnd].
    destruct (IH (<[c_id x := x]> m) Hnd) as [Hin Hout].
    unfold putAll in *. cbn [fold_left]. split.
    + intros r Hr. apply elem_of_cons in Hr as [-> | Hr]; [|now apply Hin].
      rewrite Hout by exact Hx. apply lookup_insert_eq.
    + intros key Hkey. cbn [map] in Hkey. apply not_elem_of_cons in Hkey as [Hne Hkey].
      rewrite Hout by exact Hkey. now apply lookup_insert_ne.
Qed.

Lemma sorted_app {A} (R : A -> A -> Prop) (l1 l2 : list A) :
  StronglySorted R l1 -> StronglySorted R l2 ->
  (forall x y, x ∈ l1 -> y ∈ l2 -> R x y) ->
  StronglySorted R (l1 ++ l2).
Proof.
  induction 1 as [|x l1 Hs IH Hx]; intros H2 H12; [exact H2|].
  simpl. constructor.
  - apply IH; [exact H2|]. intros a b Ha Hb. apply H12; [|exact Hb].
    apply elem_of_cons. now right.
  - apply Forall_app. split; [exact Hx|]. apply Forall_forall. intros y Hy.
    apply H12; [|exact Hy]. apply elem_of_cons. now left.
Qed.
(** The [catch] block writes the metadata as the failure left it,
    marked "error", and reports the error; it leaves the chunks alone. *)
Lemma indexingCatch_run env e m db log :
  exists e' db' events,
    indexingCatch env e m db log
    = (Throw e', setErrorMessage e (setStatus "error" m), db', (log ++ events)%list)
    /\ chunks db' = chunks db
    /\ (writes_go_through env ->
        e' = e
        /\ documents db'
           = <[m_id m := setErrorMessage e (setStatus "error" m)]> (documents db)
        /\ last events = Some (mkProgress 0 5 "error" e)).
Proof.
  unfold indexingCatch, putMetadata, bindB, assign, readMetadata, run, putDocument,
    onProgress, throw.
  destruct (putDocumentRequest env _) as [[]|e1] eqn:Hput.
  - destruct (progressCallback env _) as [[]|e2] eqn:Hcb.
    + eexists _, _, [_]. split; [reflexivity|]. split; [reflexivity|].
      intros _. split; [reflexivity|]. split; reflexivity.
    + eexists _, _, [_]. split; [reflexivity|]. split; [reflexivity|].
      intros (_ & _ & Hcbs). rewrite Hcbs in Hcb. discriminate.
  - eexists _, _, []. rewrite app_nil_r. split; [reflexivity|]. split; [reflexivity|].
    intros (Hputs & _). rewrite Hputs in Hput. discriminate.
Qed.

(** The [try] block. *)
Lemma indexingTry_run env documentId file metadata db log :
  let indexing := setStatus "indexing" metadata in
  exists r m' db' events,
    indexingTry env documentId file
      (if truthy (file_type file) then file_type file else "text/plain") metadata db log
    = (r, m', db', (log ++ events)%list)
    /\ match r with
       | Ok ready =>
           exists content records,
             contentOf env file = Ok content
             /\ chunkMarkdown env content DEFAULT_CHUNK_OPTIONS <> []
             /\ ready = marked metadata "ready"
                               (length (chunkMarkdown env content DEFAULT_CHUNK_OPTIONS))
                               (m_errorMessage metadata)
             /\ documents db' = <[m_id metadata := ready]> (documents db)
             /\ chunks db' = putAll records (chunks db)
             /\ length records = length (chunkMarkdown env content DEFAULT_CHUNK_OPTIONS)
             /\ (forall k r, records !! k = Some r ->
                             exists c,
                               chunkMarkdown env content DEFAULT_CHUNK_OPTIONS !! k = Some c
                               /\ record_of documentId k c r)
             /\ StronglySorted (fun a b => (current a <= current b)%R) events
             /\ Forall (fun p => (0 <= current p <= 5)%R /\ total p = 5%R) events
             /\ exists msg, last events = Some (mkProgress 5 5 "complete" msg)
       | Throw e =>
           (m' = indexing
            /\ chunks db' = chunks db
            /\ (writes_go_through env ->
                documents db' = <[m_id metadata := indexing]> (documents db)
                /\ (contentOf env file = Throw e
                    \/ (exists content,
                           contentOf env file = Ok content
                           /\ chunkMarkdown env content DEFAULT_CHUNK_OPTIONS = []
                           /\ e = "Document produced no chunks. It may be empty.")
                    \/ exists texts, embedTexts env texts = Throw e)))
           \/ (exists content records,
                  contentOf env file = Ok content
                  /\ m' = marked metadata "ready" (length records) (m_errorMessage metadata)
                  /\ chunks db' = putAll records (chunks db)
                  /\ length records
                     = length (chunkMarkdown env content DEFAULT_CHUNK_OPTIONS)
                  /\ (forall k r, records !! k = Some r ->
                        exists c,
                          chunkMarkdown env content DEFAULT_CHUNK_OPTIONS !! k = Some c
                          /\ record_of documentId k c r)
                  /\ (putDocumentRequest env m' = Throw e
                      \/ exists msg,
                          progressCallback env (mkProgress 5 5 "complete" msg) = Throw e))
       end.
Proof.
  intros indexing. unfold indexingTry.
  unfold bindB at 1. unfold assign at 1. fold indexing.
  unfold bindB at 1. unfold putMetadata at 1, bindB at 1, readMetadata at 1, run at 1.
  unfold putDocument at 1.
  destruct (putDocumentRequest env indexing) as [[]|e] eqn:Hput1.
  2: { eexists (Throw e), _, _, []. rewrite app_nil_r. split; [reflexivity|].
       left. split; [reflexivity|]. split; [reflexivity|].
       intros (Hputs & _). rewrite Hputs in Hput1. discriminate. }
  cbn [m_id indexing setStatus].
  set (db1 := mkDb (<[m_id metadata := indexing]> (documents db)) (chunks db)).
  set (parsing := mkProgress 0 5 "parsing" "Parsing document...").
  unfold bindB at 1. unfold run at 1, onProgress at 1.
  destruct (progressCallback env parsing) as [[]|e] eqn:Hcb1.
  2: { eexists (Throw e), _, _, _. split; [reflexivity|].
       left. split; [reflexivity|]. split; [reflexivity|].
       intros (_ & _ & Hcbs). rewrite Hcbs in Hcb1. discriminate. }
  unfold bindB at 1. unfold run at 1.
  destruct (readContent_run env file db1 (log ++ [parsing]))
    as (rc & evContent & -> & HsContent & HrContent & Hcontent).
  destruct rc as [content|e].
  2: { eexists (Throw e), _, _, _. rewrite <- !app_assoc. split; [reflexivity|].
       left. split; [reflexivity|]. split; [reflexivity|].
       intros (_ & _ & Hcbs). split; [reflexivity|].
       destruct Hcontent as [Hc | (p & e' & Hp & _)]; [left; now symmetry|].
       rewrite Hcbs in Hp. discriminate. }
  destruct Hcontent as [Hcontent | (p & e' & _ & Hp)]; [|discriminate].
  symmetry in Hcontent.
  set (chunking := mkProgress 1 5 "chunking" "Splitting into chunks...").
  unfold bindB at 1. unfold run at 1, onProgress at 1.
  destruct (progressCallback env chunking) as [[]|e] eqn:Hcb2.
  2: { eexists (Throw e), _, _, _. rewrite <- !app_assoc. split; [reflexivity|].
       left. split; [reflexivity|]. split; [reflexivity|].
       intros (_ & _ & Hcbs). rewrite Hcbs in Hcb2. discriminate. }
  destruct (chunkMarkdown env content DEFAULT_CHUNK_OPTIONS) as [|c0 cs0] eqn:Hcs.
  { eexists (Throw _), _, _, _. unfold run, throw. rewrite <- !app_assoc.
    split; [reflexivity|].
    left. split; [reflexivity|]. split; [reflexivity|].
    intros _. split; [reflexivity|]. right. left. eauto. }
  rewrite <- Hcs. set (cs := chunkMarkdown env content DEFAULT_CHUNK_OPTIONS) in *.
  set (embedding := mkProgress 2 5 "embedding" _).
  unfold bindB at 1. unfold run at 1, onProgress at 1.
  destruct (progressCallback env embedding) as [[]|e] eqn:Hcb3.
  2: { eexists (Throw e), _, _, _. rewrite <- !app_assoc. split; [reflexivity|].
       left. split; [reflexivity|]. split; [reflexivity|].
       intros (_ & _ & Hcbs). rewrite Hcbs in Hcb3. discriminate. }
  unfold bindB at 1. unfold run at 1. unfold batchStarts.
  edestruct (fold_batches env documentId cs ((length cs + BATCH_SIZE - 1) / BATCH_SIZE)
               0 [] db1) as (rb & evBatches & -> & Hrb).
  { reflexivity. }
  { intros k r Hk. discriminate. }
  destruct rb as [records|e].
  2: { eexists (Throw e), _, _, _. rewrite <- !app_assoc. split; [reflexivity|].
       left. split; [reflexivity|]. split; [reflexivity|].
       intros (_ & _ & Hcbs). split; [reflexivity|].
       destruct Hrb as [Ht | [p Hp]]; [now right; right|].
       rewrite Hcbs in Hp. discriminate. }
  destruct Hrb as (Hlen & Hrecs & HsBatches & HrBatches).
  assert (Hn : length records = length cs).
  { rewrite Hlen. cbn [Nat.add].
    pose proof (Nat.div_mod_eq (length cs + BATCH_SIZE - 1) BATCH_SIZE) as Hd.
    pose proof (Nat.mod_upper_bound (length cs + BATCH_SIZE - 1) BATCH_SIZE) as Hm.
    unfold BATCH_SIZE in *. lia. }
  unfold bindB at 1. unfold run at 1, putChunks at 1.
  destruct (chunkTransaction env records) as [[]|e] eqn:Htx.
  2: { eexists (Throw e), _, _, _. rewrite <- !app_assoc. split; [reflexivity|].
       left. split; [reflexivity|]. split; [reflexivity|].
       intros (_ & Htxs & _). rewrite Htxs in Htx. discriminate. }
  rewrite fold_putChunk. cbn [documents chunks db1].
  unfold bindB at 1. unfold assign at 1.
  unfold bindB at 1. unfold assign at 1.
  change (setStatus "ready" (setChunkCount (length records) indexing))
    with (marked metadata "ready" (length records) (m_errorMessage metadata)).
  set (ready := marked metadata "ready" (length records) (m_errorMessage metadata)).
  unfold bindB at 1. unfold putMetadata at 1, bindB at 1, readMetadata at 1, run at 1.
  unfold putDocument at 1.
  destruct (putDocumentRequest env ready) as [[]|e] eqn:Hput2.
  2: { eexists (Throw e), _, _, _. rewrite <- !app_assoc. split; [reflexivity|].
       right. exists content, records. fold cs.
       split; [exact Hcontent|]. split; [reflexivity|]. split; [reflexivity|].
       split; [exact Hn|]. split; [exact Hrecs|]. now left. }
  cbn [documents chunks m_id ready marked].
  set (complete := mkProgress 5 5 "complete" _).
  unfold bindB at 1. unfold run at 1, onProgress at 1.
  destruct (progressCallback env complete) as [[]|e] eqn:Hcb4.
  2: { eexists (Throw e), _, _, _. rewrite <- !app_assoc. split; [reflexivity|].
       right. exists content, records. fold cs.
       split; [exact Hcontent|]. split; [reflexivity|]. split; [reflexivity|].
       split; [exact Hn|]. split; [exact Hrecs|]. right. eauto. }
  unfold readMetadata.
  eexists (Ok _), _, _, _. rewrite <- !app_assoc. split; [reflexivity|].
  exists content, records. fold cs. split; [exact Hcontent|].
  split; [rewrite Hcs; discriminate|]. split; [unfold ready; now rewrite Hn|].
  split; [apply insert_insert_eq|]. split; [reflexivity|]. split; [exact Hn|].
  split; [exact Hrecs|].
  assert (Hb : forall p, p ∈ evBatches -> (2 <= current p <= 4)%R /\ total p = 5%R).
  { intros p Hp. apply (proj1 (Forall_forall _ _) HrBatches) in Hp as [[Hlo Hhi] Ht].
    split; [|exact Ht]. split; [|exact Hhi]. etransitivity; [|exact Hlo].
    apply progress_range. }
  assert (Hc : forall p, p ∈ evContent -> (0 <= current p <= 1)%R /\ total p = 5%R).
  { intros p Hp. now apply (proj1 (Forall_forall _ _) HrContent) in Hp. }
  assert (Hafter : forall y, y ∈ (chunking :: embedding :: evBatches ++ [complete])%list ->
                             (1 <= current y <= 5)%R /\ total y = 5%R).
  { intros y Hy.
    apply elem_of_cons in Hy as [-> | Hy]; [unfold parsing, chunking, embedding, complete; cbn [current total]; split; [lra | reflexivity]|].
    apply elem_of_cons in Hy as [-> | Hy]; [unfold parsing, chunking, embedding, complete; cbn [current total]; split; [lra | reflexivity]|].
    apply elem_of_app in Hy as [Hy | Hy]; [apply Hb in Hy as [Hy Ht]; split; [lra | exact Ht]|].
    apply list_elem_of_singleton in Hy as ->. unfold parsing, chunking, embedding, complete; cbn [current total]. split; [lra | reflexivity]. }
  change ([parsing] ++ evContent ++ [chunking] ++ [embedding] ++ evBatches ++ [complete])%list
    with ([parsing] ++ evContent ++ chunking :: embedding :: evBatches ++ [complete])%list.
  split; [|split].
  - apply sorted_app; [repeat constructor| |].
    + apply sorted_app; [exact HsContent| |].
      * constructor.
        -- constructor.
           ++ apply sorted_app; [exact HsBatches | repeat constructor |].
              intros x y Hx Hy. apply list_elem_of_singleton in Hy as ->.
              unfold parsing, chunking, embedding, complete; cbn [current]. apply Hb in Hx as [Hx _]. lra.
           ++ apply Forall_app. split.
              ** apply Forall_forall. intros p Hp. unfold parsing, chunking, embedding, complete; cbn [current]. apply Hb in Hp as [Hp _]. lra.
              ** apply Forall_singleton. unfold parsing, chunking, embedding, complete; cbn [current]. lra.
        -- apply Forall_cons. split; [unfold parsing, chunking, embedding, complete; cbn [current]; lra|]. apply Forall_app. split.
           ++ apply Forall_forall. intros p Hp. unfold parsing, chunking, embedding, complete; cbn [current]. apply Hb in Hp as [Hp _]. lra.
           ++ apply Forall_singleton. unfold parsing, chunking, embedding, complete; cbn [current]. lra.
      * intros x y Hx Hy. apply Hc in Hx as [Hx _]. apply Hafter in Hy as [Hy _]. lra.
    + intros x y Hx Hy. apply list_elem_of_singleton in Hx as ->. unfold parsing, chunking, embedding, complete; cbn [current].
      apply elem_of_app in Hy as [Hy | Hy]; [apply Hc in Hy as [Hy _]; lra|].
      apply Hafter in Hy as [Hy _]. lra.
  - apply Forall_app. split; [apply Forall_singleton; unfold parsing; cbn [current total]; split; [lra | reflexivity]|].
    apply Forall_app. split; apply Forall_forall; intros p Hp.
    + apply Hc in Hp as [Hp Ht]. split; [lra | exact Ht].
    + apply Hafter in Hp as [Hp Ht]. split; [lra | exact Ht].
  - eexists.
    change (chunking :: embedding :: ?l) with ([chunking; embedding] ++ l)%list.
    rewrite !app_assoc. apply last_snoc.
Qed.

(** One run of the indexing of a stored document. *)
Lemma index_run env documentId file db log metadata :
  documents db !! documentId = Some metadata ->
  exists r db' events,
    indexLargeDocumentInBackground env documentId file db log = (r, db', (log ++ events)%list)
    /\ match r with
       | Ok ready =>
           exists content records,
             contentOf env file = Ok content
             /\ chunkMarkdown env content DEFAULT_CHUNK_OPTIONS <> []
             /\ ready = marked metadata "ready"
                               (length (chunkMarkdown env content DEFAULT_CHUNK_OPTIONS))
                               (m_errorMessage metadata)
             /\ documents db' = <[m_id metadata := ready]> (documents db)
             /\ chunks db' = putAll records (chunks db)
             /\ length records = length (chunkMarkdown env content DEFAULT_CHUNK_OPTIONS)
             /\ (forall k r, records !! k = Some r ->
                             exists c,
                               chunkMarkdown env content DEFAULT_CHUNK_OPTIONS !! k = Some c
                               /\ record_of documentId k c r)
             /\ StronglySorted (fun a b => (current a <= current b)%R) events
             /\ Forall (fun p => (0 <= current p <= 5)%R /\ total p = 5%R) events
             /\ exists msg, last events = Some (mkProgress 5 5 "complete" msg)
       | Throw e =>
           (chunks db' = chunks db
            \/ exists content records e0,
                 contentOf env file = Ok content
                 /\ chunks db' = putAll records (chunks db)
                 /\ length records
                    = length (chunkMarkdown env content DEFAULT_CHUNK_OPTIONS)
                 /\ (forall k r, records !! k = Some r ->
                       exists c,
                         chunkMarkdown env content DEFAULT_CHUNK_OPTIONS !! k = Some c
                         /\ record_of documentId k c r)
                 /\ (putDocumentRequest env
                       (marked metadata "ready" (length records) (m_errorMessage metadata))
                     = Throw e0
                     \/ exists msg,
                         progressCallback env (mkProgress 5 5 "complete" msg) = Throw e0))
           /\ (writes_go_through env ->
               chunks db' = chunks db
               /\ documents db'
                  = <[m_id metadata
                      := marked metadata "error" (m_chunkCount metadata) (Some e)]>
                      (documents db)
               /\ last events = Some (mkProgress 0 5 "error" e)
               /\ (contentOf env file = Throw e
                   \/ (exists content,
                          contentOf env file = Ok content
                          /\ chunkMarkdown env content DEFAULT_CHUNK_OPTIONS = []
                          /\ e = "Document produced no chunks. It may be empty.")
                   \/ exists texts, embedTexts env texts = Throw e))
       end.
Proof.
  intros Hdoc. unfold indexLargeDocumentInBackground. cbv zeta.
  unfold bindP at 1. unfold getDocument at 1. rewrite Hdoc.
  unfold withMetadata, tryCatchB.
  destruct (indexingTry_run env documentId file metadata db log)
    as (r & m1 & db1 & ev1 & -> & Hr).
  destruct r as [ready|e].
  { exists (Ok ready), db1, ev1. split; [reflexivity | exact Hr]. }
  destruct (indexingCatch_run env e m1 db1 (log ++ ev1))
    as (e' & db2 & ev2 & -> & Hchunks & Hcatch).
  exists (Throw e'), db2, (ev1 ++ ev2)%list. rewrite app_assoc.
  split; [reflexivity|].
  destruct Hr as [(-> & Hchunks1 & Hpre)
                 | (content & records & Hcontent & -> & Hchunks1 & Hlen & Hrecs & Hcause)].
  - split; [left; now rewrite Hchunks|].
    intros Hwrites. destruct (Hcatch Hwrites) as (-> & Hdocs & Hlast).
    destruct (Hpre Hwrites) as (Hdocs1 & Hcauses).
    split; [now rewrite Hchunks|]. split.
    + rewrite Hdocs, Hdocs1. apply insert_insert_eq.
    + split; [|exact Hcauses].
      destruct ev2 as [|p ev2] using rev_ind; [discriminate|].
      rewrite last_snoc in Hlast. rewrite app_assoc, last_snoc. exact Hlast.
  - split.
    + right. exists content, records, e. rewrite Hchunks. auto.
    + intros Hwrites. exfalso. destruct Hwrites as (Hputs & _ & Hcbs).
      destruct Hcause as [Hput | [msg Hcb]].
      * rewrite Hputs in Hput. discriminate.
      * rewrite Hcbs in Hcb. discriminate.
Qed.

End Indexing.

Section IndexingTheorems.
Import JS DocumentStore MoreProps.

Lemma records_keys documentId (cs : list MarkdownChunk) (records : list ChunkRecord) :
  (forall k r, records !! k = Some r ->
               exists c, cs !! k = Some c /\ record_of documentId k c r) ->
  NoDup (map c_id records)
  /\ (forall key, key ∈ map c_id records ->
                  exists k, (k < length records)%nat /\ key = chunkKey documentId k).
Proof.
  intros Hrecs.
  assert (Hkey : forall i key, map c_id records !! i = Some key ->
                               (i < length records)%nat /\ key = chunkKey documentId i).
  { intros i key Hi. change map with (@fmap list _) in Hi.
    rewrite list_lookup_fmap in Hi.
    destruct (records !! i) as [r|] eqn:Hr; [|discriminate]. injection Hi as <-.
    split; [eapply lookup_lt_Some; eassumption|].
    destruct (Hrecs i r Hr) as (c & _ & Hid & _). exact Hid. }
  split.
  - apply NoDup_alt. intros i j key Hi Hj.
    apply Hkey in Hi as [_ ->]. apply Hkey in Hj as [_ Hj].
    now apply chunkKey_inj in Hj.
  - intros key Hin. apply list_elem_of_lookup in Hin as [i Hi].
    exists i. now apply Hkey.
Qed.

(** The chunk store after the records of the chunks are put. *)
Lemma stored_records documentId (cs : list MarkdownChunk) (records : list ChunkRecord)
    (m : gmap string ChunkRecord) :
  length records = length cs ->
  (forall k r, records !! k = Some r ->
               exists c, cs !! k = Some c /\ record_of documentId k c r) ->
  (forall k c, cs !! k = Some c ->
               exists r, putAll records m !! chunkKey documentId k = Some r
                         /\ record_of documentId k c r)
  /\ (forall key, (forall k, (k < length cs)%nat -> key <> chunkKey documentId k) ->
                  putAll records m !! key = m !! key).
Proof.
  intros Hlen Hrecs.
  destruct (records_keys documentId cs records Hrecs) as [Hnd Hkeys].
  destruct (putAll_lookup records m Hnd) as [Hin Hout]. split.
  - intros k c Hc.
    destruct (lookup_lt_is_Some_2 records k) as [r Hr].
    { rewrite Hlen. eapply lookup_lt_Some; eassumption. }
    destruct (Hrecs k r Hr) as (c' & Hc' & Hrec).
    rewrite Hc in Hc'. injection Hc' as <-.
    exists r. split; [|exact Hrec].
    destruct Hrec as (<- & _). apply Hin.
    eapply list_elem_of_lookup_2; eassumption.
  - intros key Hkey. apply Hout. intros Hin'.
    apply Hkeys in Hin' as (k & Hk & ->). apply (Hkey k); [lia | reflexivity].
Qed.

(** X23: indexing stores every chunk under its number.  When the
    content is read, the chunker gives at least one chunk, every batch
    is embedded and the writes go through (the database grants them and
    the progress callback returns), the document is marked "ready" with
    the number of chunks (an error message of an earlier attempt is
    kept), chunk number [k] of the chunker is stored under the key
    [`${documentId}#${k}`] with [chunkIndex = k], whatever the batch it
    was embedded in, and no other key of the chunk store changes. *)
Theorem indexing_stores_every_chunk_under_its_number
    (env : Env) (documentId : string) (file : File) (db : Db)
    (log : list IndexingProgress) (metadata : DocumentRecord) (content : string) :
  documents db !! documentId = Some metadata ->
  m_id metadata = documentId ->
  contentOf env file = Ok content ->
  chunkMarkdown env content DEFAULT_CHUNK_OPTIONS <> [] ->
  (forall texts, exists embeddings, embedTexts env texts = Ok embeddings) ->
  writes_go_through env ->
  let cs := chunkMarkdown env content DEFAULT_CHUNK_OPTIONS in
  exists db' log',
    indexLargeDocumentInBackground env documentId file db log
    = (Ok (marked metadata "ready" (length cs) (m_errorMessage metadata)), db', log')
    /\ documents db'
       = <[documentId := marked metadata "ready" (length cs) (m_errorMessage metadata)]>
           (documents db)
    /\ (forall k c, cs !! k = Some c ->
                    exists r, chunks db' !! chunkKey documentId k = Some r
                              /\ record_of documentId k c r)
    /\ (forall key, (forall k, (k < length cs)%nat -> key <> chunkKey documentId k) ->
                    chunks db' !! key = chunks db !! key).
Proof.
  intros Hdoc Hid Hcontent Hcs Hembed Hwrites cs.
  destruct (index_run env documentId file db log metadata Hdoc)
    as (r & db' & events & Hrun & Hr).
  destruct r as [ready|e].
  - destruct Hr as (content' & records & Hcontent' & _ & -> & Hdocs & Hchunks & Hlen
                    & Hrecs & _).
    rewrite Hcontent in Hcontent'. injection Hcontent' as <-. fold cs in Hlen, Hrecs, Hdocs.
    destruct (stored_records documentId cs records (chunks db) Hlen Hrecs) as [Hin Hout].
    exists db', (log ++ events)%list. split; [exact Hrun|].
    split; [now rewrite Hdocs, Hid|]. rewrite Hchunks. split; [exact Hin | exact Hout].
  - exfalso. destruct Hr as (_ & Hr).
    destruct (Hr Hwrites)
      as (_ & _ & _ & [Hc | [(content' & Hc & Hnil & _) | [texts Ht]]]).
    + rewrite Hcontent in Hc. discriminate.
    + rewrite Hcontent in Hc. injection Hc as <-. contradiction.
    + destruct (Hembed texts) as [embeddings He]. rewrite He in Ht. discriminate.
Qed.

Lemma sample_writes_go_through texts embed : writes_go_through (sampleStoreEnv texts embed).
Proof. repeat split. Qed.

Lemma indexing_stores_every_chunk_under_its_number_witness :
  exists db' log',
    indexLargeDocumentInBackground
      (sampleStoreEnv ["Alpha"; "Beta"] (fun texts => Ok (map (fun _ => [1%R]) texts)))
      "d1" sampleFile sampleDb []
    = (Ok (marked sampleStored "ready" 2 None), db', log')
    /\ documents db' = <["d1" := marked sampleStored "ready" 2 None]> (documents sampleDb)
    /\ (forall k c,
           [mkMarkdownChunk "Alpha" ""; mkMarkdownChunk "Beta" ""] !! k = Some c ->
           exists r, chunks db' !! chunkKey "d1" k = Some r /\ record_of "d1" k c r)
    /\ (forall key, (forall k, (k < 2)%nat -> key <> chunkKey "d1" k) ->
                    chunks db' !! key = chunks sampleDb !! key).
Proof.
  apply (indexing_stores_every_chunk_under_its_number
           (sampleStoreEnv ["Alpha"; "Beta"] (fun texts => Ok (map (fun _ => [1%R]) texts)))
           "d1" sampleFile sampleDb [] sampleStored "content");
    try reflexivity.
  - discriminate.
  - intros texts. eexists. reflexivity.
  - repeat split.
Defined.

(** X24: a failed indexing stores all the chunks or none.  Whenever
    [indexLargeDocumentInBackground] rejects for a stored document,
    the chunk store is as it was before (also when some batches had
    been embedded already), or it holds every chunk of the chunker
    under its number: the chunks are written in one transaction, and
    after it the last write of the metadata or the callback that
    reports the completion can still fail.  When the writes go through
    (the database grants them and the progress callback returns) the
    chunk store is as it was, the error is that of reading the content,
    of a chunker that gives no chunk or of the embedding service, the
    metadata is marked "error" with the message of the error, and that
    error is the last progress reported.  For a document that is not
    stored nothing at all is written or reported. *)
Theorem failed_indexing_stores_all_chunks_or_none
    (env : Env) (documentId : string) (file : File) (db db' : Db)
    (log log' : list IndexingProgress) (e : string) :
  indexLargeDocumentInBackground env documentId file db log = (Throw e, db', log') ->
  match documents db !! documentId with
  | None => db' = db /\ log' = log
  | Some metadata =>
      (chunks db' = chunks db
       \/ exists content e0,
            contentOf env file = Ok content
            /\ (forall k c,
                  chunkMarkdown env content DEFAULT_CHUNK_OPTIONS !! k = Some c ->
                  exists r, chunks db' !! chunkKey documentId k = Some r
                            /\ record_of documentId k c r)
            /\ (forall key,
                  (forall k,
                      (k < length (chunkMarkdown env content DEFAULT_CHUNK_OPTIONS))%nat ->
                      key <> chunkKey documentId k) ->
                  chunks db' !! key = chunks db !! key)
            /\ (putDocumentRequest env
                  (marked metadata "ready"
                          (length (chunkMarkdown env content DEFAULT_CHUNK_OPTIONS))
                          (m_errorMessage metadata))
                = Throw e0
                \/ exists msg,
                    progressCallback env (mkProgress 5 5 "complete" msg) = Throw e0))
      /\ (writes_go_through env ->
          chunks db' = chunks db
          /\ documents db'
             = <[m_id metadata := marked metadata "error" (m_chunkCount metadata) (Some e)]>
                 (documents db)
          /\ last log' = Some (mkProgress 0 5 "error" e)
          /\ (contentOf env file = Throw e
              \/ (exists content,
                     contentOf env file = Ok content
                     /\ chunkMarkdown env content DEFAULT_CHUNK_OPTIONS = []
                     /\ e = "Document produced no chunks. It may be empty.")
              \/ exists texts, embedTexts env texts = Throw e))
  end.
Proof.
  intros Hrun. destruct (documents db !! documentId) as [metadata|] eqn:Hdoc.
  - destruct (index_run env documentId file db log metadata Hdoc)
      as (r & db1 & events & Hrun' & Hr).
    rewrite Hrun in Hrun'. injection Hrun' as <- <- ->.
    destruct Hr as (Hall & Hclean). split.
    + destruct Hall as [Hchunks | (content & records & e0 & Hcontent & Hchunks & Hlen
                                   & Hrecs & Hcause)]; [now left|].
      right. exists content, e0. split; [exact Hcontent|].
      destruct (stored_records documentId _ records (chunks db) Hlen Hrecs) as [Hin Hout].
      rewrite Hchunks. split; [exact Hin|]. split; [exact Hout|].
      now rewrite <- Hlen.
    + intros Hwrites. destruct (Hclean Hwrites) as (Hchunks & Hdocs & Hlast & Hcause).
      split; [exact Hchunks|]. split; [exact Hdocs|]. split; [|exact Hcause].
      destruct events as [|p events] using rev_ind; [discriminate|].
      rewrite last_snoc in Hlast. rewrite app_assoc, last_snoc. exact Hlast.
  - unfold indexLargeDocumentInBackground in Hrun. cbv zeta in Hrun.
    unfold bindP, getDocument in Hrun. rewrite Hdoc in Hrun. unfold throw in Hrun.
    injection Hrun as _ <- <-. auto.
Qed.

(** The database refuses the last write of the metadata: the indexing
    rejects with the two chunks stored. *)
Lemma failed_indexing_stores_all_chunks_or_none_witness :
  exists db' log',
    indexLargeDocumentInBackground
      (fullStoreEnv ["Alpha"; "Beta"] (fun texts => Ok (map (fun _ => [1%R]) texts)))
      "d1" sampleFile sampleDb []
    = (Throw "QuotaExceededError", db', log')
    /\ (chunks db' = chunks sampleDb
        \/ exists content e0,
             contentOf (fullStoreEnv ["Alpha"; "Beta"]
                          (fun texts => Ok (map (fun _ => [1%R]) texts))) sampleFile
             = Ok content
             /\ (forall k c,
                   [mkMarkdownChunk "Alpha" ""; mkMarkdownChunk "Beta" ""] !! k = Some c ->
                   exists r, chunks db' !! chunkKey "d1" k = Some r /\ record_of "d1" k c r)
             /\ (forall key, (forall k, (k < 2)%nat -> key <> chunkKey "d1" k) ->
                             chunks db' !! key = chunks sampleDb !! key)
             /\ (putDocumentRequest
                   (fullStoreEnv ["Alpha"; "Beta"]
                      (fun texts => Ok (map (fun _ => [1%R]) texts)))
                   (marked sampleStored "ready" 2 None)
                 = Throw e0
                 \/ exists msg,
                     progressCallback
                       (fullStoreEnv ["Alpha"; "Beta"]
                          (fun texts => Ok (map (fun _ => [1%R]) texts)))
                       (mkProgress 5 5 "complete" msg) = Throw e0)).
Proof.
  eexists _, _. split; [reflexivity|].
  exact (proj1 (failed_indexing_stores_all_chunks_or_none
                  (fullStoreEnv ["Alpha"; "Beta"]
                     (fun texts => Ok (map (fun _ => [1%R]) texts)))
                  "d1" sampleFile sampleDb _ [] _ "QuotaExceededError" eq_refl)).
Defined.

(** In that run the two chunks are in the store, and the metadata says
    "error". *)
Example rejected_indexing_with_the_chunks_stored :
  let outcome :=
    indexLargeDocumentInBackground
      (fullStoreEnv ["Alpha"; "Beta"] (fun texts => Ok (map (fun _ => [1%R]) texts)))
      "d1" sampleFile sampleDb [] in
  fst (fst outcome) = Throw "QuotaExceededError"
  /\ chunks (snd (fst outcome)) !! "d1#0"
     = Some (mkChunkRecord "d1#0" "d1" 0 "Alpha" "" "" (Some [1%R]))
  /\ chunks (snd (fst outcome)) !! "d1#1"
     = Some (mkChunkRecord "d1#1" "d1" 1 "Beta" "" "" (Some [1%R]))
  /\ documents (snd (fst outcome)) !! "d1"
     = Some (marked sampleStored "error" 2 (Some "QuotaExceededError")).
Proof. cbv zeta. repeat split. Qed.

(** Twenty-five chunks, the embedding of the second batch fails: the
    indexing rejects and the twenty records of the first batch are not
    stored. *)
Example failure_in_the_second_batch_stores_no_chunk :
  let outcome :=
    indexLargeDocumentInBackground
      (sampleStoreEnv (replicate 25 "Alpha")
         (fun texts => if (length texts =? 20)%nat
                       then Ok (map (fun _ => [1%R]) texts) else Throw "429"))
      "d1" sampleFile sampleDb [] in
  fst (fst outcome) = Throw "429"
  /\ chunks (snd (fst outcome)) = chunks sampleDb
  /\ documents (snd (fst outcome)) !! "d1" = Some (marked sampleStored "error" 0 (Some "429")).
Proof. cbv zeta. repeat split. Qed.

(** X25: the progress of an indexing that succeeds never goes back.
    The values of [current] reported from the start to the end of a
    successful run never decrease, all lie between 0 and [total = 5],
    and the last report is the one of status "complete" with
    [current = 5]. *)
Theorem indexing_progress_never_goes_back
    (env : Env) (documentId : string) (file : File) (db db' : Db)
    (log log' : list IndexingProgress) (ready : DocumentRecord) :
  indexLargeDocumentInBackground env documentId file db log = (Ok ready, db', log') ->
  exists events,
    log' = (log ++ events)%list
    /\ StronglySorted (fun a b => (current a <= current b)%R) events
    /\ Forall (fun p => (0 <= current p <= 5)%R /\ total p = 5%R) events
    /\ exists msg, last events = Some (mkProgress 5 5 "complete" msg).
Proof.
  intros Hrun. destruct (documents db !! documentId) as [metadata|] eqn:Hdoc.
  - destruct (index_run env documentId file db log metadata Hdoc)
      as (r & db1 & events & Hrun' & Hr).
    rewrite Hrun in Hrun'. injection Hrun' as <- <- ->.
    destruct Hr as (content & records & _ & _ & _ & _ & _ & _ & _ & Hsorted & Hrange & Hlast).
    exists events. auto.
  - unfold indexLargeDocumentInBackground in Hrun. cbv zeta in Hrun.
    unfold bindP, getDocument in Hrun. rewrite Hdoc in Hrun. discriminate.
Qed.

Lemma indexing_progress_never_goes_back_witness :
  exists events,
    snd (indexLargeDocumentInBackground
           (sampleStoreEnv ["Alpha"; "Beta"] (fun texts => Ok (map (fun _ => [1%R]) texts)))
           "d1" sampleFile sampleDb [])
    = ([] ++ events)%list
    /\ StronglySorted (fun a b => (current a <= current b)%R) events
    /\ Forall (fun p => (0 <= current p <= 5)%R /\ total p = 5%R) events
    /\ exists msg, last events = Some (mkProgress 5 5 "complete" msg).
Proof.
  apply (indexing_progress_never_goes_back
           (sampleStoreEnv ["Alpha"; "Beta"] (fun texts => Ok (map (fun _ => [1%R]) texts)))
           "d1" sampleFile sampleDb
           (snd (fst (indexLargeDocumentInBackground
                        (sampleStoreEnv ["Alpha"; "Beta"]
                           (fun texts => Ok (map (fun _ => [1%R]) texts)))
                        "d1" sampleFile sampleDb [])))
           []
           (snd (indexLargeDocumentInBackground
                   (sampleStoreEnv ["Alpha"; "Beta"]
                      (fun texts => Ok (map (fun _ => [1%R]) texts)))
                   "d1" sampleFile sampleDb []))
           (marked sampleStored "ready" 2 None)).
  reflexivity.
Defined.

End IndexingTheorems.
Section StoredChunks.
Import JS DocumentStore Props MoreProps.

Lemma insert_ext {A} (cmp1 cmp2 : A -> A -> R) (x : A) (l : list A) :
  (forall a b, cmp1 a b = cmp2 a b) -> insert cmp1 x l = insert cmp2 x l.
Proof.
  intros Hcmp. induction l as [|y l IH]; [reflexivity|]. simpl. rewrite Hcmp, IH.
  reflexivity.
Qed.

Lemma sort_ext {A} (cmp1 cmp2 : A -> A -> R) (l : list A) :
  (forall a b, cmp1 a b = cmp2 a b) -> sort cmp1 l = sort cmp2 l.
Proof.
  intros Hcmp. induction l as [|x l IH]; [reflexivity|]. simpl.
  now rewrite IH, (insert_ext cmp1 cmp2 _ _ Hcmp).
Qed.

(** A list sorted by a key without repetition is the only sorted
    arrangement of its elements. *)
Lemma sorted_unique {A} (key : A -> R) (l1 l2 : list A) :
  l1 ≡ₚ l2 ->
  StronglySorted (fun a b => (key b <= key a)%R) l1 ->
  StronglySorted (fun a b => (key b < key a)%R) l2 ->
  l1 = l2.
Proof.
  revert l2. induction l1 as [|x l1 IH]; intros l2 Hperm H1 H2.
  - apply Permutation_nil_l in Hperm. now subst.
  - destruct l2 as [|y l2]; [now apply Permutation_nil_r in Hperm|].
    apply StronglySorted_inv in H1 as [H1 Hx]. apply StronglySorted_inv in H2 as [H2 Hy].
    assert (E : x = y).
    { assert (Hxin : x ∈ y :: l2) by (rewrite <- Hperm; apply elem_of_cons; now left).
      assert (Hyin : y ∈ x :: l1) by (rewrite Hperm; apply elem_of_cons; now left).
      apply elem_of_cons in Hxin as [E | Hxin]; [exact E|].
      apply elem_of_cons in Hyin as [E | Hyin]; [now symmetry|].
      apply (proj1 (Forall_forall _ _) Hy) in Hxin.
      apply (proj1 (Forall_forall _ _) Hx) in Hyin. lra. }
    subst y. f_equal. apply IH; [|exact H1 | exact H2].
    eapply Permutation_cons_inv. exact Hperm.
Qed.

Lemma numbered_sorted (base : nat) (records : list ChunkRecord) :
  (forall k r, records !! k = Some r -> c_chunkIndex r = (base + k)%nat) ->
  StronglySorted (fun a b => (- INR (c_chunkIndex b) < - INR (c_chunkIndex a))%R) records.
Proof.
  revert base. induction records as [|x l IH]; intros base Hnum; constructor.
  - apply (IH (Datatypes.S base)). intros k r Hr.
    rewrite (Hnum (Datatypes.S k) r Hr). lia.
  - apply Forall_forall. intros y Hy. apply list_elem_of_lookup in Hy as [k Hk].
    rewrite (Hnum 0%nat x eq_refl), (Hnum (Datatypes.S k) y Hk).
    apply Ropp_lt_contravar, lt_INR. lia.
Qed.

Lemma putAll_to_list records (m : gmap string ChunkRecord) :
  NoDup (map c_id records) ->
  (forall r, r ∈ records -> m !! c_id r = None) ->
  map snd (map_to_list (putAll records m)) ≡ₚ (records ++ map snd (map_to_list m))%list.
Proof.
  revert m. induction records as [|x l IH]; intros m Hnd Hfresh; [reflexivity|].
  cbn [map] in Hnd. apply NoDup_cons in Hnd as [Hx Hnd].
  unfold putAll in *. cbn [fold_left]. rewrite IH; [|exact Hnd|].
  - rewrite map_to_list_insert by (apply Hfresh, elem_of_cons; now left).
    cbn [map snd]. symmetry. apply Permutation_middle.
  - intros r Hr. rewrite lookup_insert_ne.
    + apply Hfresh, elem_of_cons. now right.
    + intros E. apply Hx. rewrite E. apply list_elem_of_In, in_map, list_elem_of_In, Hr.
Qed.

Lemma filter_none {A} (P : A -> Prop) `{forall x, Decision (P x)} (l : list A) :
  Forall (fun x => ~ P x) l -> filter P l = [].
Proof.
  induction 1 as [|x l Hx _ IH]; [reflexivity|].
  rewrite filter_cons, decide_False by exact Hx. exact IH.
Qed.

Lemma join_texts (records : list ChunkRecord) (cs : list MarkdownChunk) :
  length records = length cs ->
  (forall k r, records !! k = Some r ->
               exists c, cs !! k = Some c /\ c_chunkText r = mc_text c) ->
  map c_chunkText records = map mc_text cs.
Proof.
  intros Hlen Hrecs. apply list_eq. intros k. change map with (@fmap list _).
  rewrite !list_lookup_fmap.
  destruct (records !! k) as [r|] eqn:Hr.
  - destruct (Hrecs k r Hr) as (c & -> & Ht). simpl. now rewrite Ht.
  - apply lookup_ge_None in Hr. rewrite Hlen in Hr.
    now rewrite (lookup_ge_None_2 cs k Hr).
Qed.

(** X26: what is indexed can be read back.  After a document is
    indexed into a store that held none of its chunks (the content is
    read, the chunker gives at least one chunk, every batch is embedded
    and the writes go through), [loadDocumentContent] returns the texts
    of the chunker's chunks, in the chunker's order, joined by empty
    lines, in whatever order the index lists the chunks of the
    document. *)
Theorem indexed_content_is_read_back_in_order
    (env : Env) (documentId : string) (file : File) (db : Db)
    (log : list IndexingProgress) (metadata : DocumentRecord) (content : string) :
  documents db !! documentId = Some metadata ->
  contentOf env file = Ok content ->
  chunkMarkdown env content DEFAULT_CHUNK_OPTIONS <> [] ->
  (forall texts, exists embeddings, embedTexts env texts = Ok embeddings) ->
  writes_go_through env ->
  holds_no_chunk_of db documentId ->
  (forall records, listed env records ≡ₚ records) ->
  exists ready db' log',
    indexLargeDocumentInBackground env documentId file db log = (Ok ready, db', log')
    /\ loadDocumentContent env documentId db' log'
       = (Ok (join (String newline (String newline ""))
                   (map mc_text (chunkMarkdown env content DEFAULT_CHUNK_OPTIONS))),
          db', log').
Proof.
  intros Hdoc Hcontent Hcs Hembed Hwrites Hnone Hlisted.
  destruct (index_run env documentId file db log metadata Hdoc)
    as (r & db' & events & Hrun & Hr).
  destruct r as [ready|e].
  2: { exfalso. destruct Hr as (_ & Hr).
       destruct (Hr Hwrites)
         as (_ & _ & _ & [Hc | [(content' & Hc & Hnil & _) | [texts Ht]]]).
       - rewrite Hcontent in Hc. discriminate.
       - rewrite Hcontent in Hc. injection Hc as <-. contradiction.
       - destruct (Hembed texts) as [embeddings He]. rewrite He in Ht. discriminate. }
  destruct Hr as (content' & records & Hcontent' & _ & _ & _ & Hchunks & Hlen & Hrecs & _).
  rewrite Hcontent in Hcontent'. injection Hcontent' as <-.
  set (cs := chunkMarkdown env content DEFAULT_CHUNK_OPTIONS) in *.
  exists ready, db', (log ++ events)%list. split; [exact Hrun|].
  destruct (records_keys documentId cs records Hrecs) as [Hnd Hkeys].
  assert (Hfresh : forall r, r ∈ records -> chunks db !! c_id r = None).
  { intros r Hr. destruct (chunks db !! c_id r) as [old|] eqn:Hold; [|reflexivity].
    exfalso. destruct (Hnone _ _ Hold) as [_ Hkey].
    destruct (Hkeys (c_id r)) as (k & _ & E); [|now apply (Hkey k)].
    apply list_elem_of_In, in_map, list_elem_of_In, Hr. }
  assert (Hof : chunksOfDocument env db' documentId ≡ₚ records).
  { unfold chunksOfDocument. rewrite Hlisted, Hchunks, (putAll_to_list _ _ Hnd Hfresh).
    rewrite filter_app, (filter_all _ records), (filter_none _ (map snd _)).
    - now rewrite app_nil_r.
    - apply Forall_forall. intros r Hr.
      apply list_elem_of_In, in_map_iff in Hr as ([key r'] & <- & Hr).
      apply list_elem_of_In, elem_of_map_to_list in Hr. now apply Hnone in Hr.
    - apply Forall_forall. intros r Hr. apply list_elem_of_lookup in Hr as [k Hk].
      destruct (Hrecs k r Hk) as (c & _ & _ & Hdid & _). exact Hdid. }
  unfold loadDocumentContent, bindP, getChunksOfDocument, ret. do 3 f_equal.
  rewrite (sort_ext _ (descending (fun c => (- INR (c_chunkIndex c))%R)))
    by (intros a b; unfold descending; lra).
  rewrite (sorted_unique (fun c => (- INR (c_chunkIndex c))%R) _ records).
  - f_equal. apply join_texts; [exact Hlen|]. intros k r Hr.
    destruct (Hrecs k r Hr) as (c & Hc & _ & _ & _ & Ht & _). eauto.
  - now rewrite sort_perm.
  - apply sort_sorted.
  - apply (numbered_sorted 0). intros k r Hr.
    destruct (Hrecs k r Hr) as (c & _ & _ & _ & Hidx & _). exact Hidx.
Qed.

Lemma indexed_content_is_read_back_in_order_witness :
  exists ready db' log',
    indexLargeDocumentInBackground
      (sampleStoreEnv ["Alpha"; "Beta"] (fun texts => Ok (map (fun _ => [1%R]) texts)))
      "d1" sampleFile sampleDb [] = (Ok ready, db', log')
    /\ loadDocumentContent
         (sampleStoreEnv ["Alpha"; "Beta"] (fun texts => Ok (map (fun _ => [1%R]) texts)))
         "d1" db' log'
       = (Ok (join (String newline (String newline "")) ["Alpha"; "Beta"]), db', log').
Proof.
  apply (indexed_content_is_read_back_in_order
           (sampleStoreEnv ["Alpha"; "Beta"] (fun texts => Ok (map (fun _ => [1%R]) texts)))
           "d1" sampleFile sampleDb [] sampleStored "content"); try reflexivity.
  - discriminate.
  - intros texts. eexists. reflexivity.
  - repeat split.
  - intros key r Hr. unfold sampleDb in Hr. cbn [chunks] in Hr.
    apply lookup_singleton_Some in Hr as [<- <-]. split; [discriminate|].
    intros k. unfold chunkKey. discriminate.
  - intros records. cbn [listed sampleStoreEnv]. symmetry. apply Permutation_rev.
Defined.

Lemma deleteAll_lookup (l : list ChunkRecord) (m : gmap string ChunkRecord) (key : string) :
  fold_left (fun m c => delete (c_id c) m) l m !! key
  = if decide (key ∈ map c_id l) then None else m !! key.
Proof.
  revert m. induction l as [|x l IH]; intros m; [reflexivity|].
  cbn [fold_left map]. rewrite IH.
  destruct (decide (key ∈ map c_id l)) as [Hin|Hout].
  - rewrite decide_True; [reflexivity | apply elem_of_cons; now right].
  - destruct (decide (key = c_id x)) as [->|Hne].
    + rewrite decide_True by (apply elem_of_cons; now left). apply lookup_delete_eq.
    + rewrite decide_False by (intros H; apply elem_of_cons in H as [H|H]; auto).
      now apply lookup_delete_ne.
Qed.

Lemma fold_deleteChunk (l : list ChunkRecord) db log :
  foldP (fun _ chunk => deleteChunk (c_id chunk)) l tt db log
  = (Ok tt, mkDb (documents db) (fold_left (fun m c => delete (c_id c) m) l (chunks db)), log).
Proof.
  revert db. induction l as [|x l IH]; intros db; [now destruct db|].
  cbn [foldP]. unfold bindP at 1. unfold deleteChunk at 1. now rewrite IH.
Qed.

(** X27: deleting a document removes its metadata and every chunk of
    it from a store in which every chunk is kept under its [id], and
    leaves the chunks of the other documents as they are; this is done
    before the original file and the cached projection are deleted, so
    it holds also when one of those deletions fails and
    [deleteLargeDocument] rejects. *)
Theorem deleting_a_document_removes_its_chunks
    (env : Env) (documentId : string) (db : Db) (log : list IndexingProgress) :
  well_keyed db ->
  (forall records, listed env records ≡ₚ records) ->
  exists r db',
    deleteLargeDocument env documentId db log = (r, db', log)
    /\ documents db' = delete documentId (documents db)
    /\ (forall key c,
           chunks db' !! key = Some c
           <-> chunks db !! key = Some c /\ c_documentId c <> documentId)
    /\ r = bind (deleteDocumentFile env documentId)
                (fun _ => removeDocumentUmapCache env documentId).
Proof.
  intros Hkeyed Hlisted. unfold deleteLargeDocument.
  unfold bindP at 1. unfold getChunksOfDocument at 1.
  unfold bindP at 1. rewrite fold_deleteChunk. cbn [documents chunks].
  unfold bindP at 1. unfold deleteDocument at 1. cbn [documents chunks].
  set (db' := mkDb (delete documentId (documents db))
                   (fold_left (fun m c => delete (c_id c) m)
                              (chunksOfDocument env db documentId) (chunks db))).
  exists (bind (deleteDocumentFile env documentId)
               (fun _ => removeDocumentUmapCache env documentId)), db'.
  split; [|split; [reflexivity|split; [|reflexivity]]].
  - unfold bindP, lift. destruct (deleteDocumentFile env documentId); reflexivity.
  - intros key c. subst db'. cbn [chunks]. rewrite deleteAll_lookup.
    assert (Hin : key ∈ map c_id (chunksOfDocument env db documentId)
                  <-> exists c', chunks db !! key = Some c' /\ c_documentId c' = documentId).
    { unfold chunksOfDocument. rewrite Hlisted. split.
      - intros H. apply list_elem_of_In, in_map_iff in H as (c' & <- & Hc').
        apply list_elem_of_In, list_elem_of_filter in Hc' as [Hdid Hc'].
        apply list_elem_of_In, in_map_iff in Hc' as ([k c''] & E & Hc'). simpl in E. subst c''.
        apply list_elem_of_In, elem_of_map_to_list in Hc'.
        rewrite (Hkeyed _ _ Hc'). eauto.
      - intros (c' & Hc' & Hdid). rewrite <- (Hkeyed _ _ Hc').
        apply list_elem_of_In, in_map, list_elem_of_In, list_elem_of_filter.
        split; [exact Hdid|].
        apply list_elem_of_In, in_map_iff. exists (key, c'). split; [reflexivity|].
        apply list_elem_of_In, elem_of_map_to_list, Hc'. }
    destruct (decide _) as [Hd|Hd].
    + split; [discriminate|]. intros [Hc Hne]. exfalso.
      apply Hin in Hd as (c' & Hc' & Hdid). rewrite Hc in Hc'. injection Hc' as <-. auto.
    + split.
      * intros Hc. split; [exact Hc|]. intros Hdid. apply Hd, Hin. eauto.
      * now intros [Hc _].
Qed.

Lemma deleting_a_document_removes_its_chunks_witness :
  exists r db',
    deleteLargeDocument (sampleStoreEnv [] (fun _ => Ok [])) "d0" sampleDb [] = (r, db', [])
    /\ documents db' = delete "d0" (documents sampleDb)
    /\ (forall key c,
           chunks db' !! key = Some c
           <-> chunks sampleDb !! key = Some c /\ c_documentId c <> "d0")
    /\ r = Ok tt.
Proof.
  apply (deleting_a_document_removes_its_chunks (sampleStoreEnv [] (fun _ => Ok [])) "d0"
           sampleDb []).
  - intros key r Hr. unfold sampleDb in Hr. cbn [chunks] in Hr.
    now apply lookup_singleton_Some in Hr as [<- <-].
  - intros records. cbn [listed sampleStoreEnv]. symmetry. apply Permutation_rev.
Defined.

End StoredChunks.

(* ===================================================================== *)
(** ** Scoring that fails, conversations that grow                    *)
(* ===================================================================== *)

Section FailedScoring.
Import JS Reranker LargeDocuments Props MoreProps.
Local Open Scope R_scope.








End FailedScoring.

Section LaterMessages.
Import JS ChatChunker Props MoreProps.

Lemma fold_messages_appends maxTokens (messages : list UIMessage) :
  forall (chunks : list ChatChunk) (mi : nat),
  exists added,
    fst (fold_left (messageStep maxTokens) messages (chunks, mi)) = (chunks ++ added)%list
    /\ Forall (fun c => (mi <= messageIndex c)%nat) added.
Proof.
  induction messages as [|m l IH]; intros chunks mi.
  - exists []. now rewrite app_nil_r.
  - cbn [fold_left]. destruct (shouldIncludeMessage m) eqn:Hinc.
    + destruct (messageStep_adds maxTokens chunks mi m Hinc) as (added1 & -> & Hadded1 & _).
      destruct (IH (chunks ++ added1)%list (Datatypes.S mi)) as (added2 & -> & Hadded2).
      exists (added1 ++ added2)%list. rewrite app_assoc. split; [reflexivity|].
      apply Forall_app. split.
      * eapply Forall_impl; [exact Hadded1|]. simpl. intros c ->. lia.
      * eapply Forall_impl; [exact Hadded2|]. simpl. intros c Hc. lia.
    + rewrite (messageStep_skipped _ _ _ Hinc). apply IH.
Qed.

(** X29: new messages never change the chunks of the earlier ones.
    The chunks of a conversation are the first chunks of every
    conversation that continues it, with the same texts, indices and
    message indices; the chunks that follow belong to the messages
    added. *)
Theorem earlier_chunks_survive_new_messages
    (messages more : list UIMessage) (maxTokens : nat) :
  exists added,
    chunkChatMessages (messages ++ more) maxTokens
    = (chunkChatMessages messages maxTokens ++ added)%list
    /\ Forall (fun c => (length (List.filter shouldIncludeMessage messages)
                         <= messageIndex c)%nat) added.
Proof.
  rewrite !chunkChatMessages_fold, fold_left_app.
  destruct (fold_messages_inv maxTokens (sentencesOf messages) messages) as [_ Hmi].
  - apply sentencesOf_trimmed.
  - intros m Hm Hinc s Hs. unfold sentencesOf.
    apply list_elem_of_In, in_flat_map. exists m. split.
    + apply filter_In. split; [now apply list_elem_of_In | exact Hinc].
    + now apply list_elem_of_In.
  - destruct (fold_left (messageStep maxTokens) messages ([], 0%nat)) as [chunks mi].
    simpl in Hmi. subst mi. cbn [fst]. apply fold_messages_appends.
Qed.

End LaterMessages.
